(** * A paging simulator: MMU, page-fault handler and replacement policies

    Shallow embedding of the four variants of the simulator
    (sim_pag_fifo.c, sim_pag_random.c, sim_pag_fifo2ch.c, sim_pag_lru.c)
    and the properties of its rings, its fault handler and its victim
    selection. *)

From Stdlib Require Import ZArith Lia Ascii String.
From stdpp Require Import base tactics option list list_numbers.

Local Open Scope Z_scope.

(** ** Machine integers *)

(** [int] and [unsigned] are 32 bits wide.  Unsigned arithmetic wraps;
    signed overflow is undefined behaviour and is reported as such by the
    operations of the monad below. *)

Definition UINT_MOD : Z := 2 ^ 32.
Definition INT_MAX : Z := 2 ^ 31 - 1.
Definition INT_MIN : Z := - 2 ^ 31.

(** Conversion of an integer to [unsigned] (reduction modulo 2^32). *)
Definition to_unsigned (z : Z) : Z := z mod UINT_MOD.

(** Conversion of an [unsigned] to [int] (two's complement). *)
Definition to_int (z : Z) : Z :=
  let u := z mod UINT_MOD in
  if u <=? INT_MAX then u else u - UINT_MOD.

Definition in_int_range (z : Z) : bool := (INT_MIN <=? z) && (z <=? INT_MAX).

(** ** Data model *)

(** Modelled from the spec: the header sim_paging.h, which declares
    [spage], [sframe] and [ssystem], is not among the sources.  The fields
    are those the four .c files read and write, with the meaning given in
    the data model of the specification; flags are booleans, indices and
    counters are [int], the clock and the timestamps are [unsigned]. *)

Record spage : Type := mk_spage {
  present : bool;
  frame : Z;
  modified : bool;
  referenced : bool;
  timestamp : Z
}.

Record sframe : Type := mk_sframe {
  page : Z;
  next : Z
}.

Record ssystem : Type := mk_ssystem {
  pagsz : Z;
  numpags : Z;
  pgt : list spage;
  lru : Z;
  clock : Z;
  numframes : Z;
  frt : list sframe;
  listfree : Z;
  listoccupied : Z;
  numrefsread : Z;
  numrefswrite : Z;
  numpagefaults : Z;
  numpgwriteback : Z;
  numillegalrefs : Z;
  detailed : bool
}.

(** Field updates of a page descriptor. *)
Definition set_present (b : bool) (p : spage) : spage :=
  mk_spage b (frame p) (modified p) (referenced p) (timestamp p).
Definition set_frame (f : Z) (p : spage) : spage :=
  mk_spage (present p) f (modified p) (referenced p) (timestamp p).
Definition set_modified (b : bool) (p : spage) : spage :=
  mk_spage (present p) (frame p) b (referenced p) (timestamp p).
Definition set_referenced (b : bool) (p : spage) : spage :=
  mk_spage (present p) (frame p) (modified p) b (timestamp p).
Definition set_timestamp (t : Z) (p : spage) : spage :=
  mk_spage (present p) (frame p) (modified p) (referenced p) t.

(** Field updates of a frame descriptor. *)
Definition set_page (p : Z) (f : sframe) : sframe := mk_sframe p (next f).
Definition set_next (n : Z) (f : sframe) : sframe := mk_sframe (page f) n.

(** Field updates of the system record. *)
Definition set_pgt (v : list spage) (s : ssystem) : ssystem :=
  mk_ssystem (pagsz s) (numpags s) v (lru s) (clock s) (numframes s) (frt s)
    (listfree s) (listoccupied s) (numrefsread s) (numrefswrite s)
    (numpagefaults s) (numpgwriteback s) (numillegalrefs s) (detailed s).
Definition set_lru (v : Z) (s : ssystem) : ssystem :=
  mk_ssystem (pagsz s) (numpags s) (pgt s) v (clock s) (numframes s) (frt s)
    (listfree s) (listoccupied s) (numrefsread s) (numrefswrite s)
    (numpagefaults s) (numpgwriteback s) (numillegalrefs s) (detailed s).
Definition set_clock (v : Z) (s : ssystem) : ssystem :=
  mk_ssystem (pagsz s) (numpags s) (pgt s) (lru s) v (numframes s) (frt s)
    (listfree s) (listoccupied s) (numrefsread s) (numrefswrite s)
    (numpagefaults s) (numpgwriteback s) (numillegalrefs s) (detailed s).
Definition set_frt (v : list sframe) (s : ssystem) : ssystem :=
  mk_ssystem (pagsz s) (numpags s) (pgt s) (lru s) (clock s) (numframes s) v
    (listfree s) (listoccupied s) (numrefsread s) (numrefswrite s)
    (numpagefaults s) (numpgwriteback s) (numillegalrefs s) (detailed s).
Definition set_listfree (v : Z) (s : ssystem) : ssystem :=
  mk_ssystem (pagsz s) (numpags s) (pgt s) (lru s) (clock s) (numframes s)
    (frt s) v (listoccupied s) (numrefsread s) (numrefswrite s)
    (numpagefaults s) (numpgwriteback s) (numillegalrefs s) (detailed s).
Definition set_listoccupied (v : Z) (s : ssystem) : ssystem :=
  mk_ssystem (pagsz s) (numpags s) (pgt s) (lru s) (clock s) (numframes s)
    (frt s) (listfree s) v (numrefsread s) (numrefswrite s)
    (numpagefaults s) (numpgwriteback s) (numillegalrefs s) (detailed s).
Definition set_numrefsread (v : Z) (s : ssystem) : ssystem :=
  mk_ssystem (pagsz s) (numpags s) (pgt s) (lru s) (clock s) (numframes s)
    (frt s) (listfree s) (listoccupied s) v (numrefswrite s)
    (numpagefaults s) (numpgwriteback s) (numillegalrefs s) (detailed s).
Definition set_numrefswrite (v : Z) (s : ssystem) : ssystem :=
  mk_ssystem (pagsz s) (numpags s) (pgt s) (lru s) (clock s) (numframes s)
    (frt s) (listfree s) (listoccupied s) (numrefsread s) v
    (numpagefaults s) (numpgwriteback s) (numillegalrefs s) (detailed s).
Definition set_numpagefaults (v : Z) (s : ssystem) : ssystem :=
  mk_ssystem (pagsz s) (numpags s) (pgt s) (lru s) (clock s) (numframes s)
    (frt s) (listfree s) (listoccupied s) (numrefsread s) (numrefswrite s)
    v (numpgwriteback s) (numillegalrefs s) (detailed s).
Definition set_numpgwriteback (v : Z) (s : ssystem) : ssystem :=
  mk_ssystem (pagsz s) (numpags s) (pgt s) (lru s) (clock s) (numframes s)
    (frt s) (listfree s) (listoccupied s) (numrefsread s) (numrefswrite s)
    (numpagefaults s) v (numillegalrefs s) (detailed s).
Definition set_numillegalrefs (v : Z) (s : ssystem) : ssystem :=
  mk_ssystem (pagsz s) (numpags s) (pgt s) (lru s) (clock s) (numframes s)
    (frt s) (listfree s) (listoccupied s) (numrefsread s) (numrefswrite s)
    (numpagefaults s) (numpgwriteback s) v (detailed s).

(** ** Arrays indexed by an [int] *)

(** [arr_get l i] is [l[i]]; an index outside the array has no value. *)
Definition arr_get {A : Type} (l : list A) (i : Z) : option A :=
  if 0 <=? i then l !! Z.to_nat i else None.

(** [arr_set l i x] is the array after [l[i] = x], for [i] inside it (the
    operations below never write outside). *)
Definition arr_set {A : Type} (l : list A) (i : Z) (x : A) : list A :=
  if 0 <=? i then <[Z.to_nat i := x]> l else l.

(** ** The monad of the simulator *)

(** A C function working on [ssystem* S] either returns a value together
    with the new state, runs into undefined behaviour (an index outside
    an array, a division by zero, a signed overflow), or exhausts the fuel
    given to a [while (1)] loop. *)
Inductive outcome (A : Type) : Type :=
| Ret (a : A) (s : ssystem)
| Undef
| Timeout.
Arguments Ret {A} a s.
Arguments Undef {A}.
Arguments Timeout {A}.

Definition M (A : Type) : Type := ssystem -> outcome A.

Definition ret {A : Type} (a : A) : M A := fun s => Ret a s.

Definition bind {A B : Type} (m : M A) (k : A -> M B) : M B :=
  fun s =>
    match m s with
    | Ret a s' => k a s'
    | Undef => Undef
    | Timeout => Timeout
    end.

Definition undef {A : Type} : M A := fun _ => Undef.
Definition timeout {A : Type} : M A := fun _ => Timeout.

Declare Scope sim_scope.
Delimit Scope sim_scope with sim.
Notation "x <- m ;; k" := (bind m (fun x => k))
  (at level 100, m at next level, right associativity) : sim_scope.
Notation "m ;; k" := (bind m (fun _ => k))
  (at level 100, right associativity) : sim_scope.
Local Open Scope sim_scope.

(** Reading a field of [S], and writing one. *)
Definition rd {A : Type} (field : ssystem -> A) : M A := fun s => Ret (field s) s.
Definition wr {A : Type} (setter : A -> ssystem -> ssystem) (v : A) : M unit :=
  fun s => Ret tt (setter v s).

(** The result of a signed operation: undefined outside the range of [int]. *)
Definition int_val (z : Z) : M Z :=
  if in_int_range z then ret z else undef.

(** [S->field++] on an [int] counter. *)
Definition incr (field : ssystem -> Z) (setter : Z -> ssystem -> ssystem) : M unit :=
  c <- rd field ;; c' <- int_val (c + 1) ;; wr setter c'.

(** [S->pgt[i]] as an rvalue, and [S->pgt[i].field = v]. *)
Definition pgt_at (i : Z) : M spage :=
  fun s => match arr_get (pgt s) i with Some p => Ret p s | None => Undef end.
Definition pgt_upd (i : Z) (f : spage -> spage) : M unit :=
  p <- pgt_at i ;; t <- rd pgt ;; wr set_pgt (arr_set t i (f p)).

(** [S->frt[i]] as an rvalue, and [S->frt[i].field = v]. *)
Definition frt_at (i : Z) : M sframe :=
  fun s => match arr_get (frt s) i with Some f => Ret f s | None => Undef end.
Definition frt_upd (i : Z) (f : sframe -> sframe) : M unit :=
  x <- frt_at i ;; t <- rd frt ;; wr set_frt (arr_set t i (f x)).

(** ** The code common to the four variants *)

Definition zero_page : spage := mk_spage false 0 false false 0.

(** [memset(S->pgt, 0, sizeof(spage) * S->numpags)]: the first [numpags]
    descriptors are zeroed; writing past the array is undefined. *)
Definition memset_pgt : M unit :=
  n <- rd numpags ;;
  t <- rd pgt ;;
  if (0 <=? n) && (n <=? Z.of_nat (length t))
  then wr set_pgt (replicate (Z.to_nat n) zero_page ++ drop (Z.to_nat n) t)
  else undef.

(** The loop [for (i = 0; i < S->numframes - 1; i++)] of init_tables, run
    for its [k] iterations from index [i]; the value is the final [i]. *)
Fixpoint init_loop (k : nat) (i : Z) : M Z :=
  match k with
  | O => ret i
  | S k' =>
      frt_upd i (set_page (-1)) ;;
      i1 <- int_val (i + 1) ;;
      frt_upd i (set_next i1) ;;
      init_loop k' i1
  end.

(** ** Output *)

(** A call of printf: the format, as the source writes it (escape
    sequences are not expanded), and the values of its arguments.  The
    functions that show results return the calls they make, in order. *)
Inductive printf_arg : Type :=
| PInt (z : Z)
| PStr (s : string).

Definition printf_call : Type := string * list printf_arg.

(** A flag of a descriptor, as printf's [%d] receives it. *)
Definition flag (b : bool) : Z := if b then 1 else 0.

(** The four variants. *)
Inductive policy : Type := FIFO | RANDOM | FIFO2CH | LRU.

(** sim_pag_fifo.c *)
Module Fifo.

Definition init_tables : M unit :=
  memset_pgt ;;
  wr set_lru (-1) ;;
  wr set_clock 0 ;;
  n <- rd numframes ;;
  n1 <- int_val (n - 1) ;;
  i <- init_loop (Z.to_nat n1) 0 ;;
  frt_upd i (set_page (-1)) ;;
  frt_upd i (set_next 0) ;;
  wr set_listfree i ;;
  wr set_listoccupied (-1) ;;
  wr set_listfree i.

Definition reference_page (pg : Z) (op : ascii) : M unit :=
  if Ascii.eqb op "R" then incr numrefsread set_numrefsread
  else if Ascii.eqb op "W" then
    pgt_upd pg (set_modified true) ;;
    incr numrefswrite set_numrefswrite
  else ret tt.

Definition choose_page_to_be_replaced : M Z :=
  lo <- rd listoccupied ;;
  x <- frt_at lo ;;
  let fr := next x in
  y <- frt_at fr ;;
  let victim := page y in
  wr set_listoccupied fr ;;
  ret victim.

Definition occupy_free_frame (fr pg : Z) : M unit :=
  lo <- rd listoccupied ;;
  (if lo =? -1 then frt_upd fr (set_next fr)
   else
     x <- frt_at lo ;;
     frt_upd fr (set_next (next x)) ;;
     lo' <- rd listoccupied ;;
     frt_upd lo' (set_next fr)) ;;
  wr set_listoccupied fr ;;
  pgt_upd pg (set_present true) ;;
  pgt_upd pg (set_frame fr) ;;
  pgt_upd pg (set_modified false) ;;
  frt_upd fr (set_page pg).

End Fifo.

(** sim_pag_random.c *)
Module Random.

Definition init_tables : M unit :=
  memset_pgt ;;
  wr set_lru (-1) ;;
  wr set_clock 0 ;;
  n <- rd numframes ;;
  n1 <- int_val (n - 1) ;;
  i <- init_loop (Z.to_nat n1) 0 ;;
  frt_upd i (set_page (-1)) ;;
  frt_upd i (set_next 0) ;;
  wr set_listfree i ;;
  wr set_listoccupied (-1).

Definition reference_page (pg : Z) (op : ascii) : M unit :=
  if Ascii.eqb op "R" then incr numrefsread set_numrefsread
  else if Ascii.eqb op "W" then
    pgt_upd pg (set_modified true) ;;
    incr numrefswrite set_numrefswrite
  else ret tt.

(** [myrandom(from, size)].  [raw] stands for the value of
    [(unsigned)(rand() / (RAND_MAX + 1.0) * size)], which the floating
    point unit computes; the two range checks that follow it are the
    code's own. *)
Definition myrandom (raw from size : Z) : Z :=
  let n := to_unsigned (from + raw) in
  let hi := to_unsigned (from + size - 1) in
  if hi <? n then hi
  else if n <? from then from
  else n.

Definition choose_page_to_be_replaced (raw : Z) : M Z :=
  n <- rd numframes ;;
  let fr := to_int (myrandom raw 0 (to_unsigned n)) in
  y <- frt_at fr ;;
  let victim := page y in
  ret victim.

Definition occupy_free_frame (fr pg : Z) : M unit :=
  pgt_upd pg (set_present true) ;;
  pgt_upd pg (set_frame fr) ;;
  pgt_upd pg (set_modified false) ;;
  frt_upd fr (set_page pg).

End Random.

(** sim_pag_fifo2ch.c *)
Module Fifo2ch.

Definition init_tables : M unit :=
  memset_pgt ;;
  n <- rd numframes ;;
  n1 <- int_val (n - 1) ;;
  i <- init_loop (Z.to_nat n1) 0 ;;
  frt_upd i (set_page (-1)) ;;
  frt_upd i (set_next 0) ;;
  wr set_listfree i ;;
  wr set_listoccupied (-1).

Definition reference_page (pg : Z) (op : ascii) : M unit :=
  (if Ascii.eqb op "R" then incr numrefsread set_numrefsread
   else if Ascii.eqb op "W" then
     pgt_upd pg (set_modified true) ;;
     incr numrefswrite set_numrefswrite
   else ret tt) ;;
  pgt_upd pg (set_referenced true).

(** The [while (1)] loop of choose_page_to_be_replaced, with [fuel]
    bounding the number of frames it may inspect. *)
Fixpoint choose_loop (fuel : nat) : M Z :=
  match fuel with
  | O => timeout
  | S fuel' =>
      lo <- rd listoccupied ;;
      x <- frt_at lo ;;
      let fr := next x in
      y <- frt_at fr ;;
      let pg := page y in
      d <- pgt_at pg ;;
      if referenced d then
        pgt_upd pg (set_referenced false) ;;
        wr set_listoccupied fr ;;
        choose_loop fuel'
      else ret pg
  end.

(** Every pardon clears one referenced bit of the page table, so the
    loop inspects at most one frame more than the table has pages
    (lemma [choose_loop_fuel_enough] below). *)
Definition choose_page_to_be_replaced : M Z :=
  t <- rd pgt ;;
  choose_loop (S (length t)).

Definition occupy_free_frame (fr pg : Z) : M unit :=
  lo <- rd listoccupied ;;
  (if lo =? -1 then frt_upd fr (set_next fr)
   else
     x <- frt_at lo ;;
     frt_upd fr (set_next (next x)) ;;
     lo' <- rd listoccupied ;;
     frt_upd lo' (set_next fr)) ;;
  wr set_listoccupied fr ;;
  pgt_upd pg (set_present true) ;;
  pgt_upd pg (set_frame fr) ;;
  pgt_upd pg (set_modified false) ;;
  pgt_upd pg (set_referenced true) ;;
  frt_upd fr (set_page pg).

(** The loop [for (int i = 0; i < S->numframes; i++)] of
    print_replacement_report, run for [k] iterations from index [i].  The
    third argument of its printf is [S->pgt[S->frt[i].page].referenced],
    whatever the frame holds. *)
Fixpoint report_rows (k : nat) (i : Z) : M (list printf_call) :=
  match k with
  | O => ret []
  | S k' =>
      x <- frt_at i ;;
      d <- pgt_at (page x) ;;
      rest <- report_rows k' (i + 1) ;;
      ret (("Frame: %d   Page: %d  Reference bit: %d\n"%string,
            [PInt i; PInt (page x); PInt (flag (referenced d))]) :: rest)
  end.

Definition print_replacement_report : M (list printf_call) :=
  n <- rd numframes ;;
  rows <- report_rows (Z.to_nat n) 0 ;;
  ret (("FIFO second chance\n Frames:\n"%string, []) :: rows).

End Fifo2ch.

(** sim_pag_lru.c *)
Module Lru.

Definition init_tables : M unit :=
  memset_pgt ;;
  wr set_lru (-1) ;;
  wr set_clock 0 ;;
  n <- rd numframes ;;
  n1 <- int_val (n - 1) ;;
  i <- init_loop (Z.to_nat n1) 0 ;;
  frt_upd i (set_page (-1)) ;;
  frt_upd i (set_next 0) ;;
  wr set_listfree i ;;
  wr set_listoccupied (-1).

Definition reference_page (pg : Z) (op : ascii) : M unit :=
  (if Ascii.eqb op "R" then incr numrefsread set_numrefsread
   else if Ascii.eqb op "W" then
     pgt_upd pg (set_modified true) ;;
     incr numrefswrite set_numrefswrite
   else ret tt) ;;
  c <- rd clock ;;
  pgt_upd pg (set_timestamp c) ;;
  wr set_clock (to_unsigned (c + 1)).

(** The loop [for (int i = 0; i < S->numframes; i++)] of
    choose_page_to_be_replaced, run for [k] iterations from index [i]
    with the candidate [fr]; the value is the final candidate. *)
Fixpoint scan (k : nat) (i fr : Z) : M Z :=
  match k with
  | O => ret fr
  | S k' =>
      let fr1 := if fr =? -1 then i else fr in
      a <- frt_at i ;;
      pa <- pgt_at (page a) ;;
      b <- frt_at fr1 ;;
      pb <- pgt_at (page b) ;;
      let fr2 := if timestamp pa <? timestamp pb then i else fr1 in
      scan k' (i + 1) fr2
  end.

Definition choose_page_to_be_replaced : M Z :=
  n <- rd numframes ;;
  fr <- scan (Z.to_nat n) 0 (-1) ;;
  y <- frt_at fr ;;
  let victim := page y in
  ret victim.

Definition occupy_free_frame (fr pg : Z) : M unit :=
  pgt_upd pg (set_frame fr) ;;
  frt_upd fr (set_page pg) ;;
  pgt_upd pg (set_present true) ;;
  pgt_upd pg (set_referenced true).

(** The loop [for (int i = 0; i < S->numpags; i++)] of
    print_replacement_report, run for [k] iterations from index [i].
    [mn] and [mx] are the locals [mintimestamp] and [maxtimestamp], two
    [int]s declared without a value: [None] until the iteration [i == 0]
    assigns them.  The comparisons are between an [unsigned] and an
    [int], so they are made on [unsigned] values. *)
Fixpoint minmax_loop (k : nat) (i : Z) (mn mx : option Z) : M (option Z * option Z) :=
  match k with
  | O => ret (mn, mx)
  | S k' =>
      d <- pgt_at i ;;
      let ts := timestamp d in
      let mn1 := if i =? 0 then Some (to_int ts) else mn in
      let mx1 := if i =? 0 then Some (to_int ts) else mx in
      match mn1, mx1 with
      | Some a, Some b =>
          let mn2 := if ts <? to_unsigned a then to_int ts else a in
          let mx2 := if to_unsigned b <? ts then to_int ts else b in
          minmax_loop k' (i + 1) (Some mn2) (Some mx2)
      | _, _ => undef
      end
  end.

(** Reading a local that was never assigned is undefined. *)
Definition print_replacement_report : M (list printf_call) :=
  n <- rd numpags ;;
  r <- minmax_loop (Z.to_nat n) 0 None None ;;
  match r with
  | (Some a, Some b) =>
      c <- rd clock ;;
      ret [("LRU replacement (Clock value: %10d, Min timestamp: %10d, Max timestamp: %10d)\n"%string,
            [PInt (to_int c); PInt a; PInt b])]
  | _ => undef
  end.

End Lru.

(** The functions each variant defines on its own, by variant.  [raw] is
    the random draw, which only the random variant consumes. *)
Definition init_tables (pol : policy) : M unit :=
  match pol with
  | FIFO => Fifo.init_tables
  | RANDOM => Random.init_tables
  | FIFO2CH => Fifo2ch.init_tables
  | LRU => Lru.init_tables
  end.

Definition reference_page (pol : policy) (pg : Z) (op : ascii) : M unit :=
  match pol with
  | FIFO => Fifo.reference_page pg op
  | RANDOM => Random.reference_page pg op
  | FIFO2CH => Fifo2ch.reference_page pg op
  | LRU => Lru.reference_page pg op
  end.

Definition choose_page_to_be_replaced (pol : policy) (raw : Z) : M Z :=
  match pol with
  | FIFO => Fifo.choose_page_to_be_replaced
  | RANDOM => Random.choose_page_to_be_replaced raw
  | FIFO2CH => Fifo2ch.choose_page_to_be_replaced
  | LRU => Lru.choose_page_to_be_replaced
  end.

Definition occupy_free_frame (pol : policy) (fr pg : Z) : M unit :=
  match pol with
  | FIFO => Fifo.occupy_free_frame fr pg
  | RANDOM => Random.occupy_free_frame fr pg
  | FIFO2CH => Fifo2ch.occupy_free_frame fr pg
  | LRU => Lru.occupy_free_frame fr pg
  end.

(** replace_page is the same text in the four files. *)
Definition replace_page (victim newpage : Z) : M unit :=
  v <- pgt_at victim ;;
  let fr := frame v in
  (if modified v then incr numpgwriteback set_numpgwriteback else ret tt) ;;
  pgt_upd victim (set_present false) ;;
  pgt_upd newpage (set_present true) ;;
  pgt_upd newpage (set_frame fr) ;;
  pgt_upd newpage (set_modified false) ;;
  frt_upd fr (set_page newpage).

(** handle_page_fault is the same text in the four files. *)
Definition handle_page_fault (pol : policy) (raw virtual_addr : Z) : M unit :=
  incr numpagefaults set_numpagefaults ;;
  sz <- rd pagsz ;;
  if to_unsigned sz =? 0 then undef
  else
    let pg := to_int (virtual_addr / to_unsigned sz) in
    lf <- rd listfree ;;
    if negb (lf =? -1) then
      let last := lf in
      x <- frt_at last ;;
      let fr := next x in
      (if fr =? last then wr set_listfree (-1)
       else
         y <- frt_at fr ;;
         frt_upd last (set_next (next y))) ;;
      occupy_free_frame pol fr pg
    else
      victim <- choose_page_to_be_replaced pol raw ;;
      replace_page victim pg.

(** The sentinel [~0U]. *)
Definition INVALID_ADDR : Z := UINT_MOD - 1.

(** sim_mmu is the same text in the four files.  [virtual_addr] is an
    [unsigned]; [op] is the character of the operation. *)
Definition sim_mmu (pol : policy) (raw virtual_addr : Z) (op : ascii) : M Z :=
  sz <- rd pagsz ;;
  if to_unsigned sz =? 0 then undef
  else
    let pg := to_int (virtual_addr / to_unsigned sz) in
    let offset := to_int (virtual_addr mod to_unsigned sz) in
    np <- rd numpags ;;
    if (pg <? 0) || (pg >=? np) then
      incr numillegalrefs set_numillegalrefs ;;
      ret INVALID_ADDR
    else
      d <- pgt_at pg ;;
      (if negb (present d) then handle_page_fault pol raw virtual_addr
       else ret tt) ;;
      d' <- pgt_at pg ;;
      let fr := frame d' in
      sz' <- rd pagsz ;;
      m <- int_val (fr * sz') ;;
      a <- int_val (m + offset) ;;
      let physical_addr := to_unsigned a in
      reference_page pol pg op ;;
      ret physical_addr.

(** print_frames_table is the same text in sim_pag_fifo.c,
    sim_pag_random.c and sim_pag_lru.c.  The loop
    [for (f = 0; f < S->numframes; f++)], run for [k] iterations from
    index [f]. *)
Fixpoint frames_rows (k : nat) (f : Z) : M (list printf_call) :=
  match k with
  | O => ret []
  | S k' =>
      x <- frt_at f ;;
      let p := page x in
      row <- (if p =? -1 then
                ret ("%8d   %8s   %6s     %6s\n"%string,
                     [PInt f; PStr "-"; PStr "-"; PStr "-"])
              else
                d <- pgt_at p ;;
                if present d then
                  ret ("%8d   %8d   %6d     %6d\n"%string,
                       [PInt f; PInt p; PInt (flag (present d));
                        PInt (flag (modified d))])
                else
                  ret ("%8d   %8d   %6d     %6s   ERROR!\n"%string,
                       [PInt f; PInt p; PInt (flag (present d)); PStr "-"])) ;;
      rest <- frames_rows k' (f + 1) ;;
      ret (row :: rest)
  end.

Definition print_frames_table : M (list printf_call) :=
  n <- rd numframes ;;
  rows <- frames_rows (Z.to_nat n) 0 ;;
  ret (("%10s %10s %10s   %s\n"%string,
        [PStr "FRAME"; PStr "Page"; PStr "Present"; PStr "Modified"]) :: rows).

(** A fresh system: the configuration with arrays of the configured sizes.
    The counters are those of the caller. *)
Definition blank (psz np nf : Z) : ssystem :=
  mk_ssystem psz np (replicate (Z.to_nat np) zero_page) 0 0 nf
    (replicate (Z.to_nat nf) (mk_sframe 0 0)) 0 0 0 0 0 0 0 false.

(** A run: the references of a trace, one after the other; the value is
    the list of the physical addresses. *)
Fixpoint run (pol : policy) (tr : list (Z * Z * ascii)) : M (list Z) :=
  match tr with
  | [] => ret []
  | (raw, va, op) :: tr' =>
      a <- sim_mmu pol raw va op ;;
      l <- run pol tr' ;;
      ret (a :: l)
  end.

Definition Rd (va : Z) : Z * Z * ascii := (0, va, "R"%char).
Definition Wr (va : Z) : Z * Z * ascii := (0, va, "W"%char).

(** ** Rings *)

(** The frames of a ring, from the one after the anchor up to the anchor
    itself.  [None] when the links leave the table or do not come back to
    the anchor within [fuel] frames. *)
Fixpoint ring_walk (t : list sframe) (anchor cur : Z) (fuel : nat) : option (list Z) :=
  match fuel with
  | O => None
  | S fuel' =>
      match arr_get t cur with
      | None => None
      | Some x =>
          if cur =? anchor then Some [cur]
          else match ring_walk t anchor (next x) fuel' with
               | Some l => Some (cur :: l)
               | None => None
               end
      end
  end.

Definition ring (t : list sframe) (anchor : Z) : option (list Z) :=
  if anchor =? -1 then Some []
  else match arr_get t anchor with
       | None => None
       | Some a => ring_walk t anchor (next a) (length t)
       end.

Definition free_ring (s : ssystem) : option (list Z) := ring (frt s) (listfree s).
Definition occupied_ring (s : ssystem) : option (list Z) := ring (frt s) (listoccupied s).

(** The two rings are well formed, share no frame, hold no frame twice and
    together hold exactly the frames [0 .. numframes-1]. *)
Definition ring_partition (s : ssystem) : Prop :=
  exists fl ol,
    free_ring s = Some fl /\ occupied_ring s = Some ol /\
    NoDup (fl ++ ol) /\
    forall i, i ∈ fl ++ ol <-> 0 <= i < numframes s.

(** ** Total accessors *)

Definition arr_nth {A : Type} (d : A) (l : list A) (i : Z) : A :=
  default d (arr_get l i).

Definition page_at (s : ssystem) (p : Z) : spage := arr_nth zero_page (pgt s) p.
Definition frame_at (s : ssystem) (i : Z) : sframe :=
  arr_nth (mk_sframe (-1) (-1)) (frt s) i.

Definition is_unsigned (z : Z) : Prop := 0 <= z < UINT_MOD.

(** The page number and the offset sim_mmu computes. *)
Definition page_of (s : ssystem) (va : Z) : Z := to_int (va / to_unsigned (pagsz s)).
Definition offset_of (s : ssystem) (va : Z) : Z := to_int (va mod to_unsigned (pagsz s)).

(** ** Predicates, shapes and states used by the statements *)

(** Whether the variant links the frames it occupies into the occupied
    ring. *)
Definition uses_ring (pol : policy) : bool :=
  match pol with FIFO | FIFO2CH => true | RANDOM | LRU => false end.

(** The shape of the occupied ring when the frames [0 .. k-1] are
    occupied: it chains them in increasing order and closes on frame 0. *)
Definition occupied_shape (pol : policy) (s : ssystem) (k : Z) : Prop :=
  if uses_ring pol then
    (k = 0 -> listoccupied s = -1) /\
    (0 < k ->
     0 <= listoccupied s < k /\
     (k < numframes s -> listoccupied s = k - 1) /\
     next (frame_at s (k - 1)) = 0 /\
     forall i, 0 <= i < k - 1 -> next (frame_at s i) = i + 1)
  else listoccupied s = -1.

(** The shape of the free ring when the frames [k .. numframes-1] are
    free: the anchor is the last frame, and the links chain the free
    frames in increasing order from [k]. *)
Definition free_shape (s : ssystem) (k : Z) : Prop :=
  if decide (k < numframes s) then
    listfree s = numframes s - 1 /\
    next (frame_at s (numframes s - 1)) = k /\
    forall i, k <= i < numframes s - 1 -> next (frame_at s i) = i + 1
  else listfree s = -1.

(** The states the simulator goes through: the frames are handed out in
    increasing order, [k] of them so far; pages and frames point to each
    other; the rings have the shapes above.  [kf] is the first frame of
    the free ring: it is [k], except inside handle_page_fault, between the
    moment a frame is detached and the moment it is occupied. *)
Record wf_gen (pol : policy) (s : ssystem) (k kf : Z) : Prop := mk_wf_gen {
  wf_pgt_len : Z.of_nat (length (pgt s)) = numpags s;
  wf_frt_len : Z.of_nat (length (frt s)) = numframes s;
  wf_nf : 0 < numframes s;
  wf_k : 0 <= k <= numframes s;
  wf_occ : forall i, 0 <= i < k ->
    0 <= page (frame_at s i) < numpags s /\
    present (page_at s (page (frame_at s i))) = true /\
    frame (page_at s (page (frame_at s i))) = i;
  wf_unocc : forall i, k <= i < numframes s -> page (frame_at s i) = -1;
  wf_pres : forall p, 0 <= p < numpags s -> present (page_at s p) = true ->
    0 <= frame (page_at s p) < k /\
    page (frame_at s (frame (page_at s p))) = p;
  wf_clean : k < numframes s ->
    forall p, 0 <= p < numpags s -> present (page_at s p) = false ->
    modified (page_at s p) = false;
  wf_lf : free_shape s kf;
  wf_lo : occupied_shape pol s k
}.

Definition wf_at (pol : policy) (s : ssystem) (k : Z) : Prop := wf_gen pol s k k.

Definition wf (pol : policy) (s : ssystem) : Prop := exists k, wf_at pol s k.

(** The configuration: page size, table sizes. *)
Definition same_cfg (s s' : ssystem) : Prop :=
  pagsz s' = pagsz s /\ numpags s' = numpags s /\ numframes s' = numframes s /\
  length (pgt s') = length (pgt s) /\ length (frt s') = length (frt s).

(** The counters and the clock. *)
Definition same_counters (s s' : ssystem) : Prop :=
  numrefsread s' = numrefsread s /\ numrefswrite s' = numrefswrite s /\
  numpagefaults s' = numpagefaults s /\ numpgwriteback s' = numpgwriteback s /\
  numillegalrefs s' = numillegalrefs s /\ clock s' = clock s.

(** The descriptor of a page after occupy_free_frame has stored it in
    frame [fr]; [d] is the descriptor before. *)
Definition occupied_page (pol : policy) (fr : Z) (d : spage) : spage :=
  match pol with
  | FIFO | RANDOM => mk_spage true fr false (referenced d) (timestamp d)
  | FIFO2CH => mk_spage true fr false true (timestamp d)
  | LRU => mk_spage true fr (modified d) true (timestamp d)
  end.

(** What a victim selection guarantees when every frame is occupied: the
    state stays well formed, the victim is a resident page, and nothing
    but the anchor of the occupied ring and the referenced bits moved. *)
Definition choose_post (pol : policy) (s : ssystem) (victim : Z) (s' : ssystem) : Prop :=
  wf_at pol s' (numframes s') /\
  same_cfg s s' /\ same_counters s s' /\
  frt s' = frt s /\ listfree s' = listfree s /\
  0 <= victim < numpags s /\ present (page_at s victim) = true /\
  (forall q, present (page_at s' q) = present (page_at s q) /\
             frame (page_at s' q) = frame (page_at s q) /\
             modified (page_at s' q) = modified (page_at s q) /\
             timestamp (page_at s' q) = timestamp (page_at s q)).

(** The frame the second-chance walk looks at, the page it holds, and
    the state after that page has been pardoned. *)
Definition head_frame (s : ssystem) : Z := next (frame_at s (listoccupied s)).

Definition candidate (s : ssystem) : Z := page (frame_at s (head_frame s)).

Definition pardon (s : ssystem) : ssystem :=
  set_listoccupied (head_frame s)
    (set_pgt (arr_set (pgt s) (candidate s)
                (set_referenced false (page_at s (candidate s)))) s).

(** The links the walk follows stay inside the tables. *)
Definition walk_ok (s : ssystem) : Prop :=
  0 <= listoccupied s < Z.of_nat (length (frt s)) /\
  0 <= head_frame s < Z.of_nat (length (frt s)) /\
  0 <= candidate s < Z.of_nat (length (pgt s)).

(** The state init_tables builds: no page resident, every frame free and
    chained to the next, the last one closing the free ring. *)
Definition init_post (s s' : ssystem) : Prop :=
  same_cfg s s' /\
  numrefsread s' = numrefsread s /\ numrefswrite s' = numrefswrite s /\
  numpagefaults s' = numpagefaults s /\ numpgwriteback s' = numpgwriteback s /\
  numillegalrefs s' = numillegalrefs s /\
  listfree s' = numframes s - 1 /\ listoccupied s' = -1 /\
  (forall p, 0 <= p < numpags s -> page_at s' p = zero_page) /\
  (forall j, 0 <= j < numframes s ->
     frame_at s' j =
     mk_sframe (-1) (if decide (j = numframes s - 1) then 0 else j + 1)).

(** The tables have the configured sizes and there is at least one
    frame. *)
Definition sizes_ok (s : ssystem) : Prop :=
  Z.of_nat (length (pgt s)) = numpags s /\
  Z.of_nat (length (frt s)) = numframes s /\
  0 < numframes s.

(** An absent page whose descriptor has the modified bit set while the
    frame is free, in a system of one page and one frame. *)
Definition stale_modified_system : ssystem :=
  mk_ssystem 4096 1 [mk_spage false 0 true false 0] (-1) 0 1
    [mk_sframe (-1) 0] 0 (-1) 0 0 0 0 0 false.

(** The timestamp of the page a frame holds. *)
Definition frame_ts (s : ssystem) (i : Z) : Z :=
  timestamp (page_at s (page (frame_at s i))).

(** [fr] is the first frame of minimal timestamp among the frames below
    [i]. *)
Definition first_min (s : ssystem) (i fr : Z) : Prop :=
  0 <= fr < i /\
  forall j, 0 <= j < i ->
    frame_ts s fr <= frame_ts s j /\ (frame_ts s j = frame_ts s fr -> fr <= j).

(** Every frame holds a page of the page table. *)
Definition frames_hold_pages (s : ssystem) : Prop :=
  Z.of_nat (length (frt s)) = numframes s /\
  forall i, 0 <= i < numframes s ->
    0 <= page (frame_at s i) < Z.of_nat (length (pgt s)).

(** The final state of a run, or the initial one if the run went wrong. *)
Definition final_state {A : Type} (o : outcome A) (s0 : ssystem) : ssystem :=
  match o with Ret _ s => s | _ => s0 end.


(** An LRU system of two frames after pages 0 and 1 were loaded and page 0
    was referenced again. *)
Definition lru_full_state : ssystem :=
  Eval vm_compute in
    final_state
      ((init_tables LRU ;; run LRU [Rd 0; Rd 4096; Rd 0]) (blank 4096 3 2))
      (blank 4096 3 2).

(** The number of pages whose referenced bit is set. *)
Definition count_ref (t : list spage) : nat :=
  length (filter (fun d => referenced d = true) t).

(** [l] is a chain of frames of the table, linked by [next], that starts
    at [cur]. *)
Fixpoint is_path (t : list sframe) (cur : Z) (l : list Z) : Prop :=
  match l with
  | [] => True
  | f :: l' =>
      f = cur /\ 0 <= cur < Z.of_nat (length t) /\
      is_path t (next (arr_nth (mk_sframe (-1) (-1)) t cur)) l'
  end.

(** The frame reached after the chain. *)
Fixpoint path_end (t : list sframe) (cur : Z) (l : list Z) : Z :=
  match l with
  | [] => cur
  | _ :: l' => path_end t (next (arr_nth (mk_sframe (-1) (-1)) t cur)) l'
  end.

(** What the walk changes: it clears referenced bits that were set, and
    moves the anchor of the occupied ring. *)
Definition pardoned (s s' : ssystem) : Prop :=
  frt s' = frt s /\ length (pgt s') = length (pgt s) /\
  same_cfg s s' /\ same_counters s s' /\ listfree s' = listfree s /\
  forall q, page_at s' q = page_at s q \/
            (referenced (page_at s q) = true /\
             page_at s' q = set_referenced false (page_at s q)).

(** An occupied ring as the fault handler finds it, in a system of two
    frames after pages 0 and 1 were loaded and page 0 referenced again. *)
Definition fifo2ch_full_state : ssystem :=
  Eval vm_compute in
    final_state
      ((init_tables FIFO2CH ;; run FIFO2CH [Rd 0; Rd 4096; Rd 0]) (blank 4096 3 2))
      (blank 4096 3 2).

(** The computation returns: it neither goes wrong nor runs out of fuel. *)
Definition returns {A : Type} (m : M A) (s : ssystem) : Prop :=
  exists a s', m s = Ret a s'.

(** A counter that can be incremented. *)
Definition counter_ok (c : Z) : Prop := INT_MIN <= c < INT_MAX.

(** The configuration is one of [int]s, and the physical addresses fit in
    an [int]. *)
Definition config_ok (s : ssystem) : Prop :=
  0 < pagsz s <= INT_MAX /\ numpags s <= INT_MAX /\
  numframes s * pagsz s <= INT_MAX.

(** The counters a legal reference may increment can be incremented. *)
Definition counters_ok (s : ssystem) : Prop :=
  counter_ok (numrefsread s) /\ counter_ok (numrefswrite s) /\
  counter_ok (numpagefaults s) /\ counter_ok (numpgwriteback s).

(** The descriptor of the page referenced, after reference_page; [c] is
    the clock before. *)
Definition referenced_page (pol : policy) (op : ascii) (c : Z) (d : spage) : spage :=
  let d1 := if Ascii.eqb op "R" then d
            else if Ascii.eqb op "W" then set_modified true d else d in
  match pol with
  | FIFO | RANDOM => d1
  | FIFO2CH => set_referenced true d1
  | LRU => set_timestamp c d1
  end.

(** The counters after one reference: none decreases, none grows by more
    than one. *)
Definition counters_step (s s' : ssystem) : Prop :=
  numrefsread s <= numrefsread s' <= numrefsread s + 1 /\
  numrefswrite s <= numrefswrite s' <= numrefswrite s + 1 /\
  numpagefaults s <= numpagefaults s' <= numpagefaults s + 1 /\
  numpgwriteback s <= numpgwriteback s' <= numpgwriteback s + 1.

(** The page loaded by replace_page in the frame of the victim; [d] is its
    descriptor before. *)
Definition replaced_page (fr : Z) (d : spage) : spage :=
  mk_spage true fr false (referenced d) (timestamp d).

(** The state after a legal reference to page [pg], with [k] frames
    occupied before: a hit, a fault served from the free ring, or a fault
    served by an eviction. *)
Definition step_post (pol : policy) (raw pg : Z) (op : ascii)
    (s : ssystem) (k : Z) (s' : ssystem) : Prop :=
  if present (page_at s pg) then
    wf_at pol s' k /\ frt s' = frt s /\
    listfree s' = listfree s /\ listoccupied s' = listoccupied s /\
    numpagefaults s' = numpagefaults s /\ numpgwriteback s' = numpgwriteback s /\
    forall q, page_at s' q =
      if decide (q = pg) then referenced_page pol op (clock s) (page_at s pg)
      else page_at s q
  else if decide (k < numframes s) then
    wf_at pol s' (k + 1) /\
    numpagefaults s' = numpagefaults s + 1 /\ numpgwriteback s' = numpgwriteback s /\
    (uses_ring pol = true -> listoccupied s' = k) /\
    forall q, page_at s' q =
      if decide (q = pg)
      then referenced_page pol op (clock s) (occupied_page pol k (page_at s pg))
      else page_at s q
  else
    exists victim s1,
      choose_page_to_be_replaced pol raw
        (set_numpagefaults (numpagefaults s + 1) s) = Ret victim s1 /\
      wf_at pol s' (numframes s') /\
      numpagefaults s' = numpagefaults s + 1 /\
      numpgwriteback s' =
        numpgwriteback s + (if modified (page_at s victim) then 1 else 0) /\
      listfree s' = -1 /\ listoccupied s' = listoccupied s1 /\
      0 <= victim < numpags s /\ victim <> pg /\
      present (page_at s victim) = true /\
      forall q, page_at s' q =
        if decide (q = pg)
        then referenced_page pol op (clock s)
               (replaced_page (frame (page_at s victim)) (page_at s1 pg))
        else if decide (q = victim) then set_present false (page_at s1 victim)
        else page_at s1 q.

(** Room for [m] more increments of each counter. *)
Definition counters_room (s : ssystem) (m : Z) : Prop :=
  (INT_MIN <= numrefsread s /\ numrefsread s + m <= INT_MAX) /\
  (INT_MIN <= numrefswrite s /\ numrefswrite s + m <= INT_MAX) /\
  (INT_MIN <= numpagefaults s /\ numpagefaults s + m <= INT_MAX) /\
  (INT_MIN <= numpgwriteback s /\ numpgwriteback s + m <= INT_MAX).

(** Whether a reference is a write to page [p], for pages of [sz] bytes. *)
Definition writes_to (sz p : Z) (e : Z * Z * ascii) : bool :=
  (to_int (e.1.2 / to_unsigned sz) =? p) && Ascii.eqb e.2 "W".

(** A run through which page [p] stays resident. *)
Fixpoint resident_run (pol : policy) (p : Z) (tr : list (Z * Z * ascii))
    (s s2 : ssystem) : Prop :=
  match tr with
  | [] => s2 = s
  | (raw, va, op) :: tr' =>
      exists a s1,
        sim_mmu pol raw va op s = Ret a s1 /\
        present (page_at s1 p) = true /\
        resident_run pol p tr' s1 s2
  end.

(** A FIFO system of two frames, just initialised. *)
Definition fifo_start : ssystem :=
  Eval vm_compute in final_state (init_tables FIFO (blank 4096 3 2)) (blank 4096 3 2).

(** The same system after page 0 was loaded by a write. *)
Definition fifo_written : ssystem :=
  Eval vm_compute in final_state (run FIFO [Wr 0] fifo_start) fifo_start.

(** Then after page 1 was loaded by a read. *)
Definition fifo_written_full : ssystem :=
  Eval vm_compute in final_state (run FIFO [Rd 4096] fifo_written) fifo_written.

(** Then after page 2 was loaded by a read: page 0 is evicted. *)
Definition fifo_written_evicted : ssystem :=
  Eval vm_compute in
    final_state (run FIFO [Rd 8192] fifo_written_full) fifo_written_full.

(** Whether the page number of a reference is inside a page table of [np]
    pages of [sz] bytes, as sim_mmu tests it. *)
Definition legal_ref (sz np : Z) (e : Z * Z * ascii) : bool :=
  let pg := to_int (e.1.2 / to_unsigned sz) in
  negb ((pg <? 0) || (pg >=? np)).

(** The number of references of a trace that satisfy [f]. *)
Fixpoint count_refs (f : Z * Z * ascii -> bool) (tr : list (Z * Z * ascii)) : Z :=
  match tr with
  | [] => 0
  | e :: tr' => (if f e then 1 else 0) + count_refs f tr'
  end.

(** The invariant of the FIFO variant: with [n] faults counted since
    init_tables, the frames [0 .. n-1] are in use while some frame is
    free, and afterwards the anchor of the occupied ring is the frame of
    the last fault, [(n - 1) mod numframes]. *)
Definition fifo_turn (pf0 : Z) (s : ssystem) (k : Z) : Prop :=
  (k < numframes s -> numpagefaults s - pf0 = k) /\
  (k = numframes s ->
   numframes s <= numpagefaults s - pf0 /\
   listoccupied s = (numpagefaults s - pf0 - 1) mod numframes s).

(** A FIFO system of three frames after five faults. *)
Definition fifo_five_faults : ssystem :=
  Eval vm_compute in
    final_state
      ((init_tables FIFO ;; run FIFO [Rd 0; Rd 4096; Rd 8192; Rd 12288; Rd 16384])
         (blank 4096 8 3))
      (blank 4096 8 3).

(** The timestamps of the resident pages are below the clock, and no two
    of them are equal. *)
Definition lru_stamps (s : ssystem) : Prop :=
  0 <= clock s /\
  (forall p, 0 <= p < numpags s -> present (page_at s p) = true ->
     0 <= timestamp (page_at s p) < clock s) /\
  (forall p q, 0 <= p < numpags s -> 0 <= q < numpags s ->
     present (page_at s p) = true -> present (page_at s q) = true ->
     p <> q -> timestamp (page_at s p) <> timestamp (page_at s q)).

(** The row print_frames_table prints for a frame that is free or holds a
    resident page. *)
Definition frames_row (s : ssystem) (f : Z) : printf_call :=
  let p := page (frame_at s f) in
  if p =? -1 then
    ("%8d   %8s   %6s     %6s\n"%string, [PInt f; PStr "-"; PStr "-"; PStr "-"])
  else
    ("%8d   %8d   %6d     %6d\n"%string,
     [PInt f; PInt p; PInt 1; PInt (flag (modified (page_at s p)))]).

(** The row the report of the second-chance variant prints for a frame. *)
Definition report_row (s : ssystem) (i : Z) : printf_call :=
  ("Frame: %d   Page: %d  Reference bit: %d\n"%string,
   [PInt i; PInt (page (frame_at s i));
    PInt (flag (referenced (page_at s (page (frame_at s i)))))]).

(** A random-variant system of two frames, both occupied. *)
Definition random_full_state : ssystem :=
  Eval vm_compute in
    final_state
      ((init_tables RANDOM ;; run RANDOM [Rd 0; Wr 4096]) (blank 4096 3 2))
      (blank 4096 3 2).

(** A second-chance system of two frames in which page 1 has lost its
    referenced bit and page 2 has it set. *)
Definition fifo2ch_mixed_state : ssystem :=
  Eval vm_compute in
    final_state
      ((init_tables FIFO2CH ;; run FIFO2CH [Rd 0; Rd 4096; Rd 0; Rd 8192])
         (blank 4096 3 2))
      (blank 4096 3 2).

(** The number of elements of a list that satisfy [f]. *)
Fixpoint count_if {A : Type} (f : A -> bool) (l : list A) : Z :=
  match l with
  | [] => 0
  | x :: l' => (if f x then 1 else 0) + count_if f l'
  end.

(** A page that is resident and modified. *)
Definition dirty (d : spage) : bool := present d && modified d.


(** ** Arrays: lookup after update *)

Section Arrays.
Context {A : Type}.
Implicit Types (l : list A) (i j : Z) (x : A).

Lemma arr_get_Some l i x : arr_get l i = Some x -> 0 <= i < Z.of_nat (length l).
Proof.
  unfold arr_get. destruct (Z.leb_spec 0 i); [|discriminate].
  intros H1. apply lookup_lt_Some in H1. lia.
Qed.

Lemma arr_get_is_Some l i : 0 <= i < Z.of_nat (length l) -> is_Some (arr_get l i).
Proof.
  intros H. unfold arr_get. destruct (Z.leb_spec 0 i); [|lia].
  apply lookup_lt_is_Some. lia.
Qed.

Lemma arr_get_None l i : arr_get l i = None -> ~ (0 <= i < Z.of_nat (length l)).
Proof.
  intros H H1. destruct (arr_get_is_Some l i H1) as [x Hx]. congruence.
Qed.

Lemma arr_set_length l i x : length (arr_set l i x) = length l.
Proof. unfold arr_set. destruct (0 <=? i); [apply length_insert | done]. Qed.

Lemma arr_get_set_eq l i x :
  0 <= i < Z.of_nat (length l) -> arr_get (arr_set l i x) i = Some x.
Proof.
  intros H. unfold arr_get, arr_set. destruct (Z.leb_spec 0 i); [|lia].
  apply list_lookup_insert_eq. lia.
Qed.

Lemma arr_get_set_ne l i j x : i <> j -> arr_get (arr_set l i x) j = arr_get l j.
Proof.
  intros H. unfold arr_get, arr_set. destruct (Z.leb_spec 0 j); [|done].
  destruct (Z.leb_spec 0 i); [|done].
  apply list_lookup_insert_ne. lia.
Qed.

Lemma arr_get_nth d l i x : arr_get l i = Some x -> arr_nth d l i = x.
Proof. unfold arr_nth. by intros ->. Qed.

Lemma arr_get_in_range d l i :
  0 <= i < Z.of_nat (length l) -> arr_get l i = Some (arr_nth d l i).
Proof. intros [x Hx]%arr_get_is_Some. unfold arr_nth. by rewrite Hx. Qed.

Lemma arr_nth_set d l i j x :
  0 <= i < Z.of_nat (length l) ->
  arr_nth d (arr_set l i x) j = if decide (j = i) then x else arr_nth d l j.
Proof.
  intros H. unfold arr_nth. destruct (decide (j = i)) as [->|Hne].
  - by rewrite arr_get_set_eq.
  - by rewrite arr_get_set_ne.
Qed.

Lemma arr_nth_set_eq d l i x :
  0 <= i < Z.of_nat (length l) -> arr_nth d (arr_set l i x) i = x.
Proof. intros H. rewrite arr_nth_set by done. by rewrite decide_True. Qed.

Lemma arr_nth_set_ne d l i j x : j <> i -> arr_nth d (arr_set l i x) j = arr_nth d l j.
Proof. intros H. unfold arr_nth. by rewrite arr_get_set_ne. Qed.

Lemma arr_set_set l i x y : arr_set (arr_set l i x) i y = arr_set l i y.
Proof.
  unfold arr_set. destruct (0 <=? i); [|done]. apply list_insert_insert_eq.
Qed.
End Arrays.

(** ** Reasoning on the monad *)

Section Inversion.
Context {A B : Type}.

Lemma bind_Ret (m : M A) (k : A -> M B) s b s2 :
  bind m k s = Ret b s2 -> exists a s1, m s = Ret a s1 /\ k a s1 = Ret b s2.
Proof. unfold bind. destruct (m s) as [a s1| |]; [eauto | done | done]. Qed.

Lemma bind_intro (m : M A) (k : A -> M B) s a s1 :
  m s = Ret a s1 -> bind m k s = k a s1.
Proof. unfold bind. by intros ->. Qed.

Lemma ret_Ret (a a' : A) s s' : ret a s = Ret a' s' -> a' = a /\ s' = s.
Proof. unfold ret. by intros [= -> ->]. Qed.

Lemma rd_Ret (f : ssystem -> A) s a s' : rd f s = Ret a s' -> a = f s /\ s' = s.
Proof. unfold rd. by intros [= <- <-]. Qed.

Lemma wr_Ret (setter : A -> ssystem -> ssystem) v s u s' :
  wr setter v s = Ret u s' -> s' = setter v s.
Proof. unfold wr. by intros [= <-]. Qed.
End Inversion.

Lemma in_int_range_spec z : in_int_range z = true <-> INT_MIN <= z <= INT_MAX.
Proof. unfold in_int_range. rewrite andb_true_iff, !Z.leb_le. tauto. Qed.

Lemma int_val_Ret z s a s' :
  int_val z s = Ret a s' -> a = z /\ s' = s /\ INT_MIN <= z <= INT_MAX.
Proof.
  unfold int_val. destruct (in_int_range z) eqn:E; [|done].
  intros [-> ->]%ret_Ret. by apply in_int_range_spec in E.
Qed.

Lemma int_val_ok z s : INT_MIN <= z <= INT_MAX -> int_val z s = Ret z s.
Proof. intros H%in_int_range_spec. unfold int_val. by rewrite H. Qed.

Lemma incr_Ret field setter s u s' :
  incr field setter s = Ret u s' ->
  s' = setter (field s + 1) s /\ INT_MIN <= field s + 1 <= INT_MAX.
Proof.
  unfold incr. intros (c & s1 & [-> ->]%rd_Ret & H)%bind_Ret.
  apply bind_Ret in H as (c' & s2 & (-> & -> & Hr)%int_val_Ret & H).
  apply wr_Ret in H. done.
Qed.

Lemma incr_ok field setter s :
  INT_MIN <= field s + 1 <= INT_MAX ->
  incr field setter s = Ret tt (setter (field s + 1) s).
Proof. intros H. unfold incr, bind, rd. by rewrite (int_val_ok _ _ H). Qed.

Lemma pgt_at_Ret i s p s' :
  pgt_at i s = Ret p s' -> s' = s /\ arr_get (pgt s) i = Some p.
Proof. unfold pgt_at. destruct (arr_get (pgt s) i); [|done]. by intros [= -> ->]. Qed.

Lemma frt_at_Ret i s x s' :
  frt_at i s = Ret x s' -> s' = s /\ arr_get (frt s) i = Some x.
Proof. unfold frt_at. destruct (arr_get (frt s) i); [|done]. by intros [= -> ->]. Qed.

Lemma pgt_upd_Ret i f s u s' :
  pgt_upd i f s = Ret u s' ->
  exists p, arr_get (pgt s) i = Some p /\ s' = set_pgt (arr_set (pgt s) i (f p)) s.
Proof.
  unfold pgt_upd. intros (p & s1 & [-> Hp]%pgt_at_Ret & H)%bind_Ret.
  apply bind_Ret in H as (t & s2 & [-> ->]%rd_Ret & H). apply wr_Ret in H. eauto.
Qed.

Lemma frt_upd_Ret i f s u s' :
  frt_upd i f s = Ret u s' ->
  exists x, arr_get (frt s) i = Some x /\ s' = set_frt (arr_set (frt s) i (f x)) s.
Proof.
  unfold frt_upd. intros (p & s1 & [-> Hp]%frt_at_Ret & H)%bind_Ret.
  apply bind_Ret in H as (t & s2 & [-> ->]%rd_Ret & H). apply wr_Ret in H. eauto.
Qed.

Lemma pgt_at_ok i s p : arr_get (pgt s) i = Some p -> pgt_at i s = Ret p s.
Proof. unfold pgt_at. by intros ->. Qed.

Lemma frt_at_ok i s x : arr_get (frt s) i = Some x -> frt_at i s = Ret x s.
Proof. unfold frt_at. by intros ->. Qed.

Lemma pgt_upd_ok i f s p :
  arr_get (pgt s) i = Some p ->
  pgt_upd i f s = Ret tt (set_pgt (arr_set (pgt s) i (f p)) s).
Proof. intros H. unfold pgt_upd, bind. by rewrite (pgt_at_ok _ _ _ H). Qed.

Lemma frt_upd_ok i f s x :
  arr_get (frt s) i = Some x ->
  frt_upd i f s = Ret tt (set_frt (arr_set (frt s) i (f x)) s).
Proof. intros H. unfold frt_upd, bind. by rewrite (frt_at_ok _ _ _ H). Qed.

(** Reduction of the projections of an updated record. *)
Ltac proj_simpl :=
  cbn [pagsz numpags pgt lru clock numframes frt listfree listoccupied
       numrefsread numrefswrite numpagefaults numpgwriteback numillegalrefs
       detailed set_pgt set_lru set_clock set_frt set_listfree
       set_listoccupied set_numrefsread set_numrefswrite set_numpagefaults
       set_numpgwriteback set_numillegalrefs
       present frame modified referenced timestamp page next
       set_present set_frame set_modified set_referenced set_timestamp
       set_page set_next] in *.

(** One step of the inversion of a run that returned. *)
Ltac sim_inv_step :=
  match goal with
  | H : bind _ _ _ = Ret _ _ |- _ =>
      let a := fresh "a" in let s := fresh "s" in let H1 := fresh "H" in
      apply bind_Ret in H as (a & s & H1 & H)
  | H : ret _ _ = Ret _ _ |- _ => apply ret_Ret in H as [-> ->]
  | H : rd _ _ = Ret _ _ |- _ => apply rd_Ret in H as [-> ->]
  | H : wr _ _ _ = Ret _ _ |- _ => apply wr_Ret in H as ->
  | H : undef _ = Ret _ _ |- _ => discriminate H
  | H : timeout _ = Ret _ _ |- _ => discriminate H
  | H : int_val _ _ = Ret _ _ |- _ => apply int_val_Ret in H as (-> & -> & ?)
  | H : incr _ _ _ = Ret _ _ |- _ => apply incr_Ret in H as [-> ?]
  | H : pgt_at _ _ = Ret _ _ |- _ => apply pgt_at_Ret in H as [-> ?]
  | H : frt_at _ _ = Ret _ _ |- _ => apply frt_at_Ret in H as [-> ?]
  | H : pgt_upd _ _ _ = Ret _ _ |- _ => apply pgt_upd_Ret in H as (? & ? & ->)
  | H : frt_upd _ _ _ = Ret _ _ |- _ => apply frt_upd_Ret in H as (? & ? & ->)
  end.

Ltac sim_inv_if :=
  match goal with
  | H : (if ?c then _ else _) _ = Ret _ _ |- _ => destruct c eqn:?
  end.

(** Inversion of straight-line code, and of code with branches. *)
Ltac sim_inv_line := repeat (sim_inv_step; proj_simpl).

Ltac sim_inv := repeat (first [sim_inv_step | sim_inv_if]; proj_simpl).

(** Facts [arr_get l i = Some x] are turned into the range of [i] and the
    value of [x]. *)
Ltac arr_norm :=
  repeat match goal with
    | H : arr_get ?l ?i = Some ?x |- _ =>
        let Hr := fresh "Hr" in
        pose proof (arr_get_Some _ _ _ H) as Hr;
        first
          [ is_var x;
            match type of x with
            | spage => apply (arr_get_nth zero_page) in H
            | sframe => apply (arr_get_nth (mk_sframe (-1) (-1))) in H
            end; subst x
          | clear H ]
    end;
  rewrite ?arr_set_length in *.

(** ** Well-formed states *)

(** A step that keeps the tables' sizes, the frame table, the free anchor
    and the residence of every page keeps the state well formed; the
    anchor of the occupied ring may move once every frame is occupied. *)
Lemma wf_gen_ext pol s s' k kf :
  wf_gen pol s k kf ->
  length (pgt s') = length (pgt s) ->
  numpags s' = numpags s ->
  numframes s' = numframes s ->
  frt s' = frt s ->
  listfree s' = listfree s ->
  (listoccupied s' = listoccupied s \/
   (uses_ring pol = true /\ k = numframes s /\
    0 <= listoccupied s' < numframes s)) ->
  (forall p, present (page_at s' p) = present (page_at s p) /\
             frame (page_at s' p) = frame (page_at s p)) ->
  (forall p, present (page_at s p) = false -> k < numframes s ->
             modified (page_at s' p) = modified (page_at s p)) ->
  wf_gen pol s' k kf.
Proof.
  intros [] Hl Hnp Hnf Hfrt Hlf Hlo Hpg Hmod.
  assert (Hfa : forall i, frame_at s' i = frame_at s i)
    by (intros i; unfold frame_at; by rewrite Hfrt).
  split; rewrite ?Hl, ?Hnp, ?Hnf, ?Hfrt; try done.
  - intros i Hi. rewrite Hfa. destruct (Hpg (page (frame_at s i))) as [-> ->]. auto.
  - intros i Hi. rewrite Hfa. auto.
  - intros p Hp. destruct (Hpg p) as [-> ->]. rewrite Hfa. auto.
  - intros Hk p Hp. destruct (Hpg p) as [-> _]. intros Ha. rewrite Hmod by done. auto.
  - unfold free_shape in *. rewrite Hnf, Hlf. rewrite Hfa.
    case_decide; [|done]. destruct wf_lf0 as (? & ? & Hn). repeat split; try done.
    intros i Hi. rewrite Hfa. auto.
  - unfold occupied_shape in *. destruct (uses_ring pol).
    + rewrite Hnf, Hfa. destruct wf_lo0 as [H0 H1]. split.
      * intros ->. destruct Hlo as [->|(_ & ? & ?)]; [by apply H0 | lia].
      * intros Hk. destruct (H1 Hk) as (? & ? & ? & Hn).
        split; [destruct Hlo as [->|(_ & ? & ?)]; [done | lia]|].
        split; [destruct Hlo as [->|(_ & ? & ?)]; [done | lia]|].
        split; [done|]. intros i Hi. rewrite Hfa. auto.
    + destruct Hlo as [->|[? _]]; done.
Qed.

(** Lookups in updated tables. *)
Ltac tbl_simpl :=
  unfold page_at, frame_at in *; proj_simpl; arr_norm;
  repeat first
    [ rewrite arr_nth_set_eq in * by (rewrite ?arr_set_length; lia)
    | rewrite arr_nth_set in * by (rewrite ?arr_set_length; lia) ];
  rewrite ?arr_set_set in *;
  proj_simpl.

(** ** reference_page *)

(** What reference_page leaves alone, in every variant: the sizes, the
    frame table, the anchors, the residence of the pages and the counters
    of faults, write-backs and illegal references; the modified bit
    changes only for a write, and only on the page referenced. *)
Lemma reference_page_spec pol pg op s u s' :
  reference_page pol pg op s = Ret u s' ->
  length (pgt s') = length (pgt s) /\
  pagsz s' = pagsz s /\ numpags s' = numpags s /\ numframes s' = numframes s /\
  frt s' = frt s /\ listfree s' = listfree s /\ listoccupied s' = listoccupied s /\
  numpagefaults s' = numpagefaults s /\ numpgwriteback s' = numpgwriteback s /\
  numillegalrefs s' = numillegalrefs s /\
  (forall p, present (page_at s' p) = present (page_at s p) /\
             frame (page_at s' p) = frame (page_at s p)) /\
  (forall p, modified (page_at s' p) =
             if decide (p = pg) then Ascii.eqb op "W" || modified (page_at s p)
             else modified (page_at s p)).
Proof.
  intros H.
  destruct pol; cbn [reference_page] in H;
    unfold Fifo.reference_page, Random.reference_page,
      Fifo2ch.reference_page, Lru.reference_page in H;
    sim_inv; tbl_simpl;
    repeat match goal with
      | H : Ascii.eqb _ _ = true |- _ => apply Ascii.eqb_eq in H; subst
      end;
    (repeat split; try done; try intros q;
     repeat (rewrite ?arr_nth_set by (rewrite ?arr_set_length; lia); proj_simpl);
     repeat case_decide; subst; proj_simpl;
     repeat match goal with H : Ascii.eqb _ _ = false |- _ => rewrite H; clear H end;
     try done).
Qed.

(** Closes the pointwise description of the state a function returns. *)
Ltac spec_solve :=
  unfold same_cfg, same_counters; proj_simpl; rewrite ?arr_set_length;
  repeat match goal with
    | H : (_ =? _) = true |- _ => apply Z.eqb_eq in H
    | H : (_ =? _) = false |- _ => apply Z.eqb_neq in H
    end;
  repeat match goal with
    | |- _ /\ _ => split
    | |- _ -> _ => intros ?
    | |- forall _, _ => intros ?
    end; try done;
  repeat first
    [ rewrite arr_nth_set_eq by (rewrite ?arr_set_length; lia)
    | rewrite arr_nth_set by (rewrite ?arr_set_length; lia) ];
  repeat case_decide; subst; proj_simpl; try done; try lia.

(** ** occupy_free_frame *)

Lemma occupy_free_frame_spec pol s fr pg u s' :
  occupy_free_frame pol fr pg s = Ret u s' ->
  0 <= fr < Z.of_nat (length (frt s)) /\
  0 <= pg < Z.of_nat (length (pgt s)) /\
  same_cfg s s' /\ same_counters s s' /\ listfree s' = listfree s /\
  (forall q, page_at s' q =
             if decide (q = pg) then occupied_page pol fr (page_at s pg)
             else page_at s q) /\
  (forall i, page (frame_at s' i) =
             if decide (i = fr) then pg else page (frame_at s i)) /\
  (if uses_ring pol then
     listoccupied s' = fr /\
     (listoccupied s = -1 ->
      forall i, next (frame_at s' i) =
                if decide (i = fr) then fr else next (frame_at s i)) /\
     (listoccupied s <> -1 -> listoccupied s <> fr ->
      forall i, next (frame_at s' i) =
                if decide (i = fr) then next (frame_at s (listoccupied s))
                else if decide (i = listoccupied s) then fr
                else next (frame_at s i))
   else
     listoccupied s' = listoccupied s /\
     forall i, next (frame_at s' i) = next (frame_at s i)).
Proof.
  intros H.
  destruct pol; cbn [occupy_free_frame] in H;
    unfold Fifo.occupy_free_frame, Random.occupy_free_frame,
      Fifo2ch.occupy_free_frame, Lru.occupy_free_frame in H;
    sim_inv; tbl_simpl; cbn [uses_ring occupied_page]; spec_solve.
Qed.

Lemma occupied_page_fields pol fr d :
  present (occupied_page pol fr d) = true /\
  frame (occupied_page pol fr d) = fr /\
  (modified d = false -> modified (occupied_page pol fr d) = false).
Proof. by destruct pol. Qed.

(** The anchor of the occupied ring is below the frames still free. *)
Lemma occupied_shape_anchor pol s k :
  occupied_shape pol s k -> 0 <= k -> -1 <= listoccupied s <= k - 1.
Proof.
  unfold occupied_shape. destruct (uses_ring pol); [|lia].
  intros [H0 H1] Hk. destruct (decide (k = 0)) as [->|]; [rewrite H0; lia|].
  destruct (H1 ltac:(lia)) as (? & _). lia.
Qed.

Lemma occupy_free_frame_wf pol s k pg u s' :
  wf_gen pol s k (k + 1) ->
  k < numframes s ->
  0 <= pg < numpags s ->
  present (page_at s pg) = false ->
  occupy_free_frame pol k pg s = Ret u s' ->
  wf_at pol s' (k + 1).
Proof.
  intros Hwf Hk Hpg Habs H.
  apply occupy_free_frame_spec in H
    as (Hfr & Hpgr & (Hsz & Hnp & Hnf' & Hlp & Hlfrt) & _ & Hlf' & Hpage & Hfpage & Hring).
  destruct Hwf as [Hpl Hfl Hnf Hkr Hocc Hun Hpres Hclean Hlf Hlo].
  destruct (occupied_page_fields pol k (page_at s pg)) as (Opres & Ofr & Omod).
  assert (Hne : forall i, 0 <= i < k -> page (frame_at s i) <> pg).
  { intros i Hi Heq. destruct (Hocc i Hi) as (_ & Hp & _). congruence. }
  assert (Hanch : -1 <= listoccupied s < k).
  { pose proof (occupied_shape_anchor _ _ _ Hlo). lia. }
  assert (Hnext : forall i, k < i -> next (frame_at s' i) = next (frame_at s i)).
  { intros i Hik. destruct (uses_ring pol); [|by apply Hring].
    destruct Hring as (_ & Hr1 & Hr2). destruct (decide (listoccupied s = -1)) as [He|He].
    - rewrite (Hr1 He). rewrite decide_False; [done | lia].
    - rewrite Hr2; [|done|lia]. rewrite !decide_False; [done | lia | lia]. }
  split.
  - by rewrite Hlp, Hnp.
  - by rewrite Hlfrt, Hnf'.
  - by rewrite Hnf'.
  - rewrite Hnf'. lia.
  - intros i Hi. rewrite Hfpage, Hnp. case_decide as Hik.
    + subst i. rewrite Hpage, decide_True by done. done.
    + assert (Hi' : 0 <= i < k) by lia.
      destruct (Hocc i Hi') as (? & ? & ?).
      rewrite Hpage, decide_False by (by apply Hne). done.
  - intros i Hi. rewrite Hnf' in Hi. rewrite Hfpage, decide_False by lia. apply Hun. lia.
  - intros p Hp. rewrite Hnp in Hp. rewrite Hpage. case_decide as Hpp.
    + subst p. intros _. rewrite Ofr. split; [lia|].
      rewrite Hfpage. by rewrite decide_True.
    + intros Hpr. destruct (Hpres p Hp Hpr) as (Hf & Hfp).
      split; [lia|]. rewrite Hfpage. rewrite decide_False by lia. done.
  - rewrite Hnf', Hnp. intros Hk1 p Hp. rewrite Hpage. case_decide as Hpp.
    + subst p. congruence.
    + apply Hclean; [lia | done].
  - unfold free_shape in *. rewrite Hnf', Hlf'.
    case_decide as Hk1; [|done]. destruct Hlf as (? & Hn1 & Hn2).
    split; [done|]. split.
    + rewrite Hnext; [done | lia].
    + intros i Hi. rewrite Hnext; [apply Hn2; lia | lia].
  - unfold occupied_shape in *. rewrite Hnf'.
    destruct (uses_ring pol); [|by destruct Hring as [-> _]].
    destruct Hring as (Hlo' & Hr1 & Hr2). destruct Hlo as [Hlo0 Hlo1].
    split; [lia|]. intros _. rewrite Hlo'.
    split; [lia|]. split; [lia|].
    replace (k + 1 - 1) with k by lia.
    destruct (decide (k = 0)) as [Hk0|Hk0].
    + specialize (Hlo0 Hk0). subst k. split.
      * rewrite (Hr1 Hlo0). by rewrite decide_True.
      * intros i Hi. lia.
    + destruct (Hlo1 ltac:(lia)) as (Hlor & Hlok & Hnk & Hch).
      specialize (Hlok Hk).
      assert (listoccupied s <> -1) by lia.
      assert (listoccupied s <> k) by lia.
      split.
      * rewrite Hr2 by done. rewrite decide_True by done. by rewrite Hlok.
      * intros i Hi. rewrite Hr2 by done. rewrite decide_False by lia.
        case_decide as Hil; [lia|]. apply Hch. lia.
Qed.

(** ** replace_page *)

Lemma replace_page_spec s victim newpage u s' :
  replace_page victim newpage s = Ret u s' ->
  0 <= victim < Z.of_nat (length (pgt s)) /\
  0 <= newpage < Z.of_nat (length (pgt s)) /\
  0 <= frame (page_at s victim) < Z.of_nat (length (frt s)) /\
  same_cfg s s' /\ listfree s' = listfree s /\ listoccupied s' = listoccupied s /\
  numrefsread s' = numrefsread s /\ numrefswrite s' = numrefswrite s /\
  numpagefaults s' = numpagefaults s /\ numillegalrefs s' = numillegalrefs s /\
  clock s' = clock s /\
  numpgwriteback s' =
    numpgwriteback s + (if modified (page_at s victim) then 1 else 0) /\
  (forall q, page_at s' q =
     if decide (q = newpage) then
       mk_spage true (frame (page_at s victim)) false
         (referenced (page_at s newpage)) (timestamp (page_at s newpage))
     else if decide (q = victim) then set_present false (page_at s victim)
     else page_at s q) /\
  (forall i, frame_at s' i =
     if decide (i = frame (page_at s victim))
     then set_page newpage (frame_at s i)
     else frame_at s i).
Proof.
  intros H. unfold replace_page in H.
  sim_inv; tbl_simpl;
    repeat match goal with H : modified _ = _ |- _ => rewrite H end;
    spec_solve.
Qed.

Lemma replace_page_wf pol s victim newpage u s' :
  wf_at pol s (numframes s) ->
  0 <= victim < numpags s -> present (page_at s victim) = true ->
  0 <= newpage < numpags s -> present (page_at s newpage) = false ->
  replace_page victim newpage s = Ret u s' ->
  wf_at pol s' (numframes s').
Proof.
  intros Hwf Hv Hvp Hn Hnp H.
  apply replace_page_spec in H
    as (_ & _ & _ & (Hsz & Hnps & Hnf' & Hlp & Hlfrt) & Hlf' & Hlo' & _ & _ & _ & _ & _ & _
        & Hpage & Hframe).
  destruct Hwf as [Hpl Hfl Hnf Hkr Hocc Hun Hpres Hclean Hlf Hlo].
  destruct (Hpres victim Hv Hvp) as (Hfv & Hfvp).
  assert (Hnext : forall i, next (frame_at s' i) = next (frame_at s i)).
  { intros i. rewrite Hframe. by case_decide. }
  assert (Hne : victim <> newpage) by congruence.
  rewrite Hnf'. split.
  - by rewrite Hlp, Hnps.
  - by rewrite Hlfrt, Hnf'.
  - by rewrite Hnf'.
  - rewrite Hnf'. lia.
  - intros i Hi. rewrite Hnps, Hframe. case_decide as Hif.
    + cbn. rewrite Hpage, decide_True by done. cbn. done.
    + destruct (Hocc i Hi) as (Hr & Hp & Hf).
      rewrite Hpage, !decide_False; [done | congruence | congruence].
  - intros i Hi. lia.
  - intros p Hp. rewrite Hnps in Hp. rewrite Hpage. case_decide as Hpp.
    + subst p. cbn. intros _. split; [lia|]. rewrite Hframe, decide_True by done. done.
    + case_decide as Hpv; [done|]. intros Hpr.
      destruct (Hpres p Hp Hpr) as (Hf & Hfp). split; [done|].
      rewrite Hframe, decide_False; [done | congruence].
  - intros Hk. lia.
  - unfold free_shape in *. rewrite Hnf', Hlf'. by rewrite decide_False in * by lia.
  - unfold occupied_shape in *. rewrite Hlo', Hnf'.
    destruct (uses_ring pol); [|done]. destruct Hlo as [H0 H1]. split; [done|].
    intros Hk. destruct (H1 Hk) as (? & ? & ? & Hch). rewrite Hnext.
    repeat split; try done; try lia. intros i Hi. rewrite Hnext. by apply Hch.
Qed.

(** ** choose_page_to_be_replaced *)

(** When every frame is occupied, the occupied ring is the cycle
    0 -> 1 -> ... -> numframes-1 -> 0. *)
Lemma full_ring_next pol s i :
  wf_at pol s (numframes s) -> uses_ring pol = true ->
  0 <= i < numframes s ->
  next (frame_at s i) = (if decide (i = numframes s - 1) then 0 else i + 1) /\
  0 <= next (frame_at s i) < numframes s /\
  0 <= listoccupied s < numframes s.
Proof.
  intros [_ _ Hnf _ _ _ _ _ _ Hlo] Hu Hi.
  unfold occupied_shape in Hlo. rewrite Hu in Hlo. destruct Hlo as [_ H1].
  destruct (H1 Hnf) as (? & _ & Hlast & Hch).
  case_decide as Hd.
  - subst i. rewrite Hlast. lia.
  - rewrite Hch by lia. lia.
Qed.

Lemma choose_post_refl pol s victim :
  wf_at pol s (numframes s) ->
  0 <= victim < numpags s -> present (page_at s victim) = true ->
  choose_post pol s victim s.
Proof.
  intros Hwf Hv Hp. split; [done|]. unfold same_cfg, same_counters.
  repeat split; try done; lia.
Qed.

Lemma choose_post_trans pol s1 s2 s3 v1 v2 :
  choose_post pol s1 v1 s2 -> choose_post pol s2 v2 s3 -> choose_post pol s1 v2 s3.
Proof.
  intros (_ & (? & ? & ? & ? & ?) & (? & ? & ? & ? & ? & ?) & ? & ? & _ & _ & Hq1)
         (Hwf & (? & ? & ? & ? & ?) & (? & ? & ? & ? & ? & ?) & ? & ? & Hv & Hvp & Hq2).
  split; [done|]. unfold same_cfg, same_counters.
  repeat split; try congruence; try lia.
  - destruct (Hq1 v2) as (<- & _). done.
  - destruct (Hq1 q) as (<- & _), (Hq2 q) as (<- & _). done.
  - destruct (Hq1 q) as (_ & <- & _), (Hq2 q) as (_ & <- & _). done.
  - destruct (Hq1 q) as (_ & _ & <- & _), (Hq2 q) as (_ & _ & <- & _). done.
  - destruct (Hq1 q) as (_ & _ & _ & <-), (Hq2 q) as (_ & _ & _ & <-). done.
Qed.

(** A frame of a full table holds a resident page. *)
Lemma full_frame_page pol s i :
  wf_at pol s (numframes s) -> 0 <= i < numframes s ->
  0 <= page (frame_at s i) < numpags s /\
  present (page_at s (page (frame_at s i))) = true.
Proof. intros [] Hi. destruct (wf_occ0 i Hi) as (? & ? & ?). done. Qed.

Lemma fifo_choose_spec s victim s' :
  wf_at FIFO s (numframes s) ->
  Fifo.choose_page_to_be_replaced s = Ret victim s' ->
  choose_post FIFO s victim s' /\
  victim = page (frame_at s (next (frame_at s (listoccupied s)))) /\
  listoccupied s' = next (frame_at s (listoccupied s)) /\
  pgt s' = pgt s.
Proof.
  intros Hwf H. unfold Fifo.choose_page_to_be_replaced in H.
  sim_inv. tbl_simpl. fold (frame_at s) in *.
  assert (Hlo : 0 <= listoccupied s < numframes s) by (destruct Hwf; lia).
  destruct (full_ring_next FIFO s (listoccupied s) Hwf eq_refl Hlo) as (_ & Hn & _).
  destruct (full_frame_page _ _ _ Hwf Hn) as (? & ?).
  unfold page_at, frame_at in *.
  split; [|done]. split.
  { eapply wf_gen_ext; [exact Hwf|done..|by right|done|done]. }
  unfold same_cfg, same_counters. repeat split; try done; lia.
Qed.

Lemma random_choose_spec raw s victim s' :
  wf_at RANDOM s (numframes s) ->
  Random.choose_page_to_be_replaced raw s = Ret victim s' ->
  choose_post RANDOM s victim s' /\ s' = s.
Proof.
  intros Hwf H. unfold Random.choose_page_to_be_replaced in H.
  sim_inv. tbl_simpl. fold (frame_at s) in *.
  assert (Hn : 0 <= to_int (Random.myrandom raw 0 (to_unsigned (numframes s))) < numframes s)
    by (destruct Hwf; lia).
  destruct (full_frame_page _ _ _ Hwf Hn) as (? & ?).
  split; [|done]. by apply choose_post_refl.
Qed.

Lemma choose_loop_step fuel s :
  walk_ok s ->
  Fifo2ch.choose_loop (S fuel) s =
  if referenced (page_at s (candidate s))
  then Fifo2ch.choose_loop fuel (pardon s)
  else Ret (candidate s) s.
Proof.
  intros (Hlo & Hh & Hc). cbn [Fifo2ch.choose_loop].
  unfold candidate, head_frame, pardon, page_at, frame_at in *.
  set (d := mk_sframe (-1) (-1)) in *.
  unfold bind at 1. unfold rd at 1.
  rewrite (bind_intro _ _ _ _ _ (frt_at_ok _ _ _ (arr_get_in_range d _ _ Hlo))).
  rewrite (bind_intro _ _ _ _ _ (frt_at_ok _ _ _ (arr_get_in_range d _ _ Hh))).
  pose proof (arr_get_in_range zero_page _ _ Hc) as Hc'.
  rewrite (bind_intro _ _ _ _ _ (pgt_at_ok _ _ _ Hc')).
  destruct (referenced _); [|done].
  rewrite (bind_intro _ _ _ _ _ (pgt_upd_ok _ _ _ _ Hc')).
  unfold bind at 1. unfold wr at 1. proj_simpl. done.
Qed.

Lemma choose_loop_Ret_walk_ok fuel s victim s' :
  Fifo2ch.choose_loop (S fuel) s = Ret victim s' -> walk_ok s.
Proof.
  cbn [Fifo2ch.choose_loop]. intros H.
  sim_inv; unfold walk_ok, candidate, head_frame; tbl_simpl; done.
Qed.

Lemma pardon_post s :
  wf_at FIFO2CH s (numframes s) -> walk_ok s ->
  choose_post FIFO2CH s (candidate s) (pardon s).
Proof.
  intros Hwf (Hlo & Hh & Hc).
  assert (Hlo' : 0 <= listoccupied s < numframes s) by (destruct Hwf; lia).
  destruct (full_ring_next FIFO2CH s (listoccupied s) Hwf eq_refl Hlo') as (_ & Hn & _).
  destruct (full_frame_page _ _ _ Hwf Hn) as (? & ?).
  fold (head_frame s) in *. fold (candidate s) in *.
  assert (Hq : forall q,
    present (page_at (pardon s) q) = present (page_at s q) /\
    frame (page_at (pardon s) q) = frame (page_at s q) /\
    modified (page_at (pardon s) q) = modified (page_at s q) /\
    timestamp (page_at (pardon s) q) = timestamp (page_at s q)).
  { intros q. unfold pardon, page_at. proj_simpl.
    rewrite arr_nth_set by done. by case_decide; subst. }
  split.
  { eapply wf_gen_ext; [exact Hwf | unfold pardon; proj_simpl; by rewrite arr_set_length
                       | done.. | by right | | ].
    - intros q. destruct (Hq q) as (? & ? & _). done.
    - intros q _ _. by destruct (Hq q) as (_ & _ & ? & _). }
  unfold same_cfg, same_counters, pardon. proj_simpl. rewrite arr_set_length.
  repeat split; try done; try lia; apply Hq.
Qed.

Lemma fifo2ch_choose_loop_spec fuel s victim s' :
  wf_at FIFO2CH s (numframes s) ->
  Fifo2ch.choose_loop fuel s = Ret victim s' ->
  choose_post FIFO2CH s victim s' /\
  referenced (page_at s' victim) = false.
Proof.
  revert s. induction fuel as [|fuel IH]; intros s Hwf H; [done|].
  pose proof (choose_loop_Ret_walk_ok _ _ _ _ H) as Hok.
  rewrite (choose_loop_step _ _ Hok) in H.
  pose proof (pardon_post s Hwf Hok) as Hpost.
  destruct (referenced (page_at s (candidate s))) eqn:Hr.
  - destruct (IH (pardon s)) as [Hp Hv]; [by destruct Hpost | done |].
    split; [|done]. eapply choose_post_trans; eauto.
  - injection H as <- <-. split; [|done].
    destruct Hpost as (_ & _ & _ & _ & _ & ? & ? & _).
    by apply choose_post_refl.
Qed.

Lemma fifo2ch_choose_spec s victim s' :
  wf_at FIFO2CH s (numframes s) ->
  Fifo2ch.choose_page_to_be_replaced s = Ret victim s' ->
  choose_post FIFO2CH s victim s'.
Proof.
  intros Hwf H. unfold Fifo2ch.choose_page_to_be_replaced in H.
  sim_inv_step. sim_inv_step. by apply fifo2ch_choose_loop_spec in H as [? _].
Qed.

Lemma lru_scan_state k i fr s fr' s' :
  Lru.scan k i fr s = Ret fr' s' -> s' = s.
Proof.
  revert i fr s. induction k as [|k IH]; intros i fr s H; cbn [Lru.scan] in H.
  - by sim_inv.
  - do 4 (sim_inv_step; sim_inv_step). by apply IH in H.
Qed.

Lemma lru_choose_spec s victim s' :
  wf_at LRU s (numframes s) ->
  Lru.choose_page_to_be_replaced s = Ret victim s' ->
  choose_post LRU s victim s' /\ s' = s.
Proof.
  intros Hwf H. unfold Lru.choose_page_to_be_replaced in H.
  sim_inv_step. sim_inv_step. sim_inv_step.
  match goal with H : Lru.scan _ _ _ _ = Ret _ _ |- _ =>
    apply lru_scan_state in H; subst end.
  sim_inv. tbl_simpl.
  match goal with H : 0 <= ?f < Z.of_nat (length (frt s)) |- _ =>
    assert (Hn : 0 <= f < numframes s) by (destruct Hwf; lia) end.
  destruct (full_frame_page _ _ _ Hwf Hn) as (? & ?).
  split; [|done]. by apply choose_post_refl.
Qed.

(** The four variants together. *)
Lemma choose_spec pol raw s victim s' :
  wf_at pol s (numframes s) ->
  choose_page_to_be_replaced pol raw s = Ret victim s' ->
  choose_post pol s victim s'.
Proof.
  intros Hwf H. destruct pol; cbn [choose_page_to_be_replaced] in H.
  - by apply fifo_choose_spec in H as [? _].
  - by apply random_choose_spec in H as [? _].
  - by apply fifo2ch_choose_spec in H.
  - by apply lru_choose_spec in H as [? _].
Qed.

(** ** handle_page_fault *)

(** Detaching the head of the free ring: the frame after the anchor
    leaves the ring, and the anchor is dropped when it was the only one. *)
Lemma detach_spec pol s k u s1 :
  wf_at pol s k -> k < numframes s ->
  (if k =? listfree s then wr set_listfree (-1)
   else y <- frt_at k ;; frt_upd (listfree s) (set_next (next y))) s = Ret u s1 ->
  wf_gen pol s1 k (k + 1) /\ pgt s1 = pgt s /\ same_cfg s s1 /\
  same_counters s s1 /\ listoccupied s1 = listoccupied s.
Proof.
  intros Hwf Hk H.
  destruct Hwf as [Hpl Hfl Hnf Hkr Hocc Hun Hpres Hclean Hlf Hlo].
  unfold free_shape in Hlf. rewrite decide_True in Hlf by done.
  destruct Hlf as (Hlf & Hlast & Hchain).
  pose proof (occupied_shape_anchor _ _ _ Hlo ltac:(lia)) as Hanch.
  destruct (Z.eqb_spec k (listfree s)) as [Hkl|Hkl]; sim_inv.
  - (* the last free frame *)
    split; [|by unfold same_cfg, same_counters].
    split; try done.
    + unfold free_shape. proj_simpl. rewrite decide_False by lia. done.
  - match goal with H : arr_get (frt s) k = Some ?y |- _ =>
      apply (arr_get_nth (mk_sframe (-1) (-1))) in H; fold (frame_at s k) in H; subst y end.
    match goal with H : arr_get (frt s) (listfree s) = Some ?y |- _ =>
      apply (arr_get_nth (mk_sframe (-1) (-1))) in H; fold (frame_at s (listfree s)) in H;
      subst y end.
    rewrite Hchain by lia.
    set (s1 := set_frt _ s).
    assert (Hfa : forall i, frame_at s1 i =
                if decide (i = numframes s - 1)
                then set_next (k + 1) (frame_at s (numframes s - 1))
                else frame_at s i).
    { intros i. unfold s1, frame_at. proj_simpl. rewrite Hlf.
      rewrite arr_nth_set by lia. done. }
    assert (Hfp : forall i, page (frame_at s1 i) = page (frame_at s i)).
    { intros i. rewrite Hfa. by case_decide; subst. }
    split; [|unfold same_cfg, same_counters, s1; proj_simpl;
             by rewrite arr_set_length].
    split; try done.
    + unfold s1. proj_simpl. by rewrite arr_set_length.
    + intros i Hi. rewrite Hfp. by apply Hocc.
    + intros i Hi. rewrite Hfp. by apply Hun.
    + intros p Hp Hpr. rewrite Hfp. by apply Hpres.
    + unfold free_shape. change (numframes s1) with (numframes s).
      change (listfree s1) with (listfree s).
      case_decide as Hk1; [|lia]. split; [done|]. split.
      * rewrite Hfa, decide_True by done. done.
      * intros i Hi. rewrite Hfa, decide_False by lia. apply Hchain. lia.
    + unfold occupied_shape in *. change (numframes s1) with (numframes s).
      change (listoccupied s1) with (listoccupied s).
      destruct (uses_ring pol); [|done]. destruct Hlo as [H0 H1]. split; [done|].
      intros Hk0. destruct (H1 Hk0) as (? & ? & Hn & Hch).
      repeat split; try done; try lia.
      * rewrite Hfa, decide_False by lia. done.
      * intros i Hi. rewrite Hfa, decide_False by lia. by apply Hch.
Qed.

(** A fault while frames remain free: the first free frame, [k], is
    detached from the free ring and receives the page. *)
Lemma fault_free_spec pol raw va s u s' k :
  wf_at pol s k -> k < numframes s ->
  0 <= page_of s va < numpags s ->
  present (page_at s (page_of s va)) = false ->
  handle_page_fault pol raw va s = Ret u s' ->
  wf_at pol s' (k + 1) /\ same_cfg s s' /\
  numpagefaults s' = numpagefaults s + 1 /\
  numrefsread s' = numrefsread s /\ numrefswrite s' = numrefswrite s /\
  numpgwriteback s' = numpgwriteback s /\ numillegalrefs s' = numillegalrefs s /\
  clock s' = clock s /\
  (forall q, page_at s' q =
             if decide (q = page_of s va)
             then occupied_page pol k (page_at s (page_of s va))
             else page_at s q) /\
  (uses_ring pol = true -> listoccupied s' = k).
Proof.
  intros Hwf Hk Hpg Habs H. unfold handle_page_fault in H.
  pose proof Hwf as [Hpl Hfl Hnf Hkr Hocc Hun Hpres Hclean Hlf Hlo].
  unfold free_shape in Hlf. rewrite decide_True in Hlf by done.
  destruct Hlf as (Hlf & Hlast & Hchain).
  sim_inv_line. sim_inv_if; [done|]. sim_inv_line.
  fold (page_of s va) in H.
  sim_inv_if; [|apply negb_false_iff, Z.eqb_eq in Heqb0; lia].
  sim_inv_line.
  match goal with H : arr_get (frt s) (listfree s) = Some ?y |- _ =>
    apply (arr_get_nth (mk_sframe (-1) (-1))) in H; fold (frame_at s (listfree s)) in H;
    subst y end.
  assert (Hk' : next (frame_at s (listfree s)) = k) by (by rewrite Hlf).
  rewrite Hk' in *. clear Hk'.
  set (s0 := set_numpagefaults (numpagefaults s + 1) s) in *.
  assert (Hwf0 : wf_at pol s0 k).
  { eapply wf_gen_ext; [exact Hwf|done..|by left|done|done]. }
  match goal with H : _ s0 = Ret _ ?s1 |- _ =>
    destruct (detach_spec pol s0 k _ s1 Hwf0 Hk H)
      as (Hwf1 & Hpgt1 & (Hsz1 & Hnp1 & Hnf1 & Hlp1 & Hlf1) & Hcnt1 & Hlo1)
  end.
  destruct Hcnt1 as (? & ? & ? & ? & ? & ?).
  assert (Hpa : forall q, page_at s1 q = page_at s q).
  { intros q. unfold page_at. by rewrite Hpgt1. }
  assert (Hpg1 : 0 <= page_of s va < numpags s1) by (rewrite Hnp1; done).
  assert (Habs1 : present (page_at s1 (page_of s va)) = false) by (by rewrite Hpa).
  assert (Hk1 : k < numframes s1) by (by rewrite Hnf1).
  pose proof (occupy_free_frame_wf _ _ _ _ _ _ Hwf1 Hk1 Hpg1 Habs1 H) as Hwf'.
  apply occupy_free_frame_spec in H
    as (_ & _ & (? & ? & ? & ? & ?) & (? & ? & ? & ? & ? & ?) & ? & Hpage & _ & Hring).
  split; [done|]. unfold same_cfg. subst s0. proj_simpl.
  repeat split; try congruence.
  - intros q. rewrite Hpage, !Hpa. done.
  - intros Hu. rewrite Hu in Hring. by destruct Hring as [-> _].
Qed.

(** A fault when no frame is free: a victim is chosen and replaced. *)
Lemma fault_evict_spec pol raw va s u s' :
  wf_at pol s (numframes s) ->
  0 <= page_of s va < numpags s ->
  present (page_at s (page_of s va)) = false ->
  handle_page_fault pol raw va s = Ret u s' ->
  exists victim s1,
    choose_page_to_be_replaced pol raw
      (set_numpagefaults (numpagefaults s + 1) s) = Ret victim s1 /\
    replace_page victim (page_of s va) s1 = Ret u s' /\
    wf_at pol s' (numframes s') /\ same_cfg s s' /\
    numpagefaults s' = numpagefaults s + 1 /\
    numrefsread s' = numrefsread s /\ numrefswrite s' = numrefswrite s /\
    numillegalrefs s' = numillegalrefs s /\ clock s' = clock s /\
    listfree s' = -1 /\
    0 <= victim < numpags s /\ present (page_at s victim) = true /\
    numpgwriteback s' =
      numpgwriteback s + (if modified (page_at s victim) then 1 else 0) /\
    (forall q, present (page_at s' q) =
       if decide (q = page_of s va) then true
       else if decide (q = victim) then false
       else present (page_at s q)) /\
    (forall q, frame (page_at s' q) =
       if decide (q = page_of s va) then frame (page_at s victim)
       else frame (page_at s q)) /\
    (forall q, modified (page_at s' q) =
       if decide (q = page_of s va) then false else modified (page_at s q)).
Proof.
  intros Hwf Hpg Habs H. unfold handle_page_fault in H.
  assert (Hlf : listfree s = -1).
  { destruct Hwf as [_ _ _ _ _ _ _ _ Hlf _]. unfold free_shape in Hlf.
    by rewrite decide_False in Hlf by lia. }
  sim_inv_line. sim_inv_if; [done|]. sim_inv_line.
  fold (page_of s va) in H. rewrite Hlf, Z.eqb_refl in H. cbn [negb] in H.
  sim_inv_line.
  set (sf := set_numpagefaults (numpagefaults s + 1) s) in *.
  assert (Hwf0 : wf_at pol sf (numframes sf)).
  { eapply wf_gen_ext; [exact Hwf|done..|by left|done|done]. }
  match goal with Hc : choose_page_to_be_replaced _ _ _ = Ret ?v ?s1 |- _ =>
    exists v, s1; pose proof (choose_spec _ _ _ _ _ Hwf0 Hc)
      as (Hwf1 & (Hsz1 & Hnp1 & Hnf1 & Hlp1 & Hlfr1) & (? & ? & ? & ? & ? & ?)
          & Hfrt1 & Hlf1 & Hv & Hvp & Hq1);
    rename v into victim; rename s1 into s1'
  end.
  change (numpags sf) with (numpags s) in *.
  change (page_at sf) with (page_at s) in *.
  assert (Hpg1 : 0 <= page_of s va < numpags s1') by (by rewrite Hnp1).
  assert (Hv1 : 0 <= victim < numpags s1') by (by rewrite Hnp1).
  assert (Habs1 : present (page_at s1' (page_of s va)) = false).
  { destruct (Hq1 (page_of s va)) as (-> & _). done. }
  assert (Hvp1 : present (page_at s1' victim) = true).
  { destruct (Hq1 victim) as (-> & _). done. }
  pose proof (replace_page_wf _ _ _ _ _ _ Hwf1 Hv1 Hvp1 Hpg1 Habs1 H) as Hwf'.
  pose proof H as Hrep.
  apply replace_page_spec in H
    as (_ & _ & _ & (? & ? & ? & ? & ?) & ? & ? & ? & ? & ? & ? & ? & Hwb & Hpage & _).
  assert (Hne : victim <> page_of s va) by congruence.
  split; [done|]. split; [done|]. split; [done|].
  unfold same_cfg. subst sf. proj_simpl.
  repeat split; try congruence; try lia.
  - rewrite Hwb. destruct (Hq1 victim) as (_ & _ & -> & _). congruence.
  - intros q. rewrite Hpage. repeat case_decide; try done. apply Hq1.
  - intros q. rewrite Hpage. repeat case_decide; try done.
    + cbn. apply Hq1.
    + subst q. cbn. apply Hq1.
    + apply Hq1.
  - intros q. rewrite Hpage. repeat case_decide; try done.
    + subst q. cbn. apply Hq1.
    + apply Hq1.
Qed.

(** ** sim_mmu *)

(** An illegal reference. *)
Lemma sim_mmu_illegal pol raw va op s :
  to_unsigned (pagsz s) <> 0 ->
  ~ (0 <= page_of s va < numpags s) ->
  sim_mmu pol raw va op s =
  (incr numillegalrefs set_numillegalrefs ;; ret INVALID_ADDR) s.
Proof.
  intros Hsz Hpg. unfold sim_mmu. unfold bind at 1. unfold rd at 1.
  destruct (Z.eqb_spec (to_unsigned (pagsz s)) 0) as [|_]; [done|].
  unfold bind at 1. unfold rd at 1. fold (page_of s va).
  destruct (Z.ltb_spec (page_of s va) 0); [done|].
  destruct (Z.geb_spec (page_of s va) (numpags s)); [done|]. lia.
Qed.

(** A legal reference: the fault handler runs if the page is absent, the
    address is computed from the frame of the page, and the reference is
    accounted. *)
Lemma sim_mmu_legal pol raw va op s a s' :
  0 <= page_of s va < numpags s ->
  sim_mmu pol raw va op s = Ret a s' ->
  exists s1,
    (if present (page_at s (page_of s va)) then s1 = s
     else handle_page_fault pol raw va s = Ret tt s1) /\
    0 <= page_of s va < Z.of_nat (length (pgt s1)) /\
    reference_page pol (page_of s va) op s1 = Ret tt s' /\
    INT_MIN <= frame (page_at s1 (page_of s va)) * pagsz s1 + offset_of s va <= INT_MAX /\
    a = to_unsigned (frame (page_at s1 (page_of s va)) * pagsz s1 + offset_of s va).
Proof.
  intros Hpg H. unfold sim_mmu in H.
  sim_inv_line. sim_inv_if; [done|]. sim_inv_line.
  fold (page_of s va) in *. fold (offset_of s va) in *.
  destruct (Z.ltb_spec (page_of s va) 0); [lia|].
  destruct (Z.geb_spec (page_of s va) (numpags s)); [lia|]. cbn [orb] in H.
  sim_inv_line.
  repeat match goal with
    | H : arr_get (pgt ?t) _ = Some ?y |- _ =>
        pose proof (arr_get_Some _ _ _ H);
        apply (arr_get_nth zero_page) in H; fold (page_at t (page_of s va)) in H; subst y
    end.
  match goal with H : reference_page _ _ _ ?s1 = Ret ?u _ |- _ =>
    exists s1; destruct u end.
  repeat split; try done; try lia.
  destruct (present (page_at s (page_of s va))); cbn [negb] in *.
  - by sim_inv_line.
  - match goal with H : handle_page_fault _ _ _ _ = Ret ?u _ |- _ => by destruct u end.
Qed.

(** reference_page on a resident page keeps the state well formed. *)
Lemma reference_page_wf pol pg op s u s' k :
  wf_at pol s k -> present (page_at s pg) = true ->
  reference_page pol pg op s = Ret u s' ->
  wf_at pol s' k.
Proof.
  intros Hwf Hp H.
  apply reference_page_spec in H
    as (? & ? & ? & ? & ? & ? & ? & _ & _ & _ & Hq & Hm).
  eapply wf_gen_ext; [exact Hwf|done..|by left|done|].
  intros p Hp' _. rewrite Hm. case_decide; [congruence | done].
Qed.

(** The state after a reference that returned: in which of the three ways
    sim_mmu went, and with how many frames occupied. *)
Lemma sim_mmu_wf_at pol raw va op s a s' k :
  wf_at pol s k ->
  sim_mmu pol raw va op s = Ret a s' ->
  wf_at pol s'
    (if decide (0 <= page_of s va < numpags s) then
       if present (page_at s (page_of s va)) then k
       else if decide (k < numframes s) then k + 1 else k
     else k).
Proof.
  intros Hwf H.
  assert (Hsz : to_unsigned (pagsz s) <> 0).
  { unfold sim_mmu in H. sim_inv_line. sim_inv_if; [done|]. by apply Z.eqb_neq. }
  case_decide as Hpg.
  - apply (sim_mmu_legal _ _ _ _ _ _ _ Hpg) in H as (s1 & Hf & _ & Hr & _).
    destruct (present (page_at s (page_of s va))) eqn:Hp.
    + subst s1. by eapply reference_page_wf.
    + case_decide as Hk.
      * pose proof (fault_free_spec _ _ _ _ _ _ _ Hwf Hk Hpg Hp Hf)
          as (Hwf1 & _ & _ & _ & _ & _ & _ & _ & Hq & _).
        eapply reference_page_wf; [exact Hwf1| |exact Hr].
        rewrite Hq, decide_True by done.
        by destruct (occupied_page_fields pol k (page_at s (page_of s va))) as (? & _).
      * assert (k = numframes s) by (destruct Hwf; lia). subst k.
        pose proof (fault_evict_spec _ _ _ _ _ _ Hwf Hpg Hp Hf)
          as (v & s2 & _ & _ & Hwf1 & (_ & _ & Hnf & _) & _ & _ & _ & _ & _ & _ & _ & _ & _
              & Hq & _).
        rewrite Hnf in Hwf1.
        eapply reference_page_wf; [exact Hwf1| |exact Hr].
        rewrite Hq, decide_True by done. done.
  - rewrite sim_mmu_illegal in H by done. sim_inv_line.
    eapply wf_gen_ext; [exact Hwf|done..|by left|done|done].
Qed.

Lemma sim_mmu_wf pol raw va op s a s' :
  wf pol s -> sim_mmu pol raw va op s = Ret a s' -> wf pol s'.
Proof. intros [k Hwf] H. eexists. by eapply sim_mmu_wf_at. Qed.

(** ** init_tables *)

Lemma init_loop_spec k i s r s' :
  init_loop k i s = Ret r s' ->
  r = i + Z.of_nat k /\
  (k <> O -> 0 <= i /\ i + Z.of_nat k <= Z.of_nat (length (frt s))) /\
  same_cfg s s' /\ same_counters s s' /\ pgt s' = pgt s /\
  listfree s' = listfree s /\ listoccupied s' = listoccupied s /\
  lru s' = lru s /\
  forall j, frame_at s' j =
            if decide (i <= j < i + Z.of_nat k) then mk_sframe (-1) (j + 1)
            else frame_at s j.
Proof.
  revert i s. induction k as [|k IH]; intros i s H; cbn [init_loop] in H.
  - sim_inv_line. unfold same_cfg, same_counters.
    repeat split; try done; try lia. intros j. rewrite decide_False by lia. done.
  - sim_inv_line. apply IH in H
      as (-> & Hr & (? & ? & ? & ? & Hl) & (? & ? & ? & ? & ? & ?) & ? & ? & ? & ? & Hf).
    proj_simpl. rewrite !arr_set_length in *. tbl_simpl.
    unfold same_cfg, same_counters. rewrite ?arr_set_length in *.
    repeat split; try done; try lia.
    intros j. rewrite Hf.
    rewrite arr_nth_set by (rewrite ?arr_set_length; lia).
    repeat case_decide; try lia; try done. by subst j.
Qed.

Lemma init_loop_total k i s :
  0 <= i -> i + Z.of_nat k <= Z.of_nat (length (frt s)) -> i + Z.of_nat k <= INT_MAX ->
  exists r s', init_loop k i s = Ret r s'.
Proof.
  revert i s. induction k as [|k IH]; intros i s Hi Hl Hm; cbn [init_loop].
  - by eexists _, _.
  - assert (Hr : 0 <= i < Z.of_nat (length (frt s))) by lia.
    destruct (arr_get_is_Some _ _ Hr) as [x Hx].
    rewrite (bind_intro _ _ _ _ _ (frt_upd_ok _ _ _ _ Hx)).
    assert (Hv : INT_MIN <= i + 1 <= INT_MAX) by (unfold INT_MIN, INT_MAX in *; lia).
    rewrite (bind_intro _ _ _ _ _ (int_val_ok _ (set_frt _ s) Hv)).
    erewrite bind_intro; cycle 1.
    { apply frt_upd_ok. proj_simpl. by apply arr_get_set_eq. }
    apply IH; proj_simpl; rewrite ?arr_set_length; lia.
Qed.

Lemma arr_nth_replicate {A : Type} (d x : A) (n : nat) (l : list A) i :
  0 <= i < Z.of_nat n -> arr_nth d (replicate n x ++ l) i = x.
Proof.
  intros Hi. unfold arr_nth, arr_get. destruct (Z.leb_spec 0 i); [|lia].
  rewrite lookup_app_l by (rewrite length_replicate; lia).
  rewrite lookup_replicate_2 by lia. done.
Qed.

Lemma init_tables_spec pol s u s' :
  Z.of_nat (length (pgt s)) = numpags s ->
  Z.of_nat (length (frt s)) = numframes s ->
  0 < numframes s ->
  init_tables pol s = Ret u s' ->
  init_post s s'.
Proof.
  intros Hlp Hlf Hnf H.
  destruct pol; cbn [init_tables] in H;
    unfold Fifo.init_tables, Random.init_tables, Fifo2ch.init_tables,
      Lru.init_tables, memset_pgt in H;
    sim_inv_line; sim_inv_if; sim_inv_line.
  all: match goal with H : init_loop _ _ _ = Ret _ _ |- _ =>
         apply init_loop_spec in H
           as (-> & _ & (? & ? & ? & Hl1 & Hl2) & (? & ? & ? & ? & ? & ?) & Hp & ? & ? & ? & Hf)
       end.
  all: proj_simpl; rewrite ?arr_set_length in *; tbl_simpl;
       replace (0 + Z.of_nat (Z.to_nat (numframes s - 1))) with (numframes s - 1) in * by lia.
  all: unfold init_post, same_cfg; proj_simpl; rewrite ?arr_set_length.
  all: repeat split; try done; try lia.
  all: try (rewrite Hl1, length_app, length_replicate, length_drop; lia).
  all: try (intros p Hp'; unfold page_at; proj_simpl; rewrite Hp;
            apply arr_nth_replicate; lia).
  all: intros j Hj; unfold frame_at in *; proj_simpl;
       rewrite ?arr_set_set;
       rewrite arr_nth_set by (rewrite ?arr_set_length; lia);
       (case_decide; [by subst j|]);
       rewrite Hf; by rewrite decide_True by lia.
Qed.

Lemma init_tables_total pol s :
  Z.of_nat (length (pgt s)) = numpags s ->
  Z.of_nat (length (frt s)) = numframes s ->
  0 < numframes s <= INT_MAX ->
  exists s', init_tables pol s = Ret tt s'.
Proof.
  intros Hlp Hlf Hnf.
  assert (Hm : (0 <=? numpags s) && (numpags s <=? Z.of_nat (length (pgt s))) = true).
  { apply andb_true_iff. split; apply Z.leb_le; lia. }
  assert (Hv : INT_MIN <= numframes s - 1 <= INT_MAX) by (unfold INT_MIN, INT_MAX in *; lia).
  assert (Hloop : forall s0, length (frt s0) = length (frt s) ->
            exists r s1, init_loop (Z.to_nat (numframes s - 1)) 0 s0 = Ret r s1).
  { intros s0 Hl. apply init_loop_total; rewrite ?Hl; lia. }
  assert (Hfin : forall (i : Z) s1 s2, init_loop (Z.to_nat (numframes s - 1)) 0 s1 = Ret i s2 ->
            length (frt s1) = length (frt s) ->
            exists x y, frt_upd i (set_page (-1)) s2 = Ret tt (set_frt (arr_set (frt s2) i x) s2) /\
                        forall s3, frt s3 = arr_set (frt s2) i x ->
                        frt_upd i (set_next 0) s3 = Ret tt (set_frt (arr_set (frt s3) i y) s3)).
  { intros i s1 s2 Hi Hl. apply init_loop_spec in Hi as (-> & _ & (_ & _ & _ & _ & Hl2) & _).
    assert (Hr : 0 <= 0 + Z.of_nat (Z.to_nat (numframes s - 1)) < Z.of_nat (length (frt s2)))
      by (rewrite Hl2, Hl; lia).
    destruct (arr_get_is_Some _ _ Hr) as [x Hx].
    exists (set_page (-1) x), (set_next 0 (set_page (-1) x)). split.
    - by apply frt_upd_ok.
    - intros s3 H3. apply frt_upd_ok. rewrite H3. by apply arr_get_set_eq. }
  destruct pol; cbn [init_tables];
    unfold Fifo.init_tables, Random.init_tables, Fifo2ch.init_tables,
      Lru.init_tables, memset_pgt;
    unfold bind, rd, wr; rewrite Hm; proj_simpl; rewrite (int_val_ok _ _ Hv);
    match goal with |- context [init_loop ?k 0 ?s0] =>
      destruct (Hloop s0 eq_refl) as (r & s1 & Hr);
      destruct (Hfin _ _ _ Hr eq_refl) as (x & y & Hx & Hy);
      rewrite Hr, Hx, (Hy (set_frt (arr_set (frt s1) r x) s1) eq_refl) end;
    by eexists.
Qed.

Lemma init_post_wf pol s s' :
  Z.of_nat (length (pgt s)) = numpags s ->
  Z.of_nat (length (frt s)) = numframes s ->
  0 < numframes s ->
  init_post s s' -> wf_at pol s' 0.
Proof.
  intros Hlp Hlf Hnf ((Hsz & Hnp & Hnf' & Hl1 & Hl2) & _ & _ & _ & _ & _ & Hfree & Hocc & Hp & Hf).
  split; rewrite ?Hnp, ?Hnf', ?Hl1, ?Hl2; try done; try lia.
  - intros i Hi. rewrite Hf by lia. done.
  - intros p Hpr. rewrite Hp by done. done.
  - intros _ p Hpr. rewrite Hp by done. done.
  - unfold free_shape. rewrite Hnf', Hfree. rewrite decide_True by lia.
    split; [done|]. split.
    + rewrite Hf by lia. cbn. rewrite decide_True by done.
      (* with a single frame the ring closes on itself *)
      done.
    + intros i Hi. rewrite Hf by lia. cbn. by rewrite decide_False by lia.
  - unfold occupied_shape. destruct (uses_ring pol); [|done]. split; [done|lia].
Qed.

Lemma init_tables_wf pol s u s' :
  Z.of_nat (length (pgt s)) = numpags s ->
  Z.of_nat (length (frt s)) = numframes s ->
  0 < numframes s ->
  init_tables pol s = Ret u s' ->
  wf_at pol s' 0.
Proof. intros Hlp Hlf Hnf H. eapply init_post_wf; eauto using init_tables_spec. Qed.

(** ** The rings of a well-formed state *)

Section RingWalk.
Variable t : list sframe.
Variable anchor : Z.

Let nth_frame (i : Z) : sframe := arr_nth (mk_sframe (-1) (-1)) t i.

Lemma ring_walk_stop fuel :
  0 <= anchor < Z.of_nat (length t) ->
  ring_walk t anchor anchor (S fuel) = Some [anchor].
Proof.
  intros Hr. cbn [ring_walk].
  rewrite (arr_get_in_range (mk_sframe (-1) (-1)) _ _ Hr).
  by rewrite Z.eqb_refl.
Qed.

Lemma ring_walk_step cur fuel :
  0 <= cur < Z.of_nat (length t) -> cur <> anchor ->
  ring_walk t anchor cur (S fuel) =
  match ring_walk t anchor (next (nth_frame cur)) fuel with
  | Some l => Some (cur :: l)
  | None => None
  end.
Proof.
  intros Hr Hne. cbn [ring_walk].
  rewrite (arr_get_in_range (mk_sframe (-1) (-1)) _ _ Hr).
  destruct (Z.eqb_spec cur anchor); done.
Qed.

(** A stretch of [m] frames linked in increasing order, none of them the
    anchor. *)
Lemma ring_walk_chain (m : nat) a fuel :
  (forall i, a <= i < a + Z.of_nat m ->
     0 <= i < Z.of_nat (length t) /\ i <> anchor /\ next (nth_frame i) = i + 1) ->
  ring_walk t anchor a (m + fuel) =
  match ring_walk t anchor (a + Z.of_nat m) fuel with
  | Some l => Some (seqZ a (Z.of_nat m) ++ l)
  | None => None
  end.
Proof.
  revert a. induction m as [|m IH]; intros a H.
  - cbn [Nat.add]. replace (a + Z.of_nat 0) with a by lia.
    by destruct (ring_walk t anchor a fuel).
  - destruct (H a ltac:(lia)) as (Hr & Hne & Hn).
    cbn [Nat.add]. rewrite ring_walk_step by done. rewrite Hn.
    rewrite IH by (intros i Hi; apply H; lia).
    replace (a + 1 + Z.of_nat m) with (a + Z.of_nat (S m)) by lia.
    destruct (ring_walk t anchor _ fuel); [|done].
    rewrite (seqZ_cons a (Z.of_nat (S m))) by lia.
    by replace (Z.pred (Z.of_nat (S m))) with (Z.of_nat m) by lia.
Qed.
End RingWalk.

Lemma seqZ_one m : seqZ m 1 = [m].
Proof. unfold seqZ. cbn. f_equal; lia. Qed.

(** The free ring holds the frames not yet handed out, in order. *)
Lemma wf_free_ring pol s k :
  wf_at pol s k -> free_ring s = Some (seqZ k (numframes s - k)).
Proof.
  intros [_ Hfl Hnf Hk _ _ _ _ Hlf _]. unfold free_ring, ring, free_shape in *.
  case_decide as Hkn.
  - destruct Hlf as (-> & Hlast & Hch).
    destruct (Z.eqb_spec (numframes s - 1) (-1)); [lia|].
    rewrite (arr_get_in_range (mk_sframe (-1) (-1))) by lia.
    fold (frame_at s (numframes s - 1)). rewrite Hlast.
    replace (length (frt s)) with (Z.to_nat (numframes s - 1 - k) + S (Z.to_nat k))%nat by lia.
    rewrite ring_walk_chain.
    + replace (k + Z.of_nat (Z.to_nat (numframes s - 1 - k))) with (numframes s - 1) by lia.
      rewrite ring_walk_stop by lia.
      replace (numframes s - k) with (Z.of_nat (Z.to_nat (numframes s - 1 - k)) + 1) by lia.
      rewrite seqZ_app, seqZ_one by lia. do 3 f_equal. lia.
    + intros i Hi. split; [lia|]. split; [lia|]. apply Hch. lia.
  - rewrite Hlf. cbn. by rewrite seqZ_nil by lia.
Qed.

(** The occupied ring holds the frames handed out: from the frame after
    the anchor up to the last one, then from frame 0 up to the anchor. *)
Lemma wf_occupied_ring pol s k :
  wf_at pol s k -> uses_ring pol = true ->
  occupied_ring s =
  Some (if decide (k = 0) then []
        else seqZ (listoccupied s + 1) (k - 1 - listoccupied s) ++
             seqZ 0 (listoccupied s + 1)).
Proof.
  intros [_ Hfl Hnf Hk _ _ _ _ _ Hlo] Hu. unfold occupied_ring, ring, occupied_shape in *.
  rewrite Hu in Hlo. destruct Hlo as [H0 H1].
  case_decide as Hk0; [by rewrite H0|].
  destruct (H1 ltac:(lia)) as (Hlo & _ & Hlast & Hch).
  set (lo := listoccupied s) in *.
  destruct (Z.eqb_spec lo (-1)); [lia|].
  rewrite (arr_get_in_range (mk_sframe (-1) (-1))) by lia.
  fold (frame_at s lo).
  assert (Hstop : forall f, ring_walk (frt s) lo 0 (Z.to_nat lo + S f) =
                            Some (seqZ 0 (lo + 1))).
  { intros f. rewrite ring_walk_chain.
    - replace (0 + Z.of_nat (Z.to_nat lo)) with lo by lia.
      rewrite ring_walk_stop by lia.
      rewrite seqZ_app, seqZ_one by lia. do 3 f_equal; lia.
    - intros i Hi. split; [lia|]. split; [lia|]. apply Hch. lia. }
  destruct (decide (lo = k - 1)) as [Hl|Hl].
  - assert (Hn : next (frame_at s lo) = 0) by (by rewrite Hl).
    rewrite Hn.
    replace (length (frt s)) with (Z.to_nat lo + S (Z.to_nat (numframes s - lo - 1)))%nat by lia.
    rewrite Hstop. by rewrite (seqZ_nil _ (k - 1 - lo)) by lia.
  - rewrite Hch by lia.
    replace (length (frt s))
      with (Z.to_nat (k - 2 - lo) + S (Z.to_nat lo + S (Z.to_nat (numframes s - k))))%nat
      by lia.
    rewrite ring_walk_chain.
    + replace (lo + 1 + Z.of_nat (Z.to_nat (k - 2 - lo))) with (k - 1) by lia.
      rewrite ring_walk_step by lia. fold (frame_at s (k - 1)). rewrite Hlast, Hstop.
      f_equal. replace (k - 1 - lo) with (Z.of_nat (Z.to_nat (k - 2 - lo)) + 1) by lia.
      rewrite (seqZ_app (lo + 1)), seqZ_one by lia. rewrite <- app_assoc. cbn.
      do 2 f_equal. lia.
    + intros i Hi. split; [lia|]. split; [lia|]. apply Hch. lia.
Qed.

(** In the variants that link the occupied frames, the rings of a
    well-formed state partition the frames. *)
Lemma wf_ring_partition pol s :
  uses_ring pol = true -> wf pol s -> ring_partition s.
Proof.
  intros Hu [k Hwf]. unfold ring_partition.
  rewrite (wf_free_ring _ _ _ Hwf), (wf_occupied_ring _ _ _ Hwf Hu).
  eexists _, _. split; [done|]. split; [done|].
  pose proof (occupied_shape_anchor _ _ _ (wf_lo _ _ _ _ Hwf)) as Ha.
  destruct Hwf as [_ _ Hnf Hk _ _ _ _ _ Hlo].
  unfold occupied_shape in Hlo. rewrite Hu in Hlo. destruct Hlo as [H0 H1].
  specialize (Ha ltac:(lia)).
  case_decide as Hk0.
  - subst k. rewrite app_nil_r. split; [apply NoDup_seqZ|].
    intros i. rewrite elem_of_seqZ. lia.
  - destruct (H1 ltac:(lia)) as (Hlor & _).
    split.
    + rewrite !NoDup_app. repeat split; try apply NoDup_seqZ.
      * intros i. rewrite elem_of_app, !elem_of_seqZ. lia.
      * intros i. rewrite !elem_of_seqZ. lia.
    + intros i. rewrite !elem_of_app, !elem_of_seqZ. lia.
Qed.

(** ** Runs *)

Lemma run_wf pol tr s l s' :
  wf pol s -> run pol tr s = Ret l s' -> wf pol s'.
Proof.
  revert s l s'. induction tr as [|[[raw va] op] tr IH]; intros s l s' Hwf H; cbn [run] in H.
  - by sim_inv_line.
  - sim_inv_line.
    match goal with H : sim_mmu _ _ _ _ _ = Ret _ _ |- _ =>
      apply (sim_mmu_wf _ _ _ _ _ _ _ Hwf) in H end.
    match goal with H : run _ _ _ = Ret _ _ |- _ => by apply IH in H end.
Qed.

Lemma init_run_wf pol tr s0 l s :
  sizes_ok s0 -> (init_tables pol ;; run pol tr) s0 = Ret l s -> wf pol s.
Proof.
  intros (Hp & Hf & Hn) H. sim_inv_step.
  match goal with H : init_tables _ _ = Ret _ _ |- _ =>
    apply init_tables_wf in H; [|done..] end.
  eapply run_wf; [|done]. by eexists.
Qed.

(** The free ring of a well-formed state holds exactly the frames that
    hold no page. *)
Lemma wf_free_ring_unoccupied pol s :
  wf pol s ->
  exists fl, free_ring s = Some fl /\ NoDup fl /\
    forall i, i ∈ fl <-> 0 <= i < numframes s /\ page (frame_at s i) = -1.
Proof.
  intros [k Hwf]. rewrite (wf_free_ring _ _ _ Hwf). eexists. split; [done|].
  split; [apply NoDup_seqZ|]. intros i. rewrite elem_of_seqZ.
  destruct Hwf as [_ _ _ Hk Hocc Hun _ _ _ _]. split.
  - intros Hi. split; [lia|]. apply Hun. lia.
  - intros [Hi Hp]. destruct (decide (i < k)) as [Hik|]; [|lia].
    destruct (Hocc i ltac:(lia)) as (? & _). lia.
Qed.

(** C1 (amended): after init_tables and after every sim_mmu call, the free
    ring holds exactly the frames that hold no page, in every variant; in
    the FIFO and second-chance variants the two rings are disjoint and
    together hold every frame index in [0, numframes); in the random and
    LRU variants occupy_free_frame links nothing and the occupied ring
    stays empty. *)
Theorem ring_partition_invariant pol tr s0 l s :
  sizes_ok s0 ->
  (init_tables pol ;; run pol tr) s0 = Ret l s ->
  (exists fl, free_ring s = Some fl /\ NoDup fl /\
     forall i, i ∈ fl <-> 0 <= i < numframes s /\ page (frame_at s i) = -1) /\
  (pol = FIFO \/ pol = FIFO2CH -> ring_partition s) /\
  (pol = RANDOM \/ pol = LRU -> occupied_ring s = Some []).
Proof.
  intros Hs H. pose proof (init_run_wf _ _ _ _ _ Hs H) as Hwf.
  split; [by eapply wf_free_ring_unoccupied|]. split.
  - intros Hp. apply (wf_ring_partition pol); [|done]. by destruct Hp as [->| ->].
  - intros Hp. destruct Hwf as [k [_ _ _ _ _ _ _ _ _ Hlo]].
    unfold occupied_shape in Hlo.
    assert (Hu : uses_ring pol = false) by (by destruct Hp as [->| ->]).
    rewrite Hu in Hlo. unfold occupied_ring, ring. by rewrite Hlo.
Qed.

Lemma ring_partition_invariant_witness :
  exists l s,
    (init_tables FIFO ;; run FIFO [Rd 0; Wr 4096; Rd 8192; Rd 12288; Rd 100])
      (blank 4096 5 3) = Ret l s /\
    ring_partition s.
Proof.
  eexists _, _. split; [vm_compute; reflexivity|].
  eapply (ring_partition_invariant FIFO
            [Rd 0; Wr 4096; Rd 8192; Rd 12288; Rd 100] (blank 4096 5 3)).
  - unfold sizes_ok. vm_compute. repeat split; reflexivity.
  - vm_compute. reflexivity.
  - by left.
Defined.

(** C1 as stated fails in the random variant: after one reference, frame 0
    has left the free ring and is in no ring at all. *)
Lemma ring_partition_random_counterexample :
  exists l s,
    (init_tables RANDOM ;; run RANDOM [Rd 0]) (blank 4096 2 2) = Ret l s /\
    free_ring s = Some [1] /\ occupied_ring s = Some [] /\
    page (frame_at s 0) = 0 /\
    ~ ring_partition s.
Proof.
  eexists _, _. split; [vm_compute; reflexivity|].
  split; [reflexivity|]. split; [reflexivity|]. split; [reflexivity|].
  intros (fl & ol & Hf & Ho & _ & Hall).
  vm_compute in Hf, Ho. injection Hf as <-. injection Ho as <-.
  destruct (Hall 0) as [_ H0]. cbn in H0.
  specialize (H0 ltac:(lia)). apply list_elem_of_singleton in H0. lia.
Qed.

(** ** Allocation of a free frame *)


(** The LRU occupy_free_frame relies on its caller for the modified bit:
    on a state no run reaches, where an absent page's descriptor has the
    bit set while a frame is free, it returns with the page present in
    frame 0, the frame holding the page, and the page still modified; the
    FIFO, random and second-chance variants clear the bit on the same
    input. *)
Remark occupy_free_frame_lru_keeps_modified :
  (exists s',
     occupy_free_frame LRU 0 0 stale_modified_system = Ret tt s' /\
     present (page_at s' 0) = true /\ frame (page_at s' 0) = 0 /\
     page (frame_at s' 0) = 0 /\ modified (page_at s' 0) = true) /\
  (forall pol, pol <> LRU ->
     exists s',
       occupy_free_frame pol 0 0 stale_modified_system = Ret tt s' /\
       present (page_at s' 0) = true /\ frame (page_at s' 0) = 0 /\
       page (frame_at s' 0) = 0 /\ modified (page_at s' 0) = false).
Proof.
  split.
  - eexists. split; [vm_compute; reflexivity|]. by vm_compute.
  - intros pol Hp. destruct pol; try done;
      (eexists; split; [vm_compute; reflexivity|]; by vm_compute).
Qed.

(** ** Illegal references *)

Lemma page_of_illegal s va :
  is_unsigned va -> to_unsigned (pagsz s) <> 0 ->
  numpags s <= va / to_unsigned (pagsz s) ->
  ~ (0 <= page_of s va < numpags s).
Proof.
  intros [Hv0 Hv1] Hsz Hq. unfold page_of, to_int.
  assert (Hu : 0 < to_unsigned (pagsz s)).
  { unfold to_unsigned, UINT_MOD in *.
    pose proof (Z.mod_pos_bound (pagsz s) (2 ^ 32) ltac:(lia)). lia. }
  assert (Hq0 : 0 <= va / to_unsigned (pagsz s) < UINT_MOD).
  { split; [apply Z.div_pos; lia|].
    apply Z.div_lt_upper_bound; [lia|]. unfold UINT_MOD in *. nia. }
  rewrite Z.mod_small by done.
  destruct (Z.leb_spec (va / to_unsigned (pagsz s)) INT_MAX); unfold INT_MAX, UINT_MOD in *; lia.
Qed.

(** C8: a reference whose page number, [virtual_addr / pagsz], is not
    below [numpags] increments numillegalrefs and returns [~0U]; the fault
    handler is not invoked and every other field of the state (tables,
    rings, counters) is as before.  The hypotheses are those under which
    the C code has defined behaviour: the page size is not zero and the
    counter is below INT_MAX. *)
Theorem illegal_reference_law pol raw va op s :
  is_unsigned va ->
  to_unsigned (pagsz s) <> 0 ->
  numpags s <= va / to_unsigned (pagsz s) ->
  INT_MIN <= numillegalrefs s < INT_MAX ->
  sim_mmu pol raw va op s =
  Ret INVALID_ADDR (set_numillegalrefs (numillegalrefs s + 1) s).
Proof.
  intros Hva Hsz Hq Hc.
  rewrite sim_mmu_illegal by (by try apply page_of_illegal).
  unfold bind. rewrite incr_ok by lia. done.
Qed.

Lemma illegal_reference_law_witness :
  sim_mmu FIFO 0 20480 "R" (blank 4096 4 3) =
  Ret INVALID_ADDR (set_numillegalrefs 1 (blank 4096 4 3)).
Proof.
  apply (illegal_reference_law FIFO 0 20480 "R" (blank 4096 4 3)).
  - unfold is_unsigned. vm_compute. split; [discriminate | reflexivity].
  - vm_compute. discriminate.
  - vm_compute. discriminate.
  - vm_compute. split; [discriminate | reflexivity].
Defined.

(** ** LRU victim selection *)

Lemma lru_scan_step k i fr s :
  frames_hold_pages s ->
  0 <= i < numframes s ->
  (fr = -1 \/ 0 <= fr < numframes s) ->
  Lru.scan (S k) i fr s =
  let fr1 := if fr =? -1 then i else fr in
  Lru.scan k (i + 1)
    (if frame_ts s i <? frame_ts s fr1 then i else fr1) s.
Proof.
  intros [Hl Hp] Hi Hfr. cbn [Lru.scan]. cbv zeta.
  set (fr1 := if fr =? -1 then i else fr).
  assert (Hfr1 : 0 <= fr1 < numframes s).
  { unfold fr1. destruct (Z.eqb_spec fr (-1)); lia. }
  set (d := mk_sframe (-1) (-1)).
  assert (Ha : arr_get (frt s) i = Some (frame_at s i))
    by (apply (arr_get_in_range d); lia).
  assert (Hb : arr_get (frt s) fr1 = Some (frame_at s fr1))
    by (apply (arr_get_in_range d); lia).
  assert (Hpa : arr_get (pgt s) (page (frame_at s i)) =
                Some (page_at s (page (frame_at s i))))
    by (apply (arr_get_in_range zero_page); by apply Hp).
  assert (Hpb : arr_get (pgt s) (page (frame_at s fr1)) =
                Some (page_at s (page (frame_at s fr1))))
    by (apply (arr_get_in_range zero_page); by apply Hp).
  rewrite (bind_intro _ _ _ _ _ (frt_at_ok _ _ _ Ha)).
  rewrite (bind_intro _ _ _ _ _ (pgt_at_ok _ _ _ Hpa)).
  rewrite (bind_intro _ _ _ _ _ (frt_at_ok _ _ _ Hb)).
  rewrite (bind_intro _ _ _ _ _ (pgt_at_ok _ _ _ Hpb)).
  done.
Qed.

Lemma lru_scan_first_min k i fr s :
  frames_hold_pages s ->
  0 <= i -> i + Z.of_nat k <= numframes s ->
  (i = 0 /\ fr = -1) \/ first_min s i fr ->
  k <> O \/ 0 < i ->
  exists fr', Lru.scan k i fr s = Ret fr' s /\ first_min s (i + Z.of_nat k) fr'.
Proof.
  revert i fr. induction k as [|k IH]; intros i fr Hh Hi Hk Hinv Hne.
  - destruct Hinv as [[-> _]|Hm]; [lia|]. exists fr. split; [done|].
    by replace (i + Z.of_nat 0) with i by lia.
  - rewrite lru_scan_step; [|done|lia|].
    2:{ destruct Hinv as [[_ ->]|[? _]]; [by left | right; lia]. }
    cbv zeta.
    replace (i + Z.of_nat (S k)) with (i + 1 + Z.of_nat k) by lia.
    apply IH; [done | lia | lia | | right; lia].
    right. destruct Hinv as [[-> ->]|[Hr Hm]].
    + change (-1 =? -1) with true. cbv iota. rewrite Z.ltb_irrefl. split; [lia|].
      intros j Hj. assert (j = 0) as -> by lia. split; [lia | done].
    + destruct (Z.eqb_spec fr (-1)); [lia|].
      destruct (Z.ltb_spec (frame_ts s i) (frame_ts s fr)) as [Hlt|Hge].
      * split; [lia|]. intros j Hj. destruct (decide (j = i)) as [->|].
        -- split; [lia | done].
        -- destruct (Hm j ltac:(lia)) as [? ?]. split; lia.
      * split; [lia|]. intros j Hj. destruct (decide (j = i)) as [->|].
        -- split; [lia | lia].
        -- by apply Hm; lia.
Qed.

(** C6: with every frame occupied, the LRU choose_page_to_be_replaced
    returns, without changing the state, the page of the frame whose
    resident page has the minimal timestamp over all the frames, and among
    the frames of minimal timestamp the one of lowest index. *)
Theorem lru_victim_selection s :
  frames_hold_pages s -> 0 < numframes s ->
  exists fr,
    Lru.choose_page_to_be_replaced s = Ret (page (frame_at s fr)) s /\
    0 <= fr < numframes s /\
    forall j, 0 <= j < numframes s ->
      timestamp (page_at s (page (frame_at s fr))) <=
      timestamp (page_at s (page (frame_at s j))) /\
      (timestamp (page_at s (page (frame_at s j))) =
       timestamp (page_at s (page (frame_at s fr))) -> fr <= j).
Proof.
  intros Hh Hn.
  destruct (lru_scan_first_min (Z.to_nat (numframes s)) 0 (-1) s Hh)
    as (fr & Hs & Hr & Hm); [lia | lia | by left | left; lia |].
  replace (0 + Z.of_nat (Z.to_nat (numframes s))) with (numframes s) in * by lia.
  exists fr. split; [|done].
  unfold Lru.choose_page_to_be_replaced, bind, rd. rewrite Hs.
  destruct Hh as [Hl _].
  rewrite (frt_at_ok _ _ (frame_at s fr)); [done|].
  apply (arr_get_in_range (mk_sframe (-1) (-1))). lia.
Qed.

Lemma lru_victim_selection_witness :
  exists fr,
    Lru.choose_page_to_be_replaced lru_full_state =
      Ret (page (frame_at lru_full_state fr)) lru_full_state /\
    0 <= fr < numframes lru_full_state /\
    forall j, 0 <= j < numframes lru_full_state ->
      timestamp (page_at lru_full_state (page (frame_at lru_full_state fr))) <=
      timestamp (page_at lru_full_state (page (frame_at lru_full_state j))) /\
      (timestamp (page_at lru_full_state (page (frame_at lru_full_state j))) =
       timestamp (page_at lru_full_state (page (frame_at lru_full_state fr))) ->
       fr <= j).
Proof.
  apply (lru_victim_selection lru_full_state).
  - split; [reflexivity|]. intros i Hi. change (numframes lru_full_state) with 2 in Hi.
    assert (Hc : i = 0 \/ i = 1) by lia.
    destruct Hc as [-> | ->]; vm_compute; split; congruence.
  - reflexivity.
Defined.

(** ** Termination of the second-chance walk *)

(** *** The fuel of the model is enough in every state *)

Lemma count_ref_le t : (count_ref t <= length t)%nat.
Proof. unfold count_ref. apply length_filter. Qed.

Lemma count_ref_pardon t i d :
  arr_get t i = Some d -> referenced d = true ->
  S (count_ref (arr_set t i (set_referenced false d))) = count_ref t.
Proof.
  unfold arr_get, arr_set, count_ref. destruct (0 <=? i); [|done]. intros Hd Hr.
  pose proof (lookup_lt_Some _ _ _ Hd) as Hlt.
  rewrite <- (take_drop_middle _ _ _ Hd) at 2.
  rewrite insert_take_drop by done.
  rewrite !filter_app, !filter_cons, !length_app.
  destruct (decide (referenced d = true)); [|done].
  destruct (decide (referenced (set_referenced false d) = true)) as [Hs|_];
    [cbn in Hs; congruence|].
  cbn [length]. lia.
Qed.

Lemma bind_not_timeout {A B : Type} (m : M A) (k : A -> M B) s :
  m s <> Timeout ->
  (forall a s1, m s = Ret a s1 -> k a s1 <> Timeout) ->
  bind m k s <> Timeout.
Proof. unfold bind. intros Hm Hk. destruct (m s); [by apply Hk | done | done]. Qed.

Lemma frt_at_not_timeout i s : frt_at i s <> Timeout.
Proof. unfold frt_at. destruct (arr_get (frt s) i); congruence. Qed.

Lemma pgt_at_not_timeout i s : pgt_at i s <> Timeout.
Proof. unfold pgt_at. destruct (arr_get (pgt s) i); congruence. Qed.

Lemma choose_loop_fuel_enough fuel s :
  (count_ref (pgt s) < fuel)%nat -> Fifo2ch.choose_loop fuel s <> Timeout.
Proof.
  revert s. induction fuel as [|fuel IH]; intros s Hc; [lia|].
  cbn [Fifo2ch.choose_loop].
  apply bind_not_timeout; [done|]. intros lo s1 [-> ->]%rd_Ret.
  apply bind_not_timeout; [apply frt_at_not_timeout|].
  intros x s1 [-> Hx]%frt_at_Ret.
  apply bind_not_timeout; [apply frt_at_not_timeout|].
  intros y s1 [-> Hy]%frt_at_Ret.
  apply bind_not_timeout; [apply pgt_at_not_timeout|].
  intros d s1 [-> Hd]%pgt_at_Ret.
  destruct (referenced d) eqn:Hr; [|done].
  apply bind_not_timeout.
  { rewrite (pgt_upd_ok _ _ _ _ Hd). done. }
  intros u s1 (d' & Hd' & ->)%pgt_upd_Ret.
  apply bind_not_timeout; [done|]. intros u' s1 ->%wr_Ret.
  apply IH. proj_simpl.
  assert (d' = d) as -> by congruence.
  pose proof (count_ref_pardon _ _ _ Hd Hr). lia.
Qed.

(** The result of the walk does not depend on the fuel, once there is
    enough of it. *)
Lemma choose_loop_fuel_indep f1 f2 s v s' :
  Fifo2ch.choose_loop f1 s = Ret v s' ->
  Fifo2ch.choose_loop f2 s = Ret v s' \/ Fifo2ch.choose_loop f2 s = Timeout.
Proof.
  revert f2 s. induction f1 as [|f1 IH]; intros f2 s H; [done|].
  destruct f2 as [|f2]; [right; reflexivity|].
  pose proof (choose_loop_Ret_walk_ok _ _ _ _ H) as Hok.
  rewrite (choose_loop_step f1 _ Hok) in H. rewrite (choose_loop_step f2 _ Hok).
  revert H. destruct (referenced _); cbv iota; intros H; [by apply IH | by left].
Qed.

Lemma choose_loop_enough_fuel f s v s' :
  Fifo2ch.choose_loop f s = Ret v s' ->
  Fifo2ch.choose_page_to_be_replaced s = Ret v s'.
Proof.
  intros H. unfold Fifo2ch.choose_page_to_be_replaced, bind, rd.
  destruct (choose_loop_fuel_indep _ (S (length (pgt s))) _ _ _ H) as [?|Ht]; [done|].
  apply choose_loop_fuel_enough in Ht; [done|].
  pose proof (count_ref_le (pgt s)). lia.
Qed.

Lemma choose_loop_mono f k s v s' :
  Fifo2ch.choose_loop f s = Ret v s' ->
  Fifo2ch.choose_loop (f + k) s = Ret v s'.
Proof.
  revert s. induction f as [|f IH]; intros s H; [done|].
  pose proof (choose_loop_Ret_walk_ok _ _ _ _ H) as Hok.
  cbn [Nat.add]. rewrite (choose_loop_step f _ Hok) in H.
  rewrite (choose_loop_step (f + k) _ Hok).
  revert H. destruct (referenced _); cbv iota; intros H; [by apply IH | done].
Qed.

(** *** One sweep of the ring is enough *)

Lemma is_path_snoc t cur l f :
  is_path t cur l -> f = path_end t cur l -> 0 <= f < Z.of_nat (length t) ->
  is_path t cur (l ++ [f]).
Proof.
  revert cur. induction l as [|x l IH]; intros cur Hp Hf Hr;
    cbn [is_path path_end app] in *.
  - subst. done.
  - destruct Hp as (-> & ? & Hp). split; [done|]. split; [done|]. by apply IH.
Qed.

Lemma ring_walk_path t anchor cur fuel l :
  ring_walk t anchor cur fuel = Some l ->
  is_path t cur l /\
  path_end t cur l = next (arr_nth (mk_sframe (-1) (-1)) t anchor) /\
  0 <= anchor < Z.of_nat (length t) /\
  (0 < length l <= fuel)%nat.
Proof.
  revert cur l. induction fuel as [|fuel IH]; intros cur l H; cbn [ring_walk] in H; [done|].
  destruct (arr_get t cur) as [x|] eqn:Hx; [|done].
  pose proof (arr_get_Some _ _ _ Hx) as Hr.
  apply (arr_get_nth (mk_sframe (-1) (-1))) in Hx. subst x.
  destruct (Z.eqb_spec cur anchor) as [->|Hne].
  - injection H as <-. cbn [is_path path_end length].
    split; [done|]. split; [done|]. split; [done|]. lia.
  - destruct (ring_walk t anchor _ fuel) as [l'|] eqn:Hw; [|done].
    injection H as <-. apply IH in Hw as (Hp & He & Ha & Hl).
    cbn [is_path path_end length].
    split; [done|]. split; [done|]. split; [done|]. lia.
Qed.

Lemma pardoned_refl s : pardoned s s.
Proof. unfold pardoned, same_cfg, same_counters. repeat split; try done. by left. Qed.

Lemma pardoned_pardon s :
  walk_ok s -> referenced (page_at s (candidate s)) = true ->
  pardoned s (pardon s).
Proof.
  intros (_ & _ & Hc) Hr. unfold pardoned, same_cfg, same_counters, pardon.
  proj_simpl. rewrite arr_set_length. repeat split; try done.
  intros q. unfold page_at. proj_simpl. rewrite arr_nth_set by done.
  case_decide; [subst q; by right | by left].
Qed.

Lemma pardoned_trans s1 s2 s3 :
  pardoned s1 s2 -> pardoned s2 s3 -> pardoned s1 s3.
Proof.
  intros (? & ? & (? & ? & ? & ? & ?) & (? & ? & ? & ? & ? & ?) & ? & Hq1)
         (? & ? & (? & ? & ? & ? & ?) & (? & ? & ? & ? & ? & ?) & ? & Hq2).
  unfold pardoned, same_cfg, same_counters. repeat split; try congruence.
  intros q. destruct (Hq2 q) as [->|[Hr ->]]; [apply Hq1|].
  destruct (Hq1 q) as [Hq|[Hr1 Hq]]; rewrite Hq in *; [by right|].
  cbn in Hr. congruence.
Qed.

(** The walk along a chain that holds a frame whose page is not
    referenced stops within the chain. *)
Lemma choose_loop_along_path l s :
  is_path (frt s) (head_frame s) l ->
  0 <= listoccupied s < Z.of_nat (length (frt s)) ->
  (forall f, f ∈ l -> 0 <= page (frame_at s f) < Z.of_nat (length (pgt s))) ->
  (exists f, f ∈ l /\ referenced (page_at s (page (frame_at s f))) = false) ->
  exists victim s',
    Fifo2ch.choose_loop (length l) s = Ret victim s' /\
    pardoned s s' /\ referenced (page_at s' victim) = false /\
    exists f, f ∈ l /\ victim = page (frame_at s f).
Proof.
  revert s. induction l as [|f l IH]; intros s Hp Hlo Hpg (f0 & Hf0 & Hc).
  - by apply elem_of_nil in Hf0.
  - cbn [is_path] in Hp. destruct Hp as (-> & Hh & Hp).
    assert (Hok : walk_ok s).
    { split; [done|]. split; [done|]. apply Hpg. by left. }
    cbn [length]. rewrite (choose_loop_step _ _ Hok).
    destruct (referenced (page_at s (candidate s))) eqn:Hr.
    + pose proof (pardoned_pardon _ Hok Hr) as Hpar.
      destruct Hpar as (Hfrt & Hlen & Hcfg & Hcnt & Hlf & Hq).
      assert (Hfa : forall i, frame_at (pardon s) i = frame_at s i)
        by (intros i; unfold frame_at; by rewrite Hfrt).
      destruct (IH (pardon s)) as (v & s' & Hloop & Hpar' & Hv & f1 & Hf1 & Hvf).
      * unfold head_frame at 1. rewrite Hfrt. change (listoccupied (pardon s)) with (head_frame s).
        done.
      * rewrite Hfrt. change (listoccupied (pardon s)) with (head_frame s). done.
      * intros f Hf. rewrite Hfa, Hlen. apply Hpg. by right.
      * exists f0. apply elem_of_cons in Hf0 as [->|Hin].
        { unfold candidate in Hr. congruence. }
        split; [done|]. rewrite Hfa.
        destruct (Hq (page (frame_at s f0))) as [->|[_ ->]]; done.
      * exists v, s'. split; [done|]. split.
        { eapply pardoned_trans; [|exact Hpar']. by apply pardoned_pardon. }
        split; [done|]. exists f1. split; [by right|]. by rewrite <- Hfa.
    + exists (candidate s), s. split; [done|]. split; [apply pardoned_refl|].
      split; [done|]. exists (head_frame s). split; [by left | done].
Qed.

(** One turn of the ring and one step more are enough for the walk: it
    finds a page whose referenced bit is clear, or it has cleared them all
    and is back at the first frame. *)
Lemma choose_loop_ring s ol :
  occupied_ring s = Some ol -> ol <> [] ->
  (forall f, f ∈ ol -> 0 <= page (frame_at s f) < Z.of_nat (length (pgt s))) ->
  exists victim s',
    Fifo2ch.choose_loop (S (length ol)) s = Ret victim s' /\
    pardoned s s' /\
    referenced (page_at s' victim) = false /\
    exists f, f ∈ ol /\ victim = page (frame_at s f).
Proof.
  intros Hring Hne Hpg. unfold occupied_ring, ring in Hring.
  destruct (Z.eqb_spec (listoccupied s) (-1)) as [|_]; [congruence|].
  destruct (arr_get (frt s) (listoccupied s)) as [a|] eqn:Ha; [|done].
  apply (arr_get_nth (mk_sframe (-1) (-1))) in Ha. subst a.
  apply ring_walk_path in Hring as (Hp & He & Hlo & Hlen).
  fold (frame_at s (listoccupied s)) in *. fold (head_frame s) in *.
  destruct (decide (Exists
    (fun f => referenced (page_at s (page (frame_at s f))) = false) ol)) as [Hex|Hall].
  - apply Exists_exists in Hex.
    destruct (choose_loop_along_path ol s Hp Hlo Hpg Hex) as (v & s' & Hl & Hrest).
    exists v, s'. split; [|done].
    apply (choose_loop_mono _ 1) in Hl. by rewrite Nat.add_1_r in Hl.
  - destruct ol as [|f1 rest]; [done|].
    cbn [is_path path_end] in Hp, He. destruct Hp as (-> & Hh & Hp).
    assert (Hok : walk_ok s).
    { split; [done|]. split; [done|]. apply Hpg. by left. }
    assert (Hr : referenced (page_at s (candidate s)) = true).
    { destruct (referenced (page_at s (candidate s))) eqn:Hr; [done|].
      exfalso. apply Hall. apply Exists_cons. by left. }
    rewrite (choose_loop_step _ _ Hok), Hr.
    pose proof (pardoned_pardon _ Hok Hr) as Hpar.
    pose proof Hpar as (Hfrt & Hlp & _ & _ & _ & Hq).
    assert (Hfa : forall i, frame_at (pardon s) i = frame_at s i)
      by (intros i; unfold frame_at; by rewrite Hfrt).
    destruct (choose_loop_along_path (rest ++ [head_frame s]) (pardon s))
      as (v & s' & Hl & Hpar' & Hv & f & Hf & Hvf).
    + unfold head_frame at 1. rewrite Hfrt.
      change (listoccupied (pardon s)) with (head_frame s).
      by apply is_path_snoc.
    + rewrite Hfrt. change (listoccupied (pardon s)) with (head_frame s). done.
    + intros f Hf. rewrite Hfa, Hlp. apply Hpg.
      apply elem_of_app in Hf as [Hf|Hf%list_elem_of_singleton];
        [by right | subst; by left].
    + exists (head_frame s). split; [apply elem_of_app; right; by left|].
      rewrite Hfa. fold (candidate s). unfold page_at, pardon. proj_simpl.
      destruct Hok as (_ & _ & Hc). by rewrite arr_nth_set_eq.
    + rewrite length_app, Nat.add_1_r in Hl. cbn [length].
      exists v, s'. split; [done|]. split; [by eapply pardoned_trans|].
      split; [done|]. exists f. split; [|by rewrite <- Hfa].
      apply elem_of_app in Hf as [Hf|Hf%list_elem_of_singleton];
        [by right | subst; by left].
Qed.

(** C4: in the second-chance variant, when the occupied ring is well
    formed and not empty and its frames hold pages of the page table (as
    they do when the fault handler asks for a victim, the ring then
    holding every frame), choose_page_to_be_replaced returns.  The walk
    inspects at most one frame more than the ring holds: every page it
    pardons has its referenced bit cleared, nothing else changes in the
    page table, and the victim, the page of a frame of the ring, has its
    referenced bit clear. *)
Theorem second_chance_terminates s ol :
  occupied_ring s = Some ol -> ol <> [] ->
  (forall f, f ∈ ol -> 0 <= page (frame_at s f) < Z.of_nat (length (pgt s))) ->
  exists victim s',
    Fifo2ch.choose_page_to_be_replaced s = Ret victim s' /\
    Fifo2ch.choose_loop (S (length ol)) s = Ret victim s' /\
    pardoned s s' /\
    referenced (page_at s' victim) = false /\
    exists f, f ∈ ol /\ victim = page (frame_at s f).
Proof.
  intros Hring Hne Hpg.
  destruct (choose_loop_ring s ol Hring Hne Hpg) as (v & s' & Hl & Hrest).
  exists v, s'. split; [by eapply choose_loop_enough_fuel|]. done.
Qed.

Lemma second_chance_terminates_witness :
  exists victim s',
    Fifo2ch.choose_page_to_be_replaced fifo2ch_full_state = Ret victim s' /\
    Fifo2ch.choose_loop 3 fifo2ch_full_state = Ret victim s' /\
    pardoned fifo2ch_full_state s' /\
    referenced (page_at s' victim) = false /\
    exists f, f ∈ [0; 1] /\ victim = page (frame_at fifo2ch_full_state f).
Proof.
  apply (second_chance_terminates fifo2ch_full_state [0; 1]).
  - reflexivity.
  - discriminate.
  - intros f Hf. apply elem_of_cons in Hf as [->|Hf]; [by vm_compute|].
    apply elem_of_cons in Hf as [->|Hf]; [by vm_compute|].
    by apply elem_of_nil in Hf.
Defined.

(** ** Defined behaviour: the functions return *)

Lemma returns_eq {A : Type} (m : M A) s a s' : m s = Ret a s' -> returns m s.
Proof. intros H. by exists a, s'. Qed.

Lemma returns_bind {A B : Type} (m : M A) (k : A -> M B) s a s1 :
  m s = Ret a s1 -> returns (k a) s1 -> returns (bind m k) s.
Proof. intros Hm (b & s2 & Hk). exists b, s2. by rewrite (bind_intro _ _ _ _ _ Hm). Qed.

Lemma returns_bind_assoc {A B C : Type} (m : M A) (k : A -> M B) (k' : B -> M C) s :
  returns (bind m (fun a => bind (k a) k')) s -> returns (bind (bind m k) k') s.
Proof. unfold returns, bind. by destruct (m s). Qed.

Lemma returns_tail {A : Type} (m : M unit) (k : unit -> M A) s :
  returns m s -> (forall u s1, m s = Ret u s1 -> returns (k u) s1) ->
  returns (bind m k) s.
Proof. intros (u & s1 & Hm) Hk. eapply returns_bind; [exact Hm|]. by eapply Hk. Qed.

(** One step of a forward execution. *)
Ltac in_range := proj_simpl; rewrite ?arr_set_length; lia.

Ltac fwd_step :=
  match goal with
  | |- returns (bind (bind _ _) _) _ => apply returns_bind_assoc
  | |- returns (bind (rd _) _) _ => eapply returns_bind; [reflexivity|]; cbv beta
  | |- returns (bind (wr _ _) _) _ => eapply returns_bind; [reflexivity|]; cbv beta
  | |- returns (bind (ret _) _) _ => eapply returns_bind; [reflexivity|]; cbv beta
  | |- returns (bind (incr _ _) _) _ =>
      eapply returns_bind; [apply incr_ok; unfold counter_ok in *; in_range|]; cbv beta
  | |- returns (bind (int_val _) _) _ =>
      eapply returns_bind; [apply int_val_ok|]; cbv beta
  | |- returns (bind (pgt_at _) _) _ =>
      eapply returns_bind;
      [apply pgt_at_ok, (arr_get_in_range zero_page); in_range|]; cbv beta
  | |- returns (bind (frt_at _) _) _ =>
      eapply returns_bind;
      [apply frt_at_ok, (arr_get_in_range (mk_sframe (-1) (-1))); in_range|]; cbv beta
  | |- returns (bind (pgt_upd _ _) _) _ =>
      eapply returns_bind;
      [apply pgt_upd_ok, (arr_get_in_range zero_page); in_range|]; cbv beta
  | |- returns (bind (frt_upd _ _) _) _ =>
      eapply returns_bind;
      [apply frt_upd_ok, (arr_get_in_range (mk_sframe (-1) (-1))); in_range|]; cbv beta
  | |- returns (ret _) _ => eapply returns_eq; reflexivity
  | |- returns (wr _ _) _ => eapply returns_eq; reflexivity
  | |- returns (incr _ _) _ =>
      eapply returns_eq; apply incr_ok; unfold counter_ok in *; in_range
  | |- returns (pgt_upd _ _) _ =>
      eapply returns_eq; apply pgt_upd_ok, (arr_get_in_range zero_page); in_range
  | |- returns (frt_upd _ _) _ =>
      eapply returns_eq;
      apply frt_upd_ok, (arr_get_in_range (mk_sframe (-1) (-1))); in_range
  end.

Ltac fwd := repeat (fwd_step; proj_simpl).

Lemma reference_page_total pol pg op s :
  0 <= pg < Z.of_nat (length (pgt s)) ->
  counter_ok (numrefsread s) -> counter_ok (numrefswrite s) ->
  returns (reference_page pol pg op) s.
Proof.
  intros Hpg Hr Hw.
  destruct pol; cbn [reference_page];
    unfold Fifo.reference_page, Random.reference_page,
      Fifo2ch.reference_page, Lru.reference_page;
    destruct (Ascii.eqb op "R"); [|destruct (Ascii.eqb op "W")| |destruct (Ascii.eqb op "W")
      | |destruct (Ascii.eqb op "W")| |destruct (Ascii.eqb op "W")]; fwd.
Qed.

Lemma occupy_free_frame_total pol fr pg s :
  0 <= fr < Z.of_nat (length (frt s)) ->
  0 <= pg < Z.of_nat (length (pgt s)) ->
  listoccupied s = -1 \/ 0 <= listoccupied s < Z.of_nat (length (frt s)) ->
  returns (occupy_free_frame pol fr pg) s.
Proof.
  intros Hfr Hpg Hlo.
  destruct pol; cbn [occupy_free_frame];
    unfold Fifo.occupy_free_frame, Random.occupy_free_frame,
      Fifo2ch.occupy_free_frame, Lru.occupy_free_frame; fwd.
  all: destruct (Z.eqb_spec (listoccupied s) (-1)); fwd.
  all: lia.
Qed.

Lemma replace_page_total victim newpage s :
  0 <= victim < Z.of_nat (length (pgt s)) ->
  0 <= newpage < Z.of_nat (length (pgt s)) ->
  0 <= frame (page_at s victim) < Z.of_nat (length (frt s)) ->
  counter_ok (numpgwriteback s) ->
  returns (replace_page victim newpage) s.
Proof.
  intros Hv Hn Hf Hc. unfold replace_page. fwd.
  fold (page_at s victim). destruct (modified (page_at s victim)); fwd.
Qed.

(** The draw of the random variant is a frame index, whatever the
    floating-point expression evaluated to. *)
Lemma myrandom_range raw n :
  0 < n <= INT_MAX ->
  0 <= to_int (Random.myrandom raw 0 (to_unsigned n)) < n.
Proof.
  intros Hn. unfold Random.myrandom, to_int, to_unsigned, UINT_MOD, INT_MAX in *.
  rewrite (Z.mod_small n) by lia.
  rewrite (Z.mod_small (0 + n - 1)) by lia.
  pose proof (Z.mod_pos_bound (0 + raw) (2 ^ 32) ltac:(lia)) as Hr.
  destruct (Z.ltb_spec (0 + n - 1) ((0 + raw) mod 2 ^ 32)).
  - rewrite Z.mod_small by lia. destruct (Z.leb_spec (0 + n - 1) (2 ^ 31 - 1)); lia.
  - destruct (Z.ltb_spec ((0 + raw) mod 2 ^ 32) 0); [lia|].
    rewrite Z.mod_small by lia.
    destruct (Z.leb_spec ((0 + raw) mod 2 ^ 32) (2 ^ 31 - 1)); lia.
Qed.

Lemma wf_full_frames_hold_pages pol s :
  wf_at pol s (numframes s) -> frames_hold_pages s.
Proof.
  intros [Hpl Hfl _ _ Hocc _ _ _ _ _]. split; [done|].
  intros i Hi. destruct (Hocc i Hi) as (? & _). lia.
Qed.

(** The LRU scan reads frames and pages that exist. *)
Lemma lru_choose_returns s :
  frames_hold_pages s -> 0 < numframes s ->
  returns Lru.choose_page_to_be_replaced s.
Proof.
  intros Hh Hn.
  destruct (lru_scan_first_min (Z.to_nat (numframes s)) 0 (-1) s Hh)
    as (fr & Hs & Hr & _); [lia | lia | by left | left; lia |].
  replace (0 + Z.of_nat (Z.to_nat (numframes s))) with (numframes s) in * by lia.
  exists (page (frame_at s fr)), s.
  unfold Lru.choose_page_to_be_replaced, bind, rd. rewrite Hs.
  destruct Hh as [Hl _].
  rewrite (frt_at_ok _ _ (frame_at s fr)); [done|].
  apply (arr_get_in_range (mk_sframe (-1) (-1))). lia.
Qed.

Lemma choose_total pol raw s :
  wf_at pol s (numframes s) -> numframes s <= INT_MAX ->
  returns (choose_page_to_be_replaced pol raw) s.
Proof.
  intros Hwf Hmax. pose proof Hwf as [Hpl Hfl Hnf _ Hocc _ _ _ _ _].
  destruct pol; cbn [choose_page_to_be_replaced].
  - destruct (full_ring_next FIFO s 0 Hwf eq_refl ltac:(lia)) as (_ & _ & Hlo).
    destruct (full_ring_next FIFO s (listoccupied s) Hwf eq_refl Hlo) as (_ & Hn & _).
    unfold Fifo.choose_page_to_be_replaced, frame_at in *. fwd.
  - pose proof (myrandom_range raw (numframes s) ltac:(lia)).
    unfold Random.choose_page_to_be_replaced. fwd.
  - assert (Hu : uses_ring FIFO2CH = true) by done.
    pose proof (wf_occupied_ring _ _ _ Hwf Hu) as Hring.
    rewrite decide_False in Hring by lia.
    destruct (full_ring_next FIFO2CH s 0 Hwf eq_refl ltac:(lia)) as (_ & _ & Hlo).
    destruct (choose_loop_ring s _ Hring) as (v & s' & Hc & _).
    + intros Hnil. apply (f_equal length) in Hnil.
      rewrite length_app, !length_seqZ in Hnil. cbn in Hnil. lia.
    + intros f Hf. rewrite elem_of_app, !elem_of_seqZ in Hf.
      destruct (Hocc f ltac:(lia)) as (? & _). lia.
    + eapply returns_eq. by eapply choose_loop_enough_fuel.
  - apply lru_choose_returns; [by eapply wf_full_frames_hold_pages | done].
Qed.

Lemma fault_total pol raw va s k :
  wf_at pol s k ->
  0 <= page_of s va < numpags s ->
  to_unsigned (pagsz s) <> 0 -> numframes s <= INT_MAX ->
  counter_ok (numpagefaults s) -> counter_ok (numpgwriteback s) ->
  returns (handle_page_fault pol raw va) s.
Proof.
  intros Hwf Hpg Hsz Hmax Hcf Hcw. unfold handle_page_fault.
  fwd. destruct (Z.eqb_spec (to_unsigned (pagsz s)) 0) as [|_]; [done|].
  fwd. fold (page_of s va).
  set (s0 := set_numpagefaults (numpagefaults s + 1) s).
  assert (Hwf0 : wf_at pol s0 k).
  { eapply wf_gen_ext; [exact Hwf|done..|by left|done|done]. }
  pose proof Hwf as [Hpl Hfl Hnf Hkr Hocc Hun Hpres Hclean Hlf Hlo].
  unfold free_shape in Hlf. destruct (decide (k < numframes s)) as [Hk|Hk].
  - destruct Hlf as (Hlf & Hlast & Hchain).
    destruct (Z.eqb_spec (listfree s) (-1)) as [|_]; [lia|]. cbn [negb].
    eapply returns_bind.
    { apply frt_at_ok, (arr_get_in_range (mk_sframe (-1) (-1))). subst s0. in_range. }
    cbv beta. fold (frame_at s0 (listfree s)).
    change (frame_at s0 (listfree s)) with (frame_at s (listfree s)).
    assert (Hk' : next (frame_at s (listfree s)) = k) by (by rewrite Hlf).
    rewrite Hk'.
    apply returns_tail.
    + destruct (Z.eqb_spec k (listfree s)); subst s0; fwd.
    + intros u s1 Hd.
      change (listfree s) with (listfree s0) in Hd.
      destruct (detach_spec pol s0 k u s1 Hwf0 Hk Hd)
        as (Hwf1 & Hpgt1 & (_ & _ & _ & Hlp1 & Hlf1) & _ & Hlo1).
      pose proof (occupied_shape_anchor _ _ _ Hlo ltac:(lia)) as Ha.
      apply occupy_free_frame_total.
      * rewrite Hlf1. subst s0. in_range.
      * rewrite Hlp1. subst s0. in_range.
      * rewrite Hlo1, Hlf1. subst s0. proj_simpl.
        destruct (decide (listoccupied s = -1)); [by left | right; lia].
  - assert (k = numframes s) as -> by lia.
    rewrite Hlf, Z.eqb_refl. cbn [negb].
    destruct (choose_total pol raw s0 Hwf0 Hmax) as (v & s1 & Hc).
    eapply returns_bind; [exact Hc|]. cbv beta.
    pose proof (choose_spec _ _ _ _ _ Hwf0 Hc)
      as (Hwf1 & (_ & Hnp1 & Hnf1 & Hlp1 & Hlfr1) & (_ & _ & _ & Hwb & _ & _)
          & _ & _ & Hv & Hvp & Hq1).
    destruct (Hpres v Hv Hvp) as (Hfv & _).
    apply replace_page_total.
    + rewrite Hlp1. subst s0. in_range.
    + rewrite Hlp1. subst s0. in_range.
    + destruct (Hq1 v) as (_ & -> & _). rewrite Hlfr1. subst s0.
      unfold page_at in *. in_range.
    + by rewrite Hwb.
Qed.

(** ** The call of occupy_free_frame *)




(** ** The translation *)

Lemma page_of_legal s va :
  is_unsigned va -> config_ok s -> 0 <= va / pagsz s < numpags s ->
  to_unsigned (pagsz s) = pagsz s /\
  page_of s va = va / pagsz s /\ offset_of s va = va mod pagsz s /\
  0 <= va mod pagsz s < pagsz s.
Proof.
  intros [Hv0 Hv1] ([Hsz Hsz'] & Hnp & Hmem) Hq.
  assert (Hu : to_unsigned (pagsz s) = pagsz s).
  { unfold to_unsigned. apply Z.mod_small. unfold UINT_MOD, INT_MAX in *. nia. }
  pose proof (Z.mod_pos_bound va (pagsz s) Hsz) as Hm.
  unfold page_of, offset_of, to_int. rewrite Hu.
  unfold UINT_MOD, INT_MAX in *.
  rewrite !Z.mod_small by nia.
  destruct (Z.leb_spec (va / pagsz s) (2 ^ 31 - 1)); [|lia].
  destruct (Z.leb_spec (va mod pagsz s) (2 ^ 31 - 1)); [done|nia].
Qed.

(** The state in which sim_mmu computes the address: the page is
    resident. *)
Lemma after_fault_facts pol raw va s u s1 :
  wf pol s -> 0 <= page_of s va < numpags s ->
  (if negb (present (page_at s (page_of s va)))
   then handle_page_fault pol raw va else ret tt) s = Ret u s1 ->
  wf pol s1 /\ same_cfg s s1 /\
  present (page_at s1 (page_of s va)) = true /\
  numrefsread s1 = numrefsread s /\ numrefswrite s1 = numrefswrite s.
Proof.
  intros [k Hwf] Hpg H.
  destruct (present (page_at s (page_of s va))) eqn:Hp; cbn [negb] in H.
  - sim_inv_line. split; [by exists k|]. by unfold same_cfg.
  - destruct (decide (k < numframes s)) as [Hk|Hk].
    + destruct (fault_free_spec _ _ _ _ _ _ _ Hwf Hk Hpg Hp H)
        as (Hwf1 & Hcfg & _ & ? & ? & _ & _ & _ & Hq & _).
      split; [by eexists|]. split; [done|]. split; [|done].
      rewrite Hq, decide_True by done.
      by destruct (occupied_page_fields pol k (page_at s (page_of s va))) as (? & _).
    + assert (k = numframes s) as -> by (destruct Hwf; lia).
      destruct (fault_evict_spec _ _ _ _ _ _ Hwf Hpg Hp H)
        as (v & s2 & _ & _ & Hwf1 & Hcfg & _ & ? & ? & _ & _ & _ & _ & _ & _ & Hq & _).
      split; [by eexists|]. split; [done|]. split; [|done].
      rewrite Hq. by rewrite decide_True.
Qed.

Lemma sim_mmu_total pol raw va op s :
  wf pol s -> is_unsigned va -> config_ok s -> counters_ok s ->
  0 <= va / pagsz s < numpags s ->
  returns (sim_mmu pol raw va op) s.
Proof.
  intros Hwf Hva Hcfg (Hcr & Hcw & Hcf & Hcb) Hq.
  destruct (page_of_legal _ _ Hva Hcfg Hq) as (Hu & Hpg & Hoff & Hm).
  pose proof Hcfg as ([Hsz Hsz'] & Hnp & Hmem).
  assert (Hpl : Z.of_nat (length (pgt s)) = numpags s) by (by destruct Hwf as [k []]).
  assert (Hpg' : 0 <= page_of s va < numpags s) by lia.
  unfold sim_mmu. fwd.
  destruct (Z.eqb_spec (to_unsigned (pagsz s)) 0) as [|_]; [lia|]. fwd.
  fold (page_of s va). fold (offset_of s va).
  destruct (Z.ltb_spec (page_of s va) 0); [lia|].
  destruct (Z.geb_spec (page_of s va) (numpags s)); [lia|]. cbn [orb].
  eapply returns_bind.
  { apply pgt_at_ok, (arr_get_in_range zero_page). lia. }
  cbv beta. fold (page_at s (page_of s va)).
  apply returns_tail.
  - destruct (present (page_at s (page_of s va))) eqn:Hp; cbn [negb]; [fwd|].
    destruct Hwf as [k Hwf]. eapply fault_total; try done; try lia.
    + pose proof Hwf as []. unfold INT_MAX in *. nia.
  - intros u s1 Hf.
    destruct (after_fault_facts _ _ _ _ _ _ Hwf Hpg' Hf)
      as ([k1 Hwf1] & (Hsz1 & Hnp1 & Hnf1 & Hlp1 & Hlf1) & Hpr & Hr1 & Hw1).
    destruct Hwf1 as [_ _ Hnf Hk1 _ _ Hpres _ _ _].
    assert (Hpg1 : 0 <= page_of s va < numpags s1) by lia.
    destruct (Hpres (page_of s va) Hpg1 Hpr) as (Hfr & _).
    eapply returns_bind.
    { apply pgt_at_ok, (arr_get_in_range zero_page). lia. }
    cbv beta. fold (page_at s1 (page_of s va)).
    assert (Hb : 0 <= frame (page_at s1 (page_of s va)) * pagsz s1 /\
                 frame (page_at s1 (page_of s va)) * pagsz s1 + offset_of s va <= INT_MAX).
    { rewrite Hoff, Hsz1.
      assert ((frame (page_at s1 (page_of s va)) + 1) * pagsz s
              <= numframes s * pagsz s) by nia.
      unfold INT_MAX in *. nia. }
    eapply returns_bind; [reflexivity|]. cbv beta.
    eapply returns_bind;
      [apply int_val_ok; rewrite Hoff in Hb; unfold INT_MIN, INT_MAX in *; lia|].
    cbv beta.
    eapply returns_bind; [apply int_val_ok; unfold INT_MIN, INT_MAX in *; lia|].
    cbv beta.
    apply returns_tail; [|intros; fwd].
    apply reference_page_total; [lia | by rewrite Hr1 | by rewrite Hw1].
Qed.

(** C9: on a well-formed state, a reference to a page inside the table
    returns [frame * pagsz + virtual_addr mod pagsz], where [frame] is the
    frame of the page once the fault handler, if it had to run, is done;
    the page is then resident, and stays so, in that frame, when sim_mmu
    returns.  The hypotheses are those of defined behaviour in C: the
    configuration is made of [int]s, physical addresses fit in an [int],
    and the counters are below INT_MAX. *)
Theorem translation_formula pol raw va op s :
  wf pol s -> is_unsigned va -> config_ok s -> counters_ok s ->
  0 <= va / pagsz s < numpags s ->
  exists pa s1 s',
    (if present (page_at s (va / pagsz s)) then s1 = s
     else handle_page_fault pol raw va s = Ret tt s1) /\
    sim_mmu pol raw va op s = Ret pa s' /\
    pa = frame (page_at s1 (va / pagsz s)) * pagsz s + va mod pagsz s /\
    present (page_at s1 (va / pagsz s)) = true /\
    present (page_at s' (va / pagsz s)) = true /\
    frame (page_at s' (va / pagsz s)) = frame (page_at s1 (va / pagsz s)).
Proof.
  intros Hwf Hva Hcfg Hcnt Hq.
  destruct (sim_mmu_total pol raw va op s Hwf Hva Hcfg Hcnt Hq) as (pa & s' & Hret).
  destruct (page_of_legal _ _ Hva Hcfg Hq) as (Hu & Hpg & Hoff & Hm).
  assert (Hpg' : 0 <= page_of s va < numpags s) by lia.
  destruct (sim_mmu_legal _ _ _ _ _ _ _ Hpg' Hret) as (s1 & Hf & _ & Hr & Hrange & ->).
  assert (Hf' : (if negb (present (page_at s (page_of s va)))
                 then handle_page_fault pol raw va else ret tt) s = Ret tt s1).
  { destruct (present (page_at s (page_of s va))); cbn [negb]; [by subst|done]. }
  destruct (after_fault_facts _ _ _ _ _ _ Hwf Hpg' Hf')
    as ([k1 Hwf1] & (Hsz1 & Hnp1 & _) & Hpr & _).
  destruct Hwf1 as [_ _ _ _ _ _ Hpres _ _ _].
  assert (Hpg1 : 0 <= page_of s va < numpags s1) by lia.
  destruct (Hpres _ Hpg1 Hpr) as (Hfr & _).
  apply reference_page_spec in Hr as (_ & _ & _ & _ & _ & _ & _ & _ & _ & _ & Hpf & _).
  destruct (Hpf (page_of s va)) as [Hp' Hf''].
  rewrite Hpg, Hoff, Hsz1 in *.
  exists (frame (page_at s1 (va / pagsz s)) * pagsz s + va mod pagsz s), s1, s'.
  split; [done|]. split.
  - rewrite Hret. f_equal. unfold to_unsigned. apply Z.mod_small.
    unfold INT_MAX, UINT_MOD in *. nia.
  - split; [done|]. split; [done|]. split; congruence.
Qed.

Lemma translation_formula_witness :
  exists pa s1 s',
    (if present (page_at lru_full_state (4100 / pagsz lru_full_state))
     then s1 = lru_full_state
     else handle_page_fault LRU 0 4100 lru_full_state = Ret tt s1) /\
    sim_mmu LRU 0 4100 "W" lru_full_state = Ret pa s' /\
    pa = frame (page_at s1 (4100 / pagsz lru_full_state)) * pagsz lru_full_state
         + 4100 mod pagsz lru_full_state /\
    present (page_at s1 (4100 / pagsz lru_full_state)) = true /\
    present (page_at s' (4100 / pagsz lru_full_state)) = true /\
    frame (page_at s' (4100 / pagsz lru_full_state)) =
    frame (page_at s1 (4100 / pagsz lru_full_state)).
Proof.
  apply (translation_formula LRU 0 4100 "W" lru_full_state).
  - apply (init_run_wf LRU [Rd 0; Rd 4096; Rd 0] (blank 4096 3 2)
             [0; 4096; 0] lru_full_state).
    + unfold sizes_ok. vm_compute. repeat split; reflexivity.
    + vm_compute. reflexivity.
  - unfold is_unsigned. vm_compute. split; [discriminate | reflexivity].
  - unfold config_ok. vm_compute. repeat split; discriminate.
  - unfold counters_ok, counter_ok. vm_compute. repeat split; discriminate.
  - vm_compute. split; [discriminate | reflexivity].
Defined.

(** ** One reference, pointwise *)

Lemma reference_page_full pol pg op s u s' :
  reference_page pol pg op s = Ret u s' ->
  (forall q, page_at s' q =
             if decide (q = pg) then referenced_page pol op (clock s) (page_at s pg)
             else page_at s q) /\
  numrefsread s' = numrefsread s + (if Ascii.eqb op "R" then 1 else 0) /\
  numrefswrite s' =
    numrefswrite s + (if Ascii.eqb op "R" then 0 else if Ascii.eqb op "W" then 1 else 0).
Proof.
  intros H.
  destruct pol; cbn [reference_page] in H;
    unfold Fifo.reference_page, Random.reference_page,
      Fifo2ch.reference_page, Lru.reference_page in H;
    unfold referenced_page;
    sim_inv; tbl_simpl;
    repeat match goal with H : Ascii.eqb _ _ = _ |- _ => rewrite H; clear H end;
    (split; [|split; [lia|lia]]);
    intros q; unfold page_at; proj_simpl;
    repeat first
      [ rewrite arr_nth_set_eq by (rewrite ?arr_set_length; lia)
      | rewrite arr_nth_set by (rewrite ?arr_set_length; lia) ];
    repeat case_decide; subst; try done; try lia.
Qed.

Lemma sim_mmu_step_post pol raw va op s k pa s' :
  wf_at pol s k -> 0 <= page_of s va < numpags s ->
  sim_mmu pol raw va op s = Ret pa s' ->
  same_cfg s s' /\ counters_step s s' /\
  step_post pol raw (page_of s va) op s k s'.
Proof.
  intros Hwf Hpg H.
  apply (sim_mmu_legal _ _ _ _ _ _ _ Hpg) in H as (s1 & Hf & _ & Hr & _).
  pose proof (reference_page_full _ _ _ _ _ _ Hr) as (Hq & Hcr & Hcw).
  pose proof (reference_page_spec _ _ _ _ _ _ Hr)
    as (Hl & Hsz & Hnp & Hnf & Hfrt & Hlf & Hlo & Hpf & Hwb & _ & _ & _).
  assert (Hone : forall b1 b2 : bool,
            0 <= (if b1 then 1 else 0) <= 1 /\
            0 <= (if b1 then 0 else if b2 then 1 else 0) <= 1)
    by (intros [] []; lia).
  destruct (Hone (Ascii.eqb op "R") (Ascii.eqb op "W")) as [Hone1 Hone2].
  unfold step_post. destruct (present (page_at s (page_of s va))) eqn:Hp.
  - subst s1. split; [unfold same_cfg; by rewrite Hfrt|].
    split; [unfold counters_step; lia|].
    split; [by eapply reference_page_wf|]. done.
  - case_decide as Hk.
    + destruct (fault_free_spec _ _ _ _ _ _ _ Hwf Hk Hpg Hp Hf)
        as (Hwf1 & (? & ? & ? & ? & ?) & Hpf1 & Hr1 & Hw1 & Hwb1 & _ & Hclk & Hq1 & Hlo1).
      split; [unfold same_cfg; repeat split; congruence|].
      split; [unfold counters_step; lia|].
      split.
      { eapply reference_page_wf; [exact Hwf1| |exact Hr].
        rewrite Hq1, decide_True by done.
        by destruct (occupied_page_fields pol k (page_at s (page_of s va))) as (? & _). }
      split; [lia|]. split; [lia|]. split; [intros Hu; rewrite Hlo; auto|].
      intros q. rewrite Hq, !Hq1, Hclk. repeat case_decide; try done; congruence.
    + assert (k = numframes s) as -> by (destruct Hwf; lia).
      destruct (fault_evict_spec _ _ _ _ _ _ Hwf Hpg Hp Hf)
        as (v & s2 & Hc & Hrep & Hwf1 & (? & ? & Hnf1 & ? & ?) & Hpf1 & Hr1 & Hw1 & _
            & Hclk & Hlf1 & Hv & Hvp & Hwb1 & Hq1 & _).
      assert (Hone3 : 0 <= (if modified (page_at s v) then 1 else 0) <= 1)
        by (destruct (modified _); lia).
      split; [unfold same_cfg; repeat split; congruence|].
      split; [unfold counters_step; lia|].
      exists v, s2. split; [done|].
      assert (Hwf0 : wf_at pol (set_numpagefaults (numpagefaults s + 1) s)
                       (numframes s)).
      { eapply wf_gen_ext; [exact Hwf|done..|by left|done|done]. }
      pose proof (choose_spec _ _ _ _ _ Hwf0 Hc)
        as (_ & _ & _ & _ & _ & _ & _ & Hq2).
      pose proof (replace_page_spec _ _ _ _ _ Hrep)
        as (_ & _ & _ & _ & _ & Hlo1 & _ & _ & _ & _ & _ & _ & Hpage & _).
      split.
      { rewrite Hnf. eapply reference_page_wf; [exact Hwf1| |exact Hr].
        rewrite Hq1. by rewrite decide_True. }
      split; [lia|]. split; [lia|]. split; [congruence|]. split; [congruence|].
      split; [done|]. split; [congruence|]. split; [done|].
      intros q. rewrite Hq, !Hpage, Hclk.
      destruct (Hq2 v) as (_ & Hfv & _). unfold replaced_page.
      change (page_at (set_numpagefaults (numpagefaults s + 1) s)) with (page_at s) in Hfv.
      rewrite Hfv. repeat case_decide; try done; congruence.
Qed.

(** A legal reference on a well-formed state returns, and the state it
    returns is the one [step_post] describes. *)
Lemma sim_mmu_step pol raw va op s k m :
  wf_at pol s k -> is_unsigned va -> config_ok s ->
  0 <= m -> counters_room s (m + 1) ->
  0 <= va / pagsz s < numpags s ->
  exists pa s',
    sim_mmu pol raw va op s = Ret pa s' /\
    config_ok s' /\ counters_room s' m /\
    pagsz s' = pagsz s /\ numpags s' = numpags s /\ numframes s' = numframes s /\
    step_post pol raw (va / pagsz s) op s k s'.
Proof.
  intros Hwf Hva Hcfg Hm Hroom Hq.
  assert (Hcnt : counters_ok s).
  { unfold counters_ok, counter_ok. unfold counters_room in Hroom. lia. }
  destruct (sim_mmu_total pol raw va op s (ex_intro _ k Hwf) Hva Hcfg Hcnt Hq)
    as (pa & s' & Hret).
  destruct (page_of_legal _ _ Hva Hcfg Hq) as (_ & Hpg & _).
  assert (Hpg' : 0 <= page_of s va < numpags s) by lia.
  destruct (sim_mmu_step_post _ _ _ _ _ _ _ _ Hwf Hpg' Hret)
    as ((Hsz & Hnp & Hnf & _) & Hcs & Hpost).
  exists pa, s'. rewrite Hpg in Hpost.
  split; [done|]. split; [unfold config_ok in *; by rewrite Hsz, Hnp, Hnf|].
  split; [unfold counters_room, counters_step in *; lia|]. done.
Qed.

Lemma referenced_page_fields pol op c d :
  present (referenced_page pol op c d) = present d /\
  frame (referenced_page pol op c d) = frame d /\
  modified (referenced_page pol op c d) =
    (if Ascii.eqb op "R" then modified d
     else if Ascii.eqb op "W" then true else modified d) /\
  referenced (referenced_page pol op c d) =
    (if pol is FIFO2CH then true else referenced d).
Proof.
  unfold referenced_page.
  destruct pol, (Ascii.eqb op "R"), (Ascii.eqb op "W"); done.
Qed.

Lemma run_cons pol raw va op tr s a s1 l s2 :
  sim_mmu pol raw va op s = Ret a s1 ->
  run pol tr s1 = Ret l s2 ->
  run pol ((raw, va, op) :: tr) s = Ret (a :: l) s2.
Proof.
  intros H0 H1. cbn [run]. rewrite (bind_intro _ _ _ _ _ H0).
  by rewrite (bind_intro _ _ _ _ _ H1).
Qed.

(** init_tables on a system of the configured sizes. *)
Lemma init_start pol s0 m :
  sizes_ok s0 -> config_ok s0 -> counters_room s0 m ->
  exists sI,
    init_tables pol s0 = Ret tt sI /\ wf_at pol sI 0 /\
    config_ok sI /\ counters_room sI m /\ init_post s0 sI.
Proof.
  intros (Hp & Hf & Hn) Hcfg Hroom.
  destruct (init_tables_total pol s0 Hp Hf) as (sI & Hi).
  { destruct Hcfg as ([? ?] & _ & ?). unfold INT_MAX in *. nia. }
  exists sI. split; [done|].
  pose proof (init_tables_spec _ _ _ _ Hp Hf Hn Hi) as Hpost.
  split; [by eapply init_post_wf|].
  pose proof Hpost as ((Hsz & Hnp & Hnf & _) & ? & ? & ? & ? & _).
  split; [unfold config_ok in *; by rewrite Hsz, Hnp, Hnf|].
  split; [unfold counters_room in *; lia|]. done.
Qed.

(** A fault served from the free ring, in the form the trace laws use. *)
Lemma sim_mmu_load pol raw va op s k m :
  wf_at pol s k -> is_unsigned va -> config_ok s ->
  0 <= m -> counters_room s (m + 1) ->
  0 <= va / pagsz s < numpags s ->
  present (page_at s (va / pagsz s)) = false -> k < numframes s ->
  exists pa s',
    sim_mmu pol raw va op s = Ret pa s' /\
    config_ok s' /\ counters_room s' m /\
    pagsz s' = pagsz s /\ numpags s' = numpags s /\ numframes s' = numframes s /\
    wf_at pol s' (k + 1) /\
    numpagefaults s' = numpagefaults s + 1 /\ numpgwriteback s' = numpgwriteback s /\
    (uses_ring pol = true -> listoccupied s' = k) /\
    forall q, page_at s' q =
      if decide (q = va / pagsz s)
      then referenced_page pol op (clock s)
             (occupied_page pol k (page_at s (va / pagsz s)))
      else page_at s q.
Proof.
  intros Hwf Hva Hcfg Hm Hroom Hq Hp Hk.
  destruct (sim_mmu_step pol raw va op s k m Hwf Hva Hcfg Hm Hroom Hq)
    as (pa & s' & Hret & ? & ? & ? & ? & ? & Hpost).
  unfold step_post in Hpost. rewrite Hp, decide_True in Hpost by done.
  exists pa, s'. tauto.
Qed.

(** C3: in the FIFO variant with three frames and at least four pages,
    read references to pages 0, 1, 2 and 3, in this order from the
    initialised state, all return; the first three fault and fill the
    three free frames, in order; the fourth faults with no frame left
    free, choose_page_to_be_replaced returns page 0, the first loaded, and
    page 3 takes its frame while pages 1 and 2 stay resident. *)
Theorem fifo_ordering_law s0 va0 va1 va2 va3 :
  sizes_ok s0 -> config_ok s0 -> counters_room s0 4 ->
  numframes s0 = 3 -> 4 <= numpags s0 ->
  is_unsigned va0 -> is_unsigned va1 -> is_unsigned va2 -> is_unsigned va3 ->
  va0 / pagsz s0 = 0 -> va1 / pagsz s0 = 1 ->
  va2 / pagsz s0 = 2 -> va3 / pagsz s0 = 3 ->
  exists l s3 sc pa s4,
    (init_tables FIFO ;; run FIFO [Rd va0; Rd va1; Rd va2]) s0 = Ret l s3 /\
    numpagefaults s3 = numpagefaults s0 + 3 /\ listfree s3 = -1 /\
    (forall i, 0 <= i < 3 ->
       present (page_at s3 i) = true /\ frame (page_at s3 i) = i) /\
    present (page_at s3 3) = false /\
    Fifo.choose_page_to_be_replaced
      (set_numpagefaults (numpagefaults s3 + 1) s3) = Ret 0 sc /\
    sim_mmu FIFO 0 va3 "R" s3 = Ret pa s4 /\
    numpagefaults s4 = numpagefaults s0 + 4 /\
    present (page_at s4 0) = false /\
    present (page_at s4 1) = true /\ present (page_at s4 2) = true /\
    present (page_at s4 3) = true /\ frame (page_at s4 3) = 0.
Proof.
  intros Hs Hcfg Hroom Hnf Hnp Hu0 Hu1 Hu2 Hu3 Hv0 Hv1 Hv2 Hv3.
  destruct (init_start FIFO s0 4 Hs Hcfg Hroom)
    as (sI & Hinit & HwfI & HcfgI & HroomI & Hpost).
  destruct Hpost as ((HszI & HnpI & HnfI & _) & _ & _ & HpfI & _ & _ & _ & _ & HpgI & _).
  (* page 0 *)
  destruct (sim_mmu_load FIFO 0 va0 "R" sI 0 3 HwfI Hu0 HcfgI)
    as (a0 & s1 & Hr1 & Hcfg1 & Hroom1 & Hsz1 & Hnp1 & Hnf1 & Hwf1 & Hpf1 & _ & _ & Hq1);
    [lia | done | rewrite HszI, Hv0; lia | rewrite HszI, Hv0, HpgI by lia; done | lia |].
  rewrite HszI, Hv0 in Hq1.
  (* page 1 *)
  destruct (sim_mmu_load FIFO 0 va1 "R" s1 1 2 Hwf1 Hu1 Hcfg1)
    as (a1 & s2 & Hr2 & Hcfg2 & Hroom2 & Hsz2 & Hnp2 & Hnf2 & Hwf2 & Hpf2 & _ & _ & Hq2);
    [lia | done | rewrite Hsz1, HszI, Hv1; lia
    | rewrite Hsz1, HszI, Hv1, Hq1, decide_False, HpgI by lia; done | lia |].
  rewrite Hsz1, HszI, Hv1 in Hq2.
  (* page 2 *)
  destruct (sim_mmu_load FIFO 0 va2 "R" s2 2 1 Hwf2 Hu2 Hcfg2)
    as (a2 & s3 & Hr3 & Hcfg3 & Hroom3 & Hsz3 & Hnp3 & Hnf3 & Hwf3 & Hpf3 & _ & Hlo3 & Hq3);
    [lia | done | rewrite Hsz2, Hsz1, HszI, Hv2; lia
    | rewrite Hsz2, Hsz1, HszI, Hv2, Hq2, decide_False, Hq1, decide_False, HpgI by lia;
      done
    | lia |].
  rewrite Hsz2, Hsz1, HszI, Hv2 in Hq3. specialize (Hlo3 eq_refl).
  change (2 + 1) with 3 in Hwf3. change (1 + 1) with 2 in Hwf2.
  (* the state after the three loads *)
  assert (Hres : forall i, 0 <= i < 3 ->
            present (page_at s3 i) = true /\ frame (page_at s3 i) = i).
  { intros i Hi. rewrite Hq3. case_decide; [subst i; by cbn|].
    rewrite Hq2. case_decide; [subst i; by cbn|].
    rewrite Hq1. case_decide; [subst i; by cbn|]. lia. }
  assert (Habs : present (page_at s3 3) = false).
  { rewrite Hq3, decide_False, Hq2, decide_False, Hq1, decide_False, HpgI by lia.
    done. }
  assert (Hlf3 : listfree s3 = -1).
  { destruct Hwf3 as [_ _ _ _ _ _ _ _ Hlf _]. unfold free_shape in Hlf.
    by rewrite decide_False in Hlf by lia. }
  assert (Hn3 : numframes s3 = 3) by lia.
  (* page 3 *)
  destruct (sim_mmu_step FIFO 0 va3 "R" s3 3 0 Hwf3 Hu3 Hcfg3)
    as (a3 & s4 & Hr4 & _ & _ & _ & _ & _ & Hpost4);
    [lia | done | rewrite Hsz3, Hsz2, Hsz1, HszI, Hv3; lia |].
  rewrite Hsz3, Hsz2, Hsz1, HszI, Hv3 in Hpost4.
  unfold step_post in Hpost4. rewrite Habs, decide_False in Hpost4 by lia.
  destruct Hpost4 as (v & sc & Hch & _ & Hpf4 & _ & _ & _ & _ & _ & _ & Hq4).
  cbn [choose_page_to_be_replaced] in Hch.
  set (sf := set_numpagefaults (numpagefaults s3 + 1) s3) in *.
  assert (Hwff : wf_at FIFO sf (numframes sf)).
  { change (numframes sf) with (numframes s3). rewrite Hn3.
    eapply wf_gen_ext; [exact Hwf3|done..|by left|done|done]. }
  destruct (fifo_choose_spec _ _ _ Hwff Hch) as (_ & Hv & _ & Hpgt).
  change (frame_at sf) with (frame_at s3) in Hv.
  change (listoccupied sf) with (listoccupied s3) in Hv.
  rewrite <- Hn3 in Hwf3.
  destruct (full_ring_next FIFO s3 2 Hwf3 eq_refl ltac:(lia)) as (Hnx & _).
  rewrite decide_True in Hnx by lia.
  rewrite Hlo3, Hnx in Hv.
  destruct Hwf3 as [_ _ _ _ _ _ Hpres _ _ _].
  destruct (Hres 0 ltac:(lia)) as [Hp0 Hf0].
  destruct (Hpres 0 ltac:(lia) Hp0) as (_ & Hfp0). rewrite Hf0 in Hfp0.
  rewrite Hfp0 in Hv. subst v.
  assert (Hpc : forall q, page_at sc q = page_at s3 q).
  { intros q. unfold page_at. by rewrite Hpgt. }
  exists [a0; a1; a2], s3, sc, a3, s4.
  split.
  { rewrite (bind_intro _ _ _ _ _ Hinit).
    eapply run_cons; [exact Hr1|]. eapply run_cons; [exact Hr2|].
    eapply run_cons; [exact Hr3|]. done. }
  split; [lia|]. split; [done|]. split; [done|]. split; [done|].
  split; [done|]. split; [done|]. split; [lia|].
  rewrite !Hq4, !Hpc.
  destruct (Hres 1 ltac:(lia)) as [Hp1 _]. destruct (Hres 2 ltac:(lia)) as [Hp2 _].
  repeat split; repeat case_decide; try lia; try done.
Qed.

Lemma fifo_ordering_law_witness :
  exists l s3 sc pa s4,
    (init_tables FIFO ;; run FIFO [Rd 0; Rd 4096; Rd 8192]) (blank 4096 4 3)
      = Ret l s3 /\
    numpagefaults s3 = numpagefaults (blank 4096 4 3) + 3 /\ listfree s3 = -1 /\
    (forall i, 0 <= i < 3 ->
       present (page_at s3 i) = true /\ frame (page_at s3 i) = i) /\
    present (page_at s3 3) = false /\
    Fifo.choose_page_to_be_replaced
      (set_numpagefaults (numpagefaults s3 + 1) s3) = Ret 0 sc /\
    sim_mmu FIFO 0 12288 "R" s3 = Ret pa s4 /\
    numpagefaults s4 = numpagefaults (blank 4096 4 3) + 4 /\
    present (page_at s4 0) = false /\
    present (page_at s4 1) = true /\ present (page_at s4 2) = true /\
    present (page_at s4 3) = true /\ frame (page_at s4 3) = 0.
Proof.
  apply (fifo_ordering_law (blank 4096 4 3) 0 4096 8192 12288).
  - unfold sizes_ok. vm_compute. repeat split; reflexivity.
  - unfold config_ok. vm_compute. repeat split; discriminate.
  - unfold counters_room. vm_compute. repeat split; discriminate.
  - reflexivity.
  - vm_compute. discriminate.
  - unfold is_unsigned. vm_compute. split; [discriminate | reflexivity].
  - unfold is_unsigned. vm_compute. split; [discriminate | reflexivity].
  - unfold is_unsigned. vm_compute. split; [discriminate | reflexivity].
  - unfold is_unsigned. vm_compute. split; [discriminate | reflexivity].
  - reflexivity.
  - reflexivity.
  - reflexivity.
  - reflexivity.
Defined.

(** ** The second-chance variant on the trace 0, 1, 0, 2 *)

Lemma pardon_page_at s q :
  walk_ok s ->
  page_at (pardon s) q =
  if decide (q = candidate s) then set_referenced false (page_at s (candidate s))
  else page_at s q.
Proof.
  intros (_ & _ & Hc). unfold pardon, page_at. proj_simpl.
  by rewrite arr_nth_set by done.
Qed.

(** A hit, in the form the trace laws use. *)
Lemma sim_mmu_hit pol raw va op s k m :
  wf_at pol s k -> is_unsigned va -> config_ok s ->
  0 <= m -> counters_room s (m + 1) ->
  0 <= va / pagsz s < numpags s ->
  present (page_at s (va / pagsz s)) = true ->
  exists pa s',
    sim_mmu pol raw va op s = Ret pa s' /\
    config_ok s' /\ counters_room s' m /\
    pagsz s' = pagsz s /\ numpags s' = numpags s /\ numframes s' = numframes s /\
    wf_at pol s' k /\ frt s' = frt s /\
    listfree s' = listfree s /\ listoccupied s' = listoccupied s /\
    numpagefaults s' = numpagefaults s /\ numpgwriteback s' = numpgwriteback s /\
    forall q, page_at s' q =
      if decide (q = va / pagsz s)
      then referenced_page pol op (clock s) (page_at s (va / pagsz s))
      else page_at s q.
Proof.
  intros Hwf Hva Hcfg Hm Hroom Hq Hp.
  destruct (sim_mmu_step pol raw va op s k m Hwf Hva Hcfg Hm Hroom Hq)
    as (pa & s' & Hret & ? & ? & ? & ? & ? & Hpost).
  unfold step_post in Hpost. rewrite Hp in Hpost.
  exists pa, s'. tauto.
Qed.

(** C5 (amended): in the second-chance variant with two frames and at
    least three pages, read references to pages 0, 1, 0 and 2, in this
    order from the initialised state, all return; after the third, pages
    0 and 1 are resident and the referenced bit of page 0 is set, as is
    that of page 1, set when it was loaded; at the fault for page 2 the
    walk pardons page 0, then page 1, clears both bits, and returns
    page 0: page 0 is evicted, page 2 takes frame 0, and page 1 stays
    resident with its referenced bit cleared. *)
Theorem second_chance_pardon_law s0 va0 va1 va2 va3 :
  sizes_ok s0 -> config_ok s0 -> counters_room s0 4 ->
  numframes s0 = 2 -> 3 <= numpags s0 ->
  is_unsigned va0 -> is_unsigned va1 -> is_unsigned va2 -> is_unsigned va3 ->
  va0 / pagsz s0 = 0 -> va1 / pagsz s0 = 1 ->
  va2 / pagsz s0 = 0 -> va3 / pagsz s0 = 2 ->
  exists l s3 sc pa s4,
    (init_tables FIFO2CH ;; run FIFO2CH [Rd va0; Rd va1; Rd va2]) s0 = Ret l s3 /\
    numpagefaults s3 = numpagefaults s0 + 2 /\
    present (page_at s3 0) = true /\ referenced (page_at s3 0) = true /\
    present (page_at s3 1) = true /\ referenced (page_at s3 1) = true /\
    present (page_at s3 2) = false /\
    Fifo2ch.choose_page_to_be_replaced
      (set_numpagefaults (numpagefaults s3 + 1) s3) = Ret 0 sc /\
    referenced (page_at sc 0) = false /\ referenced (page_at sc 1) = false /\
    sim_mmu FIFO2CH 0 va3 "R" s3 = Ret pa s4 /\
    numpagefaults s4 = numpagefaults s0 + 3 /\
    present (page_at s4 0) = false /\
    present (page_at s4 1) = true /\ referenced (page_at s4 1) = false /\
    present (page_at s4 2) = true /\ frame (page_at s4 2) = 0.
Proof.
  intros Hs Hcfg Hroom Hnf Hnp Hu0 Hu1 Hu2 Hu3 Hv0 Hv1 Hv2 Hv3.
  destruct (init_start FIFO2CH s0 4 Hs Hcfg Hroom)
    as (sI & Hinit & HwfI & HcfgI & HroomI & Hpost).
  destruct Hpost as ((HszI & HnpI & HnfI & _) & _ & _ & HpfI & _ & _ & _ & _ & HpgI & _).
  (* page 0 *)
  destruct (sim_mmu_load FIFO2CH 0 va0 "R" sI 0 3 HwfI Hu0 HcfgI)
    as (a0 & s1 & Hr1 & Hcfg1 & Hroom1 & Hsz1 & Hnp1 & Hnf1 & Hwf1 & Hpf1 & _ & _ & Hq1);
    [lia | done | rewrite HszI, Hv0; lia | rewrite HszI, Hv0, HpgI by lia; done | lia |].
  rewrite HszI, Hv0 in Hq1.
  (* page 1 *)
  destruct (sim_mmu_load FIFO2CH 0 va1 "R" s1 1 2 Hwf1 Hu1 Hcfg1)
    as (a1 & s2 & Hr2 & Hcfg2 & Hroom2 & Hsz2 & Hnp2 & Hnf2 & Hwf2 & Hpf2 & _ & Hlo2 & Hq2);
    [lia | done | rewrite Hsz1, HszI, Hv1; lia
    | rewrite Hsz1, HszI, Hv1, Hq1, decide_False, HpgI by lia; done | lia |].
  rewrite Hsz1, HszI, Hv1 in Hq2. specialize (Hlo2 eq_refl).
  change (1 + 1) with 2 in Hwf2.
  (* page 0 again *)
  destruct (sim_mmu_hit FIFO2CH 0 va2 "R" s2 2 1 Hwf2 Hu2 Hcfg2)
    as (a2 & s3 & Hr3 & Hcfg3 & Hroom3 & Hsz3 & Hnp3 & Hnf3 & Hwf3 & Hfrt3 & _ & Hlo3
        & Hpf3 & _ & Hq3);
    [lia | done | rewrite Hsz2, Hsz1, HszI, Hv2; lia
    | rewrite Hsz2, Hsz1, HszI, Hv2, Hq2, decide_False, Hq1, decide_True by lia; done |].
  rewrite Hsz2, Hsz1, HszI, Hv2 in Hq3.
  (* the state after the three references *)
  assert (H30 : present (page_at s3 0) = true /\ referenced (page_at s3 0) = true /\
                frame (page_at s3 0) = 0).
  { rewrite Hq3, decide_True, Hq2, decide_False, Hq1, decide_True by lia. by cbn. }
  assert (H31 : present (page_at s3 1) = true /\ referenced (page_at s3 1) = true /\
                frame (page_at s3 1) = 1).
  { rewrite Hq3, decide_False, Hq2, decide_True by lia. by cbn. }
  assert (H32 : present (page_at s3 2) = false).
  { rewrite Hq3, decide_False, Hq2, decide_False, Hq1, decide_False, HpgI by lia. done. }
  destruct H30 as (Hp0 & Hrf0 & Hf0). destruct H31 as (Hp1 & Hrf1 & Hf1).
  assert (Hn3 : numframes s3 = 2) by lia.
  assert (Hlo3' : listoccupied s3 = 1) by lia.
  (* the walk of choose_page_to_be_replaced *)
  set (sf := set_numpagefaults (numpagefaults s3 + 1) s3).
  pose proof Hwf3 as Hwf3'. rewrite <- Hn3 in Hwf3'.
  destruct (full_ring_next FIFO2CH s3 0 Hwf3' eq_refl ltac:(lia)) as (Hnx0 & _).
  destruct (full_ring_next FIFO2CH s3 1 Hwf3' eq_refl ltac:(lia)) as (Hnx1 & _).
  rewrite decide_False in Hnx0 by lia. rewrite decide_True in Hnx1 by lia.
  change (0 + 1) with 1 in Hnx0.
  pose proof Hwf3 as [Hpl3 Hfl3 _ _ _ _ Hpres3 _ _ _].
  destruct (Hpres3 0 ltac:(lia) Hp0) as (_ & Hfp0). rewrite Hf0 in Hfp0.
  destruct (Hpres3 1 ltac:(lia) Hp1) as (_ & Hfp1). rewrite Hf1 in Hfp1.
  assert (Hoka : walk_ok sf).
  { unfold walk_ok, candidate, head_frame. change (frame_at sf) with (frame_at s3).
    change (listoccupied sf) with (listoccupied s3).
    change (frt sf) with (frt s3). change (pgt sf) with (pgt s3).
    rewrite Hlo3', Hnx1, Hfp0. lia. }
  assert (Hca : candidate sf = 0).
  { unfold candidate, head_frame. change (frame_at sf) with (frame_at s3).
    change (listoccupied sf) with (listoccupied s3). by rewrite Hlo3', Hnx1. }
  set (sa := pardon sf).
  assert (Hfa : forall i, frame_at sa i = frame_at s3 i) by done.
  assert (Hloa : listoccupied sa = 0).
  { unfold sa, pardon. proj_simpl. unfold head_frame.
    change (frame_at sf) with (frame_at s3).
    change (listoccupied sf) with (listoccupied s3). by rewrite Hlo3', Hnx1. }
  assert (Hokb : walk_ok sa).
  { unfold walk_ok, candidate, head_frame. rewrite !Hfa, Hloa, Hnx0, Hfp1.
    unfold sa, pardon. proj_simpl. rewrite arr_set_length.
    change (frt sf) with (frt s3). change (pgt sf) with (pgt s3). lia. }
  assert (Hcb : candidate sa = 1).
  { unfold candidate, head_frame. by rewrite !Hfa, Hloa, Hnx0. }
  set (sb := pardon sa).
  assert (Hfb : forall i, frame_at sb i = frame_at s3 i) by done.
  assert (Hlob : listoccupied sb = 1).
  { unfold sb, pardon. proj_simpl. unfold head_frame. by rewrite !Hfa, Hloa, Hnx0. }
  assert (Hokc : walk_ok sb).
  { unfold walk_ok, candidate, head_frame. rewrite !Hfb, Hlob, Hnx1, Hfp0.
    unfold sb, pardon, sa, pardon. proj_simpl. rewrite !arr_set_length.
    change (frt sf) with (frt s3). change (pgt sf) with (pgt s3). lia. }
  assert (Hcc : candidate sb = 0).
  { unfold candidate, head_frame. by rewrite !Hfb, Hlob, Hnx1. }
  assert (Hpa : forall q, page_at sa q =
                  if decide (q = 0) then set_referenced false (page_at s3 0)
                  else page_at s3 q).
  { intros q. unfold sa. rewrite pardon_page_at by done. by rewrite Hca. }
  assert (Hpb : forall q, page_at sb q =
                  if decide (q = 1) then set_referenced false (page_at s3 1)
                  else if decide (q = 0) then set_referenced false (page_at s3 0)
                  else page_at s3 q).
  { intros q. unfold sb. rewrite pardon_page_at by done. rewrite Hcb, !Hpa.
    by repeat case_decide. }
  assert (Hloop : Fifo2ch.choose_loop 3 sf = Ret 0 sb).
  { rewrite (choose_loop_step _ _ Hoka), Hca.
    change (page_at sf 0) with (page_at s3 0). rewrite Hrf0.
    fold sa. rewrite (choose_loop_step _ _ Hokb), Hcb, Hpa, decide_False, Hrf1 by lia.
    fold sb. rewrite (choose_loop_step _ _ Hokc), Hcc, Hpb, decide_False, decide_True by lia.
    done. }
  apply choose_loop_enough_fuel in Hloop.
  (* page 2 *)
  destruct (sim_mmu_step FIFO2CH 0 va3 "R" s3 2 0 Hwf3 Hu3 Hcfg3)
    as (a3 & s4 & Hr4 & _ & _ & _ & _ & _ & Hpost4);
    [lia | done | rewrite Hsz3, Hsz2, Hsz1, HszI, Hv3; lia |].
  rewrite Hsz3, Hsz2, Hsz1, HszI, Hv3 in Hpost4.
  unfold step_post in Hpost4. rewrite H32, decide_False in Hpost4 by lia.
  destruct Hpost4 as (v & sc & Hch & _ & Hpf4 & _ & _ & _ & _ & _ & _ & Hq4).
  cbn [choose_page_to_be_replaced] in Hch. fold sf in Hch.
  rewrite Hloop in Hch. injection Hch as <- <-.
  exists [a0; a1; a2], s3, sb, a3, s4.
  split.
  { rewrite (bind_intro _ _ _ _ _ Hinit).
    eapply run_cons; [exact Hr1|]. eapply run_cons; [exact Hr2|].
    eapply run_cons; [exact Hr3|]. done. }
  split; [lia|]. do 5 (split; [done|]). split; [done|].
  split; [by rewrite Hpb, decide_False, decide_True by lia|].
  split; [by rewrite Hpb, decide_True by lia|].
  split; [done|]. split; [lia|].
  rewrite !Hq4, !Hpb.
  repeat split; repeat case_decide; try lia; try done.
Qed.

Lemma second_chance_pardon_law_witness :
  exists l s3 sc pa s4,
    (init_tables FIFO2CH ;; run FIFO2CH [Rd 0; Rd 4096; Rd 100]) (blank 4096 3 2)
      = Ret l s3 /\
    numpagefaults s3 = numpagefaults (blank 4096 3 2) + 2 /\
    present (page_at s3 0) = true /\ referenced (page_at s3 0) = true /\
    present (page_at s3 1) = true /\ referenced (page_at s3 1) = true /\
    present (page_at s3 2) = false /\
    Fifo2ch.choose_page_to_be_replaced
      (set_numpagefaults (numpagefaults s3 + 1) s3) = Ret 0 sc /\
    referenced (page_at sc 0) = false /\ referenced (page_at sc 1) = false /\
    sim_mmu FIFO2CH 0 8192 "R" s3 = Ret pa s4 /\
    numpagefaults s4 = numpagefaults (blank 4096 3 2) + 3 /\
    present (page_at s4 0) = false /\
    present (page_at s4 1) = true /\ referenced (page_at s4 1) = false /\
    present (page_at s4 2) = true /\ frame (page_at s4 2) = 0.
Proof.
  apply (second_chance_pardon_law (blank 4096 3 2) 0 4096 100 8192).
  - unfold sizes_ok. vm_compute. repeat split; reflexivity.
  - unfold config_ok. vm_compute. repeat split; discriminate.
  - unfold counters_room. vm_compute. repeat split; discriminate.
  - reflexivity.
  - vm_compute. discriminate.
  - unfold is_unsigned. vm_compute. split; [discriminate | reflexivity].
  - unfold is_unsigned. vm_compute. split; [discriminate | reflexivity].
  - unfold is_unsigned. vm_compute. split; [discriminate | reflexivity].
  - unfold is_unsigned. vm_compute. split; [discriminate | reflexivity].
  - reflexivity.
  - reflexivity.
  - reflexivity.
  - reflexivity.
Defined.

(** C5 as stated fails: on the trace 0, 1, 0, 2 with two frames the
    victim of the fault for page 2 is page 0, and page 1 stays resident. *)
Lemma second_chance_pardon_counterexample :
  exists l s3 sc pa s4,
    (init_tables FIFO2CH ;; run FIFO2CH [Rd 0; Rd 4096; Rd 0]) (blank 4096 3 2)
      = Ret l s3 /\
    referenced (page_at s3 0) = true /\
    Fifo2ch.choose_page_to_be_replaced
      (set_numpagefaults (numpagefaults s3 + 1) s3) = Ret 0 sc /\
    sim_mmu FIFO2CH 0 8192 "R" s3 = Ret pa s4 /\
    present (page_at s4 0) = false /\ present (page_at s4 1) = true.
Proof.
  eexists _, _, _, _, _.
  split; [vm_compute; reflexivity|]. split; [reflexivity|].
  split; [vm_compute; reflexivity|]. split; [vm_compute; reflexivity|].
  split; reflexivity.
Qed.

(** ** Write-backs *)

Lemma referenced_page_modified pol op c d :
  modified (referenced_page pol op c d) = modified d || Ascii.eqb op "W".
Proof.
  destruct (referenced_page_fields pol op c d) as (_ & _ & -> & _).
  destruct (Ascii.eqb_spec op "R") as [->|_]; [cbn; by rewrite orb_false_r|].
  destruct (Ascii.eqb op "W"); [by rewrite orb_true_r | by rewrite orb_false_r].
Qed.

(** What one reference does to the residence and to the modified bit of a
    page [p], and to the write-back counter when it evicts [p]. *)
Lemma sim_mmu_page_effect pol raw va op s k pa s' p :
  wf_at pol s k -> 0 <= p < numpags s ->
  sim_mmu pol raw va op s = Ret pa s' ->
  wf pol s' /\ pagsz s' = pagsz s /\ numpags s' = numpags s /\
  (present (page_at s p) = true -> present (page_at s' p) = true ->
   modified (page_at s' p) =
     modified (page_at s p) || writes_to (pagsz s) p (raw, va, op)) /\
  (present (page_at s p) = false -> present (page_at s' p) = true ->
   modified (page_at s' p) = writes_to (pagsz s) p (raw, va, op)) /\
  (present (page_at s p) = true -> present (page_at s' p) = false ->
   numpgwriteback s' =
     numpgwriteback s + (if modified (page_at s p) then 1 else 0)).
Proof.
  intros Hwf Hp H. unfold writes_to. cbn [fst snd]. fold (page_of s va).
  split; [by eapply sim_mmu_wf; [eexists|]|].
  assert (Hsz : to_unsigned (pagsz s) <> 0).
  { unfold sim_mmu in H. sim_inv_line. sim_inv_if; [done|]. by apply Z.eqb_neq. }
  destruct (decide (0 <= page_of s va < numpags s)) as [Hpg|Hpg].
  2:{ rewrite sim_mmu_illegal in H by done. sim_inv_line.
      change (page_at (set_numillegalrefs (numillegalrefs s + 1) s)) with (page_at s).
      repeat split; try done; try congruence.
      intros _ _. destruct (Z.eqb_spec (page_of s va) p); [lia|].
      by rewrite orb_false_r. }
  destruct (sim_mmu_step_post _ _ _ _ _ _ _ _ Hwf Hpg H)
    as ((? & ? & _) & _ & Hpost).
  split; [done|]. split; [done|].
  unfold step_post in Hpost.
  destruct (present (page_at s (page_of s va))) eqn:Hpp.
  - (* a hit *)
    destruct Hpost as (_ & _ & _ & _ & _ & Hwb & Hq).
    rewrite Hq. case_decide as Hd.
    + subst p. rewrite Z.eqb_refl, referenced_page_modified.
      destruct (referenced_page_fields pol op (clock s) (page_at s (page_of s va)))
        as (-> & _).
      repeat split; try done; congruence.
    + destruct (Z.eqb_spec (page_of s va) p); [congruence|].
      cbn [andb]. rewrite orb_false_r. repeat split; try done; congruence.
  - case_decide as Hk.
    + (* a fault served from the free ring *)
      destruct Hpost as (_ & _ & Hwb & _ & Hq).
      rewrite Hq. case_decide as Hd.
      * subst p. rewrite Z.eqb_refl, referenced_page_modified.
        destruct (referenced_page_fields pol op (clock s)
                    (occupied_page pol k (page_at s (page_of s va)))) as (-> & _).
        destruct (occupied_page_fields pol k (page_at s (page_of s va)))
          as (-> & _ & Hm).
        rewrite Hm; [repeat split; try done; congruence|].
        destruct Hwf as [_ _ _ _ _ _ _ Hclean _ _]. by apply Hclean.
      * destruct (Z.eqb_spec (page_of s va) p); [congruence|].
        cbn [andb]. rewrite orb_false_r. repeat split; try done; congruence.
    + (* a fault served by an eviction *)
      assert (k = numframes s) as -> by (destruct Hwf; lia).
      destruct Hpost as (v & s1 & Hc & _ & _ & Hwb & _ & _ & Hv & Hne & Hvp & Hq).
      assert (Hwf0 : wf_at pol (set_numpagefaults (numpagefaults s + 1) s)
                       (numframes s)).
      { eapply wf_gen_ext; [exact Hwf|done..|by left|done|done]. }
      pose proof (choose_spec _ _ _ _ _ Hwf0 Hc)
        as (_ & _ & _ & _ & _ & _ & _ & Hq2).
      change (page_at (set_numpagefaults (numpagefaults s + 1) s))
        with (page_at s) in Hq2.
      rewrite Hq. case_decide as Hd.
      * subst p. rewrite Z.eqb_refl, referenced_page_modified.
        destruct (referenced_page_fields pol op (clock s)
                    (replaced_page (frame (page_at s v)) (page_at s1 (page_of s va))))
          as (-> & _).
        cbn. repeat split; try done; congruence.
      * destruct (Z.eqb_spec (page_of s va) p); [congruence|].
        cbn [andb]. rewrite orb_false_r. case_decide as Hdv.
        -- subst p. cbn. repeat split; try done; try congruence.
        -- destruct (Hq2 p) as (-> & _ & -> & _).
           repeat split; try done; congruence.
Qed.

(** While the page stays resident, its modified bit records whether one of
    the references wrote to it. *)
Lemma resident_run_modified pol p tr s s2 :
  wf pol s -> 0 <= p < numpags s -> present (page_at s p) = true ->
  resident_run pol p tr s s2 ->
  wf pol s2 /\ pagsz s2 = pagsz s /\ numpags s2 = numpags s /\
  present (page_at s2 p) = true /\
  modified (page_at s2 p) =
    modified (page_at s p) || existsb (writes_to (pagsz s) p) tr.
Proof.
  revert s. induction tr as [|[[raw va] op] tr IH]; intros s Hwf Hp Hpr H.
  - cbn in H. subst s2. cbn [existsb]. by rewrite orb_false_r.
  - cbn [resident_run] in H. destruct H as (a & s1 & Hstep & Hpr1 & Hrest).
    destruct Hwf as [k Hwf].
    destruct (sim_mmu_page_effect _ _ _ _ _ _ _ _ _ Hwf Hp Hstep)
      as (Hwf1 & Hsz1 & Hnp1 & Hm & _).
    destruct (IH s1) as (Hwf2 & Hsz2 & Hnp2 & Hpr2 & Hm2); [done|lia|done|done|].
    split; [done|]. split; [congruence|]. split; [congruence|]. split; [done|].
    rewrite Hm2, Hm, Hsz1 by done. cbn [existsb]. by rewrite orb_assoc.
Qed.

(** C7: replace_page, wherever its accesses are in range and the counter
    has room, returns and adds one to numpgwriteback if the modified bit of
    the victim is set at that moment, and nothing otherwise.  Over a trace,
    in the four variants: when a page is faulted in, stays resident through
    any references and is then evicted, the reference that evicts it adds
    one write-back if one of the references since its load, the loading one
    included, wrote to it, and none if none did. *)
Theorem write_back_law :
  (forall s victim newpage,
     0 <= victim < Z.of_nat (length (pgt s)) ->
     0 <= newpage < Z.of_nat (length (pgt s)) ->
     0 <= frame (page_at s victim) < Z.of_nat (length (frt s)) ->
     counter_ok (numpgwriteback s) ->
     exists s',
       replace_page victim newpage s = Ret tt s' /\
       numpgwriteback s' =
         numpgwriteback s + (if modified (page_at s victim) then 1 else 0)) /\
  (forall pol s p e1 a1 s1 tr s2 e3 a3 s3,
     wf pol s -> 0 <= p < numpags s ->
     present (page_at s p) = false ->
     sim_mmu pol e1.1.1 e1.1.2 e1.2 s = Ret a1 s1 ->
     present (page_at s1 p) = true ->
     resident_run pol p tr s1 s2 ->
     sim_mmu pol e3.1.1 e3.1.2 e3.2 s2 = Ret a3 s3 ->
     present (page_at s3 p) = false ->
     numpgwriteback s3 =
       numpgwriteback s2 +
       (if existsb (writes_to (pagsz s) p) (e1 :: tr) then 1 else 0)).
Proof.
  split.
  - intros s victim newpage Hv Hn Hf Hc.
    destruct (replace_page_total victim newpage s Hv Hn Hf Hc) as ([] & s' & H).
    exists s'. split; [done|].
    by pose proof (replace_page_spec _ _ _ _ _ H)
      as (_ & _ & _ & _ & _ & _ & _ & _ & _ & _ & _ & Hwb & _).
  - intros pol s p [[raw1 va1] op1] a1 s1 tr s2 [[raw3 va3] op3] a3 s3
      [k Hwf] Hp Hab H1 Hpr1 Hrun H3 Hab3.
    cbn [fst snd] in H1, H3.
    destruct (sim_mmu_page_effect _ _ _ _ _ _ _ _ _ Hwf Hp H1)
      as (Hwf1 & Hsz1 & Hnp1 & _ & Hm1 & _).
    destruct (resident_run_modified pol p tr s1 s2)
      as ([k2 Hwf2] & Hsz2 & Hnp2 & Hpr2 & Hm2); [done|lia|done|done|].
    destruct (sim_mmu_page_effect _ _ _ _ _ _ _ _ p Hwf2 ltac:(lia) H3)
      as (_ & _ & _ & _ & _ & Hwb).
    rewrite Hwb, Hm2, Hm1, Hsz1 by done. done.
Qed.

Lemma write_back_law_witness :
  (exists s',
     replace_page 0 2 fifo_written_full = Ret tt s' /\
     numpgwriteback s' = numpgwriteback fifo_written_full + 1) /\
  numpgwriteback fifo_written_evicted = numpgwriteback fifo_written_full + 1.
Proof.
  destruct write_back_law as [HA HB]. split.
  - apply (HA fifo_written_full 0 2); vm_compute; split; congruence.
  - apply (HB FIFO fifo_start 0 (Wr 0) 0 fifo_written [Rd 4096] fifo_written_full
             (Rd 8192) 0 fifo_written_evicted).
    + apply (init_run_wf FIFO [] (blank 4096 3 2) []).
      * unfold sizes_ok. vm_compute. repeat split; reflexivity.
      * reflexivity.
    + vm_compute. split; congruence.
    + reflexivity.
    + reflexivity.
    + reflexivity.
    + cbn [resident_run Rd]. exists 4096, fifo_written_full.
      split; [reflexivity|]. split; reflexivity.
    + reflexivity.
    + reflexivity.
Defined.

(** ** The free ring only shrinks *)

(** A reference never lowers the number of frames handed out. *)
Lemma sim_mmu_wf_mono pol raw va op s a s' k :
  wf_at pol s k -> sim_mmu pol raw va op s = Ret a s' ->
  exists k', k <= k' /\ wf_at pol s' k' /\ numframes s' = numframes s.
Proof.
  intros Hwf H.
  assert (Hsz : to_unsigned (pagsz s) <> 0).
  { unfold sim_mmu in H. sim_inv_line. sim_inv_if; [done|]. by apply Z.eqb_neq. }
  pose proof (sim_mmu_wf_at _ _ _ _ _ _ _ _ Hwf H) as Hwf'.
  assert (Hnf : numframes s' = numframes s).
  { destruct (decide (0 <= page_of s va < numpags s)) as [Hpg|Hpg].
    - by destruct (sim_mmu_step_post _ _ _ _ _ _ _ _ Hwf Hpg H) as ((_ & _ & ? & _) & _).
    - rewrite sim_mmu_illegal in H by done. by sim_inv_line. }
  eexists. split; [|split; [exact Hwf'|exact Hnf]].
  repeat case_decide; try destruct (present _); lia.
Qed.

Lemma run_wf_mono pol tr s l s' k :
  wf_at pol s k -> run pol tr s = Ret l s' ->
  exists k', k <= k' /\ wf_at pol s' k' /\ numframes s' = numframes s.
Proof.
  revert s l s' k.
  induction tr as [|[[raw va] op] tr IH]; intros s l s' k Hwf H; cbn [run] in H.
  - sim_inv_line. exists k. split; [lia|done].
  - sim_inv_line.
    match goal with H : sim_mmu _ _ _ _ _ = Ret _ _ |- _ =>
      destruct (sim_mmu_wf_mono _ _ _ _ _ _ _ _ Hwf H) as (k1 & Hk1 & Hwf1 & Hnf1) end.
    match goal with H : run _ _ _ = Ret _ _ |- _ =>
      destruct (IH _ _ _ _ Hwf1 H) as (k2 & Hk2 & Hwf2 & Hnf2) end.
    exists k2. split; [lia|]. split; [done|congruence].
Qed.

Lemma bind_cong {A B : Type} (m : M A) (k1 k2 : A -> M B) s :
  (forall a s1, m s = Ret a s1 -> k1 a s1 = k2 a s1) ->
  bind m k1 s = bind m k2 s.
Proof. intros H. unfold bind. destruct (m s); [by apply H|done..]. Qed.

(** With no free frame the fault handler is the eviction path. *)
Lemma handle_page_fault_no_free pol raw va s :
  listfree s = -1 -> to_unsigned (pagsz s) <> 0 ->
  handle_page_fault pol raw va s =
  (incr numpagefaults set_numpagefaults ;;
   victim <- choose_page_to_be_replaced pol raw ;;
   replace_page victim (page_of s va)) s.
Proof.
  intros Hlf Hsz. unfold handle_page_fault, page_of.
  apply bind_cong. intros [] s1 H. sim_inv_line.
  unfold bind at 1, rd at 1. cbn [pagsz set_numpagefaults].
  destruct (Z.eqb_spec (to_unsigned (pagsz s)) 0); [done|].
  unfold bind at 1, rd at 1. cbn [listfree set_numpagefaults]. by rewrite Hlf.
Qed.

(** The free ring is empty exactly when every frame was handed out. *)
Lemma wf_no_free pol s k :
  wf_at pol s k -> (listfree s = -1 <-> k = numframes s).
Proof.
  intros [_ _ Hnf Hk _ _ _ _ Hlf _]. unfold free_shape in Hlf.
  case_decide; [destruct Hlf as (? & _)|]; lia.
Qed.

(** C10: along a run from the initialised state, in the four variants, the
    free ring of a later state is a suffix of the free ring of an earlier
    one: frames leave it from the front and none comes back.  The fault
    that takes the one frame left sets listfree to -1 and gives this frame
    to the page.  Once listfree is -1 it stays -1 and the free ring stays
    empty; from there handle_page_fault is its eviction branch, and every
    reference that faults evicts a resident page. *)
Theorem free_ring_only_shrinks pol tr1 tr2 s0 l1 s l2 s' :
  sizes_ok s0 ->
  (init_tables pol ;; run pol tr1) s0 = Ret l1 s ->
  run pol tr2 s = Ret l2 s' ->
  (exists fl fl',
     free_ring s = Some fl /\ free_ring s' = Some fl' /\ suffix fl' fl) /\
  (forall f raw va op a s1,
     free_ring s = Some [f] ->
     0 <= page_of s va < numpags s ->
     present (page_at s (page_of s va)) = false ->
     sim_mmu pol raw va op s = Ret a s1 ->
     listfree s1 = -1 /\ free_ring s1 = Some [] /\
     frame (page_at s1 (page_of s va)) = f) /\
  (listfree s = -1 ->
   listfree s' = -1 /\ free_ring s' = Some [] /\
   (forall raw va,
      to_unsigned (pagsz s') <> 0 ->
      handle_page_fault pol raw va s' =
      (incr numpagefaults set_numpagefaults ;;
       victim <- choose_page_to_be_replaced pol raw ;;
       replace_page victim (page_of s' va)) s') /\
   (forall raw va op a s1,
      0 <= page_of s' va < numpags s' ->
      present (page_at s' (page_of s' va)) = false ->
      sim_mmu pol raw va op s' = Ret a s1 ->
      listfree s1 = -1 /\
      exists victim,
        present (page_at s' victim) = true /\
        present (page_at s1 victim) = false)).
Proof.
  intros Hs H1 H2.
  destruct (init_run_wf _ _ _ _ _ Hs H1) as [k Hwf].
  destruct (run_wf_mono _ _ _ _ _ _ Hwf H2) as (k' & Hkk & Hwf' & Hnf).
  assert (Hk : 0 <= k <= numframes s) by (by destruct Hwf).
  assert (Hk' : 0 <= k' <= numframes s') by (by destruct Hwf').
  split; [|split].
  - exists (seqZ k (numframes s - k)), (seqZ k' (numframes s' - k')).
    split; [by eapply wf_free_ring|]. split; [by eapply wf_free_ring|].
    exists (seqZ k (k' - k)).
    replace (numframes s - k) with ((k' - k) + (numframes s' - k')) by lia.
    rewrite (seqZ_app k) by lia. do 2 f_equal; lia.
  - intros f raw va op a s1 Hfr Hpg Hab Hstep.
    rewrite (wf_free_ring _ _ _ Hwf) in Hfr.
    assert (Hlen : Z.to_nat (numframes s - k) = 1%nat).
    { apply (f_equal (fun o => length (default [] o))) in Hfr. cbn in Hfr.
      by rewrite length_seqZ in Hfr. }
    assert (Hkn : numframes s - k = 1) by lia.
    rewrite Hkn, seqZ_one in Hfr. injection Hfr as <-.
    destruct (sim_mmu_step_post _ _ _ _ _ _ _ _ Hwf Hpg Hstep)
      as ((_ & _ & Hnf1 & _) & _ & Hpost).
    unfold step_post in Hpost. rewrite Hab in Hpost.
    rewrite decide_True in Hpost by lia.
    destruct Hpost as (Hwf1 & _ & _ & _ & Hq).
    assert (Hlf1 : listfree s1 = -1) by (apply (wf_no_free _ _ _ Hwf1); lia).
    split; [done|]. split; [unfold free_ring, ring; by rewrite Hlf1|].
    rewrite Hq, decide_True by done.
    destruct (referenced_page_fields pol op (clock s)
                (occupied_page pol k (page_at s (page_of s va)))) as (_ & -> & _).
    by destruct (occupied_page_fields pol k (page_at s (page_of s va))) as (_ & -> & _).
  - intros Hlf. apply (wf_no_free _ _ _ Hwf) in Hlf.
    assert (Hk'n : k' = numframes s') by lia.
    assert (Hlf' : listfree s' = -1) by (by apply (wf_no_free _ _ _ Hwf')).
    split; [done|]. split; [unfold free_ring, ring; by rewrite Hlf'|].
    split; [intros raw va Hsz; by apply handle_page_fault_no_free|].
    intros raw va op a s1 Hpg Hab Hstep.
    destruct (sim_mmu_step_post _ _ _ _ _ _ _ _ Hwf' Hpg Hstep) as (_ & _ & Hpost).
    unfold step_post in Hpost. rewrite Hab in Hpost.
    rewrite decide_False in Hpost by lia.
    destruct Hpost as (v & sc & _ & _ & _ & _ & Hlf1 & _ & _ & Hne & Hvp & Hq).
    split; [done|]. exists v. split; [done|].
    rewrite Hq, decide_False, decide_True by done. done.
Qed.

Lemma free_ring_only_shrinks_witness :
  (exists fl fl',
     free_ring fifo_written = Some fl /\
     free_ring fifo_written_evicted = Some fl' /\ suffix fl' fl) /\
  (forall f raw va op a s1,
     free_ring fifo_written = Some [f] ->
     0 <= page_of fifo_written va < numpags fifo_written ->
     present (page_at fifo_written (page_of fifo_written va)) = false ->
     sim_mmu FIFO raw va op fifo_written = Ret a s1 ->
     listfree s1 = -1 /\ free_ring s1 = Some [] /\
     frame (page_at s1 (page_of fifo_written va)) = f) /\
  listfree fifo_written_evicted = -1 /\
  free_ring fifo_written_evicted = Some [] /\
  (forall raw va,
     to_unsigned (pagsz fifo_written_evicted) <> 0 ->
     handle_page_fault FIFO raw va fifo_written_evicted =
     (incr numpagefaults set_numpagefaults ;;
      victim <- choose_page_to_be_replaced FIFO raw ;;
      replace_page victim (page_of fifo_written_evicted va)) fifo_written_evicted) /\
  (forall raw va op a s1,
     0 <= page_of fifo_written_evicted va < numpags fifo_written_evicted ->
     present (page_at fifo_written_evicted (page_of fifo_written_evicted va)) = false ->
     sim_mmu FIFO raw va op fifo_written_evicted = Ret a s1 ->
     listfree s1 = -1 /\
     exists victim,
       present (page_at fifo_written_evicted victim) = true /\
       present (page_at s1 victim) = false).
Proof.
  assert (Hs : sizes_ok (blank 4096 3 2)).
  { unfold sizes_ok. vm_compute. repeat split; reflexivity. }
  destruct (free_ring_only_shrinks FIFO [Wr 0] [Rd 4096; Rd 8192] (blank 4096 3 2)
              [0] fifo_written [4096; 0] fifo_written_evicted Hs eq_refl eq_refl)
    as (H1 & H2 & _).
  destruct (free_ring_only_shrinks FIFO [Wr 0; Rd 4096] [Rd 8192] (blank 4096 3 2)
              [0; 4096] fifo_written_full [0] fifo_written_evicted Hs eq_refl eq_refl)
    as (_ & _ & H3).
  split; [exact H1|]. split; [exact H2|]. exact (H3 eq_refl).
Defined.

(** ** One reference: counters, clock and address *)

Lemma reference_page_clock pol pg op s u s' :
  reference_page pol pg op s = Ret u s' ->
  clock s' = (if pol is LRU then to_unsigned (clock s + 1) else clock s).
Proof.
  intros H.
  destruct pol; cbn [reference_page] in H;
    unfold Fifo.reference_page, Random.reference_page,
      Fifo2ch.reference_page, Lru.reference_page in H;
    sim_inv; done.
Qed.

(** The fault handler, when sim_mmu runs it, leaves the clock and the
    counters of references alone. *)
Lemma fault_keeps pol raw va s k s1 :
  wf_at pol s k -> 0 <= page_of s va < numpags s ->
  (if present (page_at s (page_of s va)) then s1 = s
   else handle_page_fault pol raw va s = Ret tt s1) ->
  same_cfg s s1 /\ clock s1 = clock s /\
  numrefsread s1 = numrefsread s /\ numrefswrite s1 = numrefswrite s /\
  numillegalrefs s1 = numillegalrefs s.
Proof.
  intros Hwf Hpg H. destruct (present (page_at s (page_of s va))) eqn:Hp.
  - subst s1. by unfold same_cfg.
  - destruct (decide (k < numframes s)) as [Hk|Hk].
    + by destruct (fault_free_spec _ _ _ _ _ _ _ Hwf Hk Hpg Hp H)
        as (_ & ? & _ & ? & ? & _ & ? & ? & _).
    + assert (k = numframes s) as -> by (destruct Hwf; lia).
      by destruct (fault_evict_spec _ _ _ _ _ _ Hwf Hpg Hp H)
        as (v & s2 & _ & _ & _ & ? & _ & ? & ? & ? & ? & _).
Qed.

(** A legal reference that returned: the counters it moved, the clock, and
    the address, computed from the frame the page has in the end. *)
Lemma sim_mmu_counts pol raw va op s k pa s' :
  wf_at pol s k -> 0 <= page_of s va < numpags s ->
  sim_mmu pol raw va op s = Ret pa s' ->
  numrefsread s' = numrefsread s + (if Ascii.eqb op "R" then 1 else 0) /\
  numrefswrite s' =
    numrefswrite s + (if Ascii.eqb op "R" then 0 else if Ascii.eqb op "W" then 1 else 0) /\
  numillegalrefs s' = numillegalrefs s /\
  clock s' = (if pol is LRU then to_unsigned (clock s + 1) else clock s) /\
  present (page_at s' (page_of s va)) = true /\
  INT_MIN <= frame (page_at s' (page_of s va)) * pagsz s + offset_of s va <= INT_MAX /\
  pa = to_unsigned (frame (page_at s' (page_of s va)) * pagsz s + offset_of s va).
Proof.
  intros Hwf Hpg H.
  pose proof (sim_mmu_legal _ _ _ _ _ _ _ Hpg H) as (s1 & Hf & _ & Hr & Hrange & Hpa).
  destruct (fault_keeps _ _ _ _ _ _ Hwf Hpg Hf)
    as ((Hsz & _) & Hclk & Hrd & Hwr & Hill).
  pose proof (reference_page_full _ _ _ _ _ _ Hr) as (_ & Hcr & Hcw).
  pose proof (reference_page_clock _ _ _ _ _ _ Hr) as Hc.
  pose proof (reference_page_spec _ _ _ _ _ _ Hr)
    as (_ & _ & _ & _ & _ & _ & _ & _ & _ & Hi & Hpf & _).
  destruct (Hpf (page_of s va)) as [Hpr Hfr].
  assert (Hp1 : present (page_at s1 (page_of s va)) = true).
  { destruct (after_fault_facts pol raw va s tt s1 (ex_intro _ k Hwf) Hpg)
      as (_ & _ & ? & _); [|done].
    destruct (present (page_at s (page_of s va))); cbn [negb]; [by subst|done]. }
  rewrite Hfr, Hpr, Hc, Hclk, Hcr, Hcw, Hrd, Hwr, Hi, Hill. rewrite Hsz in *.
  done.
Qed.

(** Induction on a run from a well-formed state. *)
Lemma run_invariant pol (I : ssystem -> Prop) :
  (forall raw va op s a s',
     wf pol s -> I s -> sim_mmu pol raw va op s = Ret a s' -> I s') ->
  forall tr s l s', wf pol s -> I s -> run pol tr s = Ret l s' -> I s'.
Proof.
  intros Hstep tr. induction tr as [|[[raw va] op] tr IH]; intros s l s' Hwf HI H;
    cbn [run] in H.
  - by sim_inv_line.
  - sim_inv_line.
    match goal with H : sim_mmu _ _ _ _ _ = Ret _ _ |- _ =>
      pose proof (sim_mmu_wf _ _ _ _ _ _ _ Hwf H);
      pose proof (Hstep _ _ _ _ _ _ Hwf HI H) end.
    by eapply IH.
Qed.

(** No reference changes the configuration. *)
Lemma sim_mmu_same_cfg pol raw va op s a s' :
  wf pol s -> sim_mmu pol raw va op s = Ret a s' -> same_cfg s s'.
Proof.
  intros [k Hwf] H.
  assert (Hsz : to_unsigned (pagsz s) <> 0).
  { unfold sim_mmu in H. sim_inv_line. sim_inv_if; [done|]. by apply Z.eqb_neq. }
  destruct (decide (0 <= page_of s va < numpags s)) as [Hpg|Hpg].
  - by destruct (sim_mmu_step_post _ _ _ _ _ _ _ _ Hwf Hpg H) as (? & _).
  - rewrite sim_mmu_illegal in H by done. sim_inv_line. by unfold same_cfg.
Qed.

Lemma run_same_cfg pol tr s l s' :
  wf pol s -> run pol tr s = Ret l s' -> same_cfg s s'.
Proof.
  intros Hwf H.
  apply (run_invariant pol (fun x => same_cfg s x)) in H; [done| |done|by unfold same_cfg].
  intros raw va op x a x' Hx (? & ? & ? & ? & ?) Hst.
  destruct (sim_mmu_same_cfg _ _ _ _ _ _ _ Hx Hst) as (? & ? & ? & ? & ?).
  unfold same_cfg. repeat split; congruence.
Qed.

(** The state in which a run from the initialised state begins. *)
Lemma init_run_split pol tr s0 l s :
  sizes_ok s0 -> (init_tables pol ;; run pol tr) s0 = Ret l s ->
  exists sI, init_tables pol s0 = Ret tt sI /\ run pol tr sI = Ret l s /\
             wf_at pol sI 0 /\ init_post s0 sI.
Proof.
  intros (Hp & Hf & Hn) H. sim_inv_step.
  match goal with H : init_tables _ _ = Ret ?u _ |- _ => destruct u end.
  eexists. split; [done|]. split; [done|].
  split; [by eapply init_tables_wf | by eapply init_tables_spec].
Qed.

(** ** The two tables, and the addresses *)

Lemma to_unsigned_small z : 0 <= z < UINT_MOD -> to_unsigned z = z.
Proof. intros H. unfold to_unsigned. by apply Z.mod_small. Qed.

Lemma to_int_small z : 0 <= z <= INT_MAX -> to_int z = z.
Proof.
  intros H. unfold to_int, UINT_MOD, INT_MAX in *.
  rewrite Z.mod_small by lia. destruct (Z.leb_spec z (2 ^ 31 - 1)); lia.
Qed.

Lemma to_int_large z : INT_MAX < z < UINT_MOD -> to_int z < 0.
Proof.
  intros H. unfold to_int, UINT_MOD, INT_MAX in *.
  rewrite Z.mod_small by lia. destruct (Z.leb_spec z (2 ^ 31 - 1)); lia.
Qed.

(** The page number sim_mmu computes is inside the page table exactly when
    the quotient is. *)
Lemma page_of_in_table s va :
  is_unsigned va -> 0 < pagsz s <= INT_MAX -> numpags s <= INT_MAX ->
  to_unsigned (pagsz s) = pagsz s /\
  offset_of s va = va mod pagsz s /\
  (0 <= va / pagsz s < numpags s -> page_of s va = va / pagsz s) /\
  (0 <= page_of s va < numpags s <-> 0 <= va / pagsz s < numpags s).
Proof.
  intros [Hv0 Hv1] Hsz Hnp.
  assert (Hu : to_unsigned (pagsz s) = pagsz s).
  { apply to_unsigned_small. unfold UINT_MOD, INT_MAX in *. lia. }
  pose proof (Z.mod_pos_bound va (pagsz s) ltac:(lia)) as Hm.
  assert (Hq : 0 <= va / pagsz s <= va).
  { split; [apply Z.div_pos; lia|]. apply Z.div_le_upper_bound; nia. }
  unfold page_of, offset_of. rewrite Hu.
  split; [done|]. split; [apply to_int_small; lia|].
  split; [intros ?; apply to_int_small; lia|].
  destruct (decide (va / pagsz s <= INT_MAX)) as [Hle|Hgt].
  - by rewrite to_int_small by lia.
  - pose proof (to_int_large (va / pagsz s) ltac:(lia)). lia.
Qed.

(** X1: in every state a run from init_tables reaches, in the four
    variants, the page table and the frame table are inverse of each
    other: a resident page points to a frame of the table that points back
    to it, a frame that holds a page holds a resident page that points
    back to it, and two resident pages never share a frame. *)
Theorem tables_inverse pol tr s0 l s :
  sizes_ok s0 -> (init_tables pol ;; run pol tr) s0 = Ret l s ->
  (forall p, 0 <= p < numpags s -> present (page_at s p) = true ->
     0 <= frame (page_at s p) < numframes s /\
     page (frame_at s (frame (page_at s p))) = p) /\
  (forall i, 0 <= i < numframes s -> page (frame_at s i) <> -1 ->
     0 <= page (frame_at s i) < numpags s /\
     present (page_at s (page (frame_at s i))) = true /\
     frame (page_at s (page (frame_at s i))) = i) /\
  (forall p q, 0 <= p < numpags s -> 0 <= q < numpags s ->
     present (page_at s p) = true -> present (page_at s q) = true ->
     frame (page_at s p) = frame (page_at s q) -> p = q).
Proof.
  intros Hs H. destruct (init_run_wf _ _ _ _ _ Hs H) as [k Hwf].
  destruct Hwf as [_ _ _ Hk Hocc Hun Hpres _ _ _].
  split; [|split].
  - intros p Hp Hpr. destruct (Hpres p Hp Hpr) as [? ?]. split; [lia|done].
  - intros i Hi Hne. destruct (decide (i < k)) as [Hlt|Hge].
    + apply Hocc. lia.
    + destruct Hne. apply Hun. lia.
  - intros p q Hp Hq Hpp Hpq Heq.
    destruct (Hpres p Hp Hpp) as [_ <-]. destruct (Hpres q Hq Hpq) as [_ <-].
    by rewrite Heq.
Qed.

Lemma tables_inverse_witness :
  (forall p, 0 <= p < numpags fifo_written_evicted ->
     present (page_at fifo_written_evicted p) = true ->
     0 <= frame (page_at fifo_written_evicted p) < numframes fifo_written_evicted /\
     page (frame_at fifo_written_evicted (frame (page_at fifo_written_evicted p))) = p) /\
  (forall i, 0 <= i < numframes fifo_written_evicted ->
     page (frame_at fifo_written_evicted i) <> -1 ->
     0 <= page (frame_at fifo_written_evicted i) < numpags fifo_written_evicted /\
     present (page_at fifo_written_evicted (page (frame_at fifo_written_evicted i)))
       = true /\
     frame (page_at fifo_written_evicted (page (frame_at fifo_written_evicted i))) = i) /\
  (forall p q, 0 <= p < numpags fifo_written_evicted ->
     0 <= q < numpags fifo_written_evicted ->
     present (page_at fifo_written_evicted p) = true ->
     present (page_at fifo_written_evicted q) = true ->
     frame (page_at fifo_written_evicted p) = frame (page_at fifo_written_evicted q) ->
     p = q).
Proof.
  apply (tables_inverse FIFO [Wr 0; Rd 4096; Rd 8192] (blank 4096 3 2) [0; 4096; 0]).
  - unfold sizes_ok. vm_compute. repeat split; reflexivity.
  - reflexivity.
Defined.

(** X2: sim_mmu, called with a page size and a page count that are
    positive [int]s in a state a run from init_tables reaches, returns the
    sentinel [~0U] exactly when the page number is outside the page
    table.  Otherwise the address it returns lies in the physical memory,
    [0 .. numframes * pagsz - 1], in the frame the page has when the call
    returns, at the offset of the virtual address. *)
Theorem physical_address_law pol tr s0 l s raw va op pa s' :
  sizes_ok s0 -> (init_tables pol ;; run pol tr) s0 = Ret l s ->
  0 < pagsz s <= INT_MAX -> numpags s <= INT_MAX -> is_unsigned va ->
  sim_mmu pol raw va op s = Ret pa s' ->
  (pa = INVALID_ADDR <-> ~ (0 <= va / pagsz s < numpags s)) /\
  (0 <= va / pagsz s < numpags s ->
     present (page_at s' (va / pagsz s)) = true /\
     0 <= pa < numframes s * pagsz s /\
     pa / pagsz s = frame (page_at s' (va / pagsz s)) /\
     pa mod pagsz s = va mod pagsz s).
Proof.
  intros Hs Hrun Hsz Hnp Hva H.
  destruct (init_run_wf _ _ _ _ _ Hs Hrun) as [k Hwf].
  destruct (page_of_in_table s va Hva Hsz Hnp) as (Hu & Hoff & Hpo & Hiff).
  pose proof (Z.mod_pos_bound va (pagsz s) ltac:(lia)) as Hm.
  destruct (decide (0 <= va / pagsz s < numpags s)) as [Hq|Hq].
  - assert (Hpg : 0 <= page_of s va < numpags s) by (by apply Hiff).
    destruct (sim_mmu_counts _ _ _ _ _ _ _ _ Hwf Hpg H)
      as (_ & _ & _ & _ & Hpr & Hrange & ->).
    destruct (sim_mmu_wf _ _ _ _ _ _ _ (ex_intro _ k Hwf) H) as [k' Hwf'].
    destruct (sim_mmu_same_cfg _ _ _ _ _ _ _ (ex_intro _ k Hwf) H)
      as (_ & Hnp' & Hnf' & _).
    pose proof Hwf' as [_ _ _ Hk' _ _ Hpres _ _ _].
    destruct (Hpres (page_of s va) ltac:(lia) Hpr) as [Hfr _].
    rewrite Hpo in * by done. rewrite Hoff in *.
    set (f := frame (page_at s' (va / pagsz s))) in *.
    assert (Hv : 0 <= f * pagsz s + va mod pagsz s <= INT_MAX) by nia.
    rewrite to_unsigned_small by (unfold UINT_MOD, INT_MAX in *; lia).
    split.
    + split; [|done]. unfold INVALID_ADDR, UINT_MOD, INT_MAX in *. lia.
    + intros _. split; [done|]. split; [nia|]. split.
      * symmetry. apply (Z.div_unique_pos _ _ _ (va mod pagsz s)); lia.
      * symmetry. apply (Z.mod_unique_pos _ _ f); lia.
  - assert (Hpg : ~ (0 <= page_of s va < numpags s)) by (by rewrite Hiff).
    rewrite sim_mmu_illegal in H by (done || lia). sim_inv_line.
    split; [done|]. intros ?. done.
Qed.

Lemma physical_address_law_witness :
  (4196 = INVALID_ADDR <->
   ~ (0 <= 4196 / pagsz fifo_written_full < numpags fifo_written_full)) /\
  (0 <= 4196 / pagsz fifo_written_full < numpags fifo_written_full ->
     present (page_at (final_state (sim_mmu FIFO 0 4196 "R" fifo_written_full)
                         fifo_written_full)
                (4196 / pagsz fifo_written_full)) = true /\
     0 <= 4196 < numframes fifo_written_full * pagsz fifo_written_full /\
     4196 / pagsz fifo_written_full =
       frame (page_at (final_state (sim_mmu FIFO 0 4196 "R" fifo_written_full)
                         fifo_written_full)
                (4196 / pagsz fifo_written_full)) /\
     4196 mod pagsz fifo_written_full = 4196 mod pagsz fifo_written_full).
Proof.
  apply (physical_address_law FIFO [Wr 0; Rd 4096] (blank 4096 3 2) [0; 4096]
           fifo_written_full 0 4196 "R").
  - unfold sizes_ok. vm_compute. repeat split; reflexivity.
  - reflexivity.
  - vm_compute. split; [reflexivity | discriminate].
  - vm_compute. discriminate.
  - unfold is_unsigned. vm_compute. split; [discriminate | reflexivity].
  - reflexivity.
Defined.

(** ** Hits, counters and cold faults *)

(** The number of frames handed out is determined by the state. *)
Lemma wf_at_unique pol s k k' : wf_at pol s k -> wf_at pol s k' -> k = k'.
Proof.
  intros [_ _ Hnf Hk _ _ _ _ Hlf _] [_ _ _ Hk' _ _ _ _ Hlf' _].
  unfold free_shape in *.
  destruct (decide (k < numframes s)), (decide (k' < numframes s));
    try destruct Hlf as (? & ? & _); try destruct Hlf' as (? & ? & _);
    try lia; congruence.
Qed.

(** Induction on a run, for an invariant that mentions the number of
    frames handed out. *)
Lemma run_invariant_at pol (I : ssystem -> Z -> Prop) :
  (forall raw va op s k a s' k',
     wf_at pol s k -> I s k -> sim_mmu pol raw va op s = Ret a s' ->
     wf_at pol s' k' -> I s' k') ->
  forall tr s k l s',
    wf_at pol s k -> I s k -> run pol tr s = Ret l s' ->
    exists k', wf_at pol s' k' /\ I s' k'.
Proof.
  intros Hstep tr.
  induction tr as [|[[raw va] op] tr IH]; intros s k l s' Hwf HI H; cbn [run] in H.
  - sim_inv_line. by exists k.
  - sim_inv_line.
    match goal with H : sim_mmu _ _ _ _ _ = Ret _ _ |- _ =>
      pose proof (sim_mmu_wf_at _ _ _ _ _ _ _ _ Hwf H) as Hwf1;
      pose proof (Hstep _ _ _ _ _ _ _ _ Hwf HI H Hwf1) as HI1 end.
    by eapply IH.
Qed.

(** X3: a reference to a resident page is a hit, in the four variants and
    in every state a run from init_tables reaches: sim_mmu counts no page
    fault and no write-back, leaves the frame table and the two rings as
    they are, and changes no page descriptor but the one referenced, which
    stays resident in its frame and becomes modified if the operation is a
    write. *)
Theorem hit_law pol tr s0 l s raw va op pa s' :
  sizes_ok s0 -> (init_tables pol ;; run pol tr) s0 = Ret l s ->
  0 <= page_of s va < numpags s ->
  present (page_at s (page_of s va)) = true ->
  sim_mmu pol raw va op s = Ret pa s' ->
  numpagefaults s' = numpagefaults s /\ numpgwriteback s' = numpgwriteback s /\
  numillegalrefs s' = numillegalrefs s /\
  frt s' = frt s /\ listfree s' = listfree s /\ listoccupied s' = listoccupied s /\
  (forall q, q <> page_of s va -> page_at s' q = page_at s q) /\
  present (page_at s' (page_of s va)) = true /\
  frame (page_at s' (page_of s va)) = frame (page_at s (page_of s va)) /\
  modified (page_at s' (page_of s va)) =
    modified (page_at s (page_of s va)) || Ascii.eqb op "W" /\
  pa = to_unsigned (frame (page_at s (page_of s va)) * pagsz s + offset_of s va).
Proof.
  intros Hs Hrun Hpg Hp H.
  destruct (init_run_wf _ _ _ _ _ Hs Hrun) as [k Hwf].
  destruct (sim_mmu_step_post _ _ _ _ _ _ _ _ Hwf Hpg H) as (_ & _ & Hpost).
  destruct (sim_mmu_counts _ _ _ _ _ _ _ _ Hwf Hpg H)
    as (_ & _ & Hill & _ & _ & _ & Hpa).
  unfold step_post in Hpost. rewrite Hp in Hpost.
  destruct Hpost as (_ & Hfrt & Hlf & Hlo & Hpf & Hwb & Hq).
  destruct (referenced_page_fields pol op (clock s) (page_at s (page_of s va)))
    as (Hf1 & Hf2 & _).
  pose proof (referenced_page_modified pol op (clock s) (page_at s (page_of s va))) as Hf3.
  pose proof (Hq (page_of s va)) as Hq0. rewrite decide_True in Hq0 by done.
  rewrite Hq0 in *. rewrite Hf1, Hf2, Hf3 in *.
  repeat (split; [done|]). split; [|done].
  intros q Hne. by rewrite Hq, decide_False.
Qed.

Lemma hit_law_witness :
  let s' := final_state (sim_mmu FIFO 0 4196 "W" fifo_written_full) fifo_written_full in
  numpagefaults s' = numpagefaults fifo_written_full /\
  numpgwriteback s' = numpgwriteback fifo_written_full /\
  numillegalrefs s' = numillegalrefs fifo_written_full /\
  frt s' = frt fifo_written_full /\ listfree s' = listfree fifo_written_full /\
  listoccupied s' = listoccupied fifo_written_full /\
  (forall q, q <> page_of fifo_written_full 4196 ->
     page_at s' q = page_at fifo_written_full q) /\
  present (page_at s' (page_of fifo_written_full 4196)) = true /\
  frame (page_at s' (page_of fifo_written_full 4196)) =
    frame (page_at fifo_written_full (page_of fifo_written_full 4196)) /\
  modified (page_at s' (page_of fifo_written_full 4196)) =
    modified (page_at fifo_written_full (page_of fifo_written_full 4196))
    || Ascii.eqb "W" "W" /\
  4196 = to_unsigned (frame (page_at fifo_written_full (page_of fifo_written_full 4196))
                      * pagsz fifo_written_full + offset_of fifo_written_full 4196).
Proof.
  apply (hit_law FIFO [Wr 0; Rd 4096] (blank 4096 3 2) [0; 4096]
           fifo_written_full 0 4196 "W").
  - unfold sizes_ok. vm_compute. repeat split; reflexivity.
  - reflexivity.
  - vm_compute. split; [discriminate | reflexivity].
  - reflexivity.
  - reflexivity.
Defined.

Lemma legal_ref_spec s e :
  legal_ref (pagsz s) (numpags s) e = true <-> 0 <= page_of s e.1.2 < numpags s.
Proof.
  unfold legal_ref, page_of.
  destruct (Z.ltb_spec (to_int (e.1.2 / to_unsigned (pagsz s))) 0),
    (Z.geb_spec (to_int (e.1.2 / to_unsigned (pagsz s))) (numpags s));
    cbn; split; (done || lia).
Qed.

Lemma count_refs_nonneg f tr : 0 <= count_refs f tr.
Proof. induction tr as [|e tr IH]; cbn [count_refs]; [done|]. destruct (f e); lia. Qed.

(** The counters of references along a run. *)
Lemma run_accounting pol tr s l s' :
  wf pol s -> run pol tr s = Ret l s' ->
  length l = length tr /\
  numillegalrefs s' =
    numillegalrefs s +
    count_refs (fun e => negb (legal_ref (pagsz s) (numpags s) e)) tr /\
  numrefsread s' =
    numrefsread s +
    count_refs (fun e => legal_ref (pagsz s) (numpags s) e && Ascii.eqb e.2 "R") tr /\
  numrefswrite s' =
    numrefswrite s +
    count_refs (fun e => legal_ref (pagsz s) (numpags s) e && Ascii.eqb e.2 "W") tr /\
  numpagefaults s <= numpagefaults s' <=
    numpagefaults s + count_refs (legal_ref (pagsz s) (numpags s)) tr.
Proof.
  revert s l s'. induction tr as [|[[raw va] op] tr IH]; intros s l s' Hwf H;
    cbn [run] in H.
  - sim_inv_line. cbn [count_refs length]. lia.
  - sim_inv_line.
    match goal with H : sim_mmu _ _ _ _ _ = Ret _ _ |- _ => rename H into Hst end.
    match goal with H : run _ _ _ = Ret _ _ |- _ => rename H into Hrun end.
    pose proof (sim_mmu_wf _ _ _ _ _ _ _ Hwf Hst) as Hwf1.
    destruct (sim_mmu_same_cfg _ _ _ _ _ _ _ Hwf Hst) as (Hsz & Hnp & _).
    destruct (IH _ _ _ Hwf1 Hrun) as (Hlen & Hi & Hr & Hw & Hf).
    rewrite Hsz, Hnp in *. cbn [count_refs length fst snd].
    split; [by rewrite Hlen|].
    assert (Hsz0 : to_unsigned (pagsz s) <> 0).
    { unfold sim_mmu in Hst. sim_inv_line. sim_inv_if; [done|]. by apply Z.eqb_neq. }
    destruct (legal_ref (pagsz s) (numpags s) (raw, va, op)) eqn:Hleg.
    + apply legal_ref_spec in Hleg. cbn [fst snd] in Hleg.
      destruct Hwf as [k Hwf].
      destruct (sim_mmu_counts _ _ _ _ _ _ _ _ Hwf Hleg Hst)
        as (Hr1 & Hw1 & Hi1 & _).
      destruct (sim_mmu_step_post _ _ _ _ _ _ _ _ Hwf Hleg Hst)
        as (_ & (_ & _ & Hf1 & _) & _).
      cbn [negb andb].
      destruct (Ascii.eqb op "R") eqn:ER.
      * apply Ascii.eqb_eq in ER. subst op.
        change (Ascii.eqb "R" "W") with false. cbv iota. lia.
      * destruct (Ascii.eqb op "W"); lia.
    + assert (Hill : ~ (0 <= page_of s va < numpags s)).
      { intros Hc. apply (legal_ref_spec s (raw, va, op)) in Hc. congruence. }
      rewrite sim_mmu_illegal in Hst by done. sim_inv_line. cbn [negb andb]. lia.
Qed.

(** X4: along a run from init_tables that returned, in the four variants,
    sim_mmu returned one address per reference, and the counters moved as
    follows: numillegalrefs by the number of references whose page number
    is outside the page table, numrefsread and numrefswrite by the number
    of references inside it whose operation is 'R', respectively 'W' (a
    reference with another operation is translated but counted by
    neither), and numpagefaults by no more than the number of references
    inside the page table. *)
Theorem reference_accounting pol tr s0 l s :
  sizes_ok s0 -> (init_tables pol ;; run pol tr) s0 = Ret l s ->
  length l = length tr /\
  numillegalrefs s =
    numillegalrefs s0 +
    count_refs (fun e => negb (legal_ref (pagsz s0) (numpags s0) e)) tr /\
  numrefsread s =
    numrefsread s0 +
    count_refs (fun e => legal_ref (pagsz s0) (numpags s0) e && Ascii.eqb e.2 "R") tr /\
  numrefswrite s =
    numrefswrite s0 +
    count_refs (fun e => legal_ref (pagsz s0) (numpags s0) e && Ascii.eqb e.2 "W") tr /\
  numpagefaults s0 <= numpagefaults s <=
    numpagefaults s0 + count_refs (legal_ref (pagsz s0) (numpags s0)) tr.
Proof.
  intros Hs H.
  destruct (init_run_split _ _ _ _ _ Hs H) as (sI & _ & Hrun & Hwf & Hpost).
  destruct Hpost as ((Hsz & Hnp & _) & Hr & Hw & Hf & _ & Hi & _).
  pose proof (run_accounting _ _ _ _ _ (ex_intro _ 0 Hwf) Hrun) as Hacc.
  by rewrite Hsz, Hnp, Hr, Hw, Hf, Hi in Hacc.
Qed.

Lemma reference_accounting_witness :
  let tr := [Wr 0; Rd 4096; (0, 100, "X"%char); Rd 20000; Rd 8192] in
  let s0 := blank 4096 3 2 in
  let s := final_state ((init_tables LRU ;; run LRU tr) s0) s0 in
  length [0; 4096; 100; INVALID_ADDR; 4096] = length tr /\
  numillegalrefs s =
    numillegalrefs s0 +
    count_refs (fun e => negb (legal_ref (pagsz s0) (numpags s0) e)) tr /\
  numrefsread s =
    numrefsread s0 +
    count_refs (fun e => legal_ref (pagsz s0) (numpags s0) e && Ascii.eqb e.2 "R") tr /\
  numrefswrite s =
    numrefswrite s0 +
    count_refs (fun e => legal_ref (pagsz s0) (numpags s0) e && Ascii.eqb e.2 "W") tr /\
  numpagefaults s0 <= numpagefaults s <=
    numpagefaults s0 + count_refs (legal_ref (pagsz s0) (numpags s0)) tr.
Proof.
  intros tr s0 s.
  apply (reference_accounting LRU tr s0 [0; 4096; 100; INVALID_ADDR; 4096] s).
  - unfold sizes_ok. vm_compute. repeat split; reflexivity.
  - vm_compute. reflexivity.
Defined.

(** One legal reference, by cases: what happens to the fault and
    write-back counters and to the number of frames handed out. *)
Lemma sim_mmu_fault_counts pol raw va op s k pa s' k' :
  wf_at pol s k -> sim_mmu pol raw va op s = Ret pa s' -> wf_at pol s' k' ->
  numframes s' = numframes s /\
  ((k' = k /\ numpagefaults s' = numpagefaults s /\
    numpgwriteback s' = numpgwriteback s) \/
   (k < numframes s /\ k' = k + 1 /\ numpagefaults s' = numpagefaults s + 1 /\
    numpgwriteback s' = numpgwriteback s) \/
   (k = numframes s /\ k' = k /\ numpagefaults s' = numpagefaults s + 1 /\
    numpgwriteback s <= numpgwriteback s' <= numpgwriteback s + 1)).
Proof.
  intros Hwf H Hwf'.
  pose proof (sim_mmu_wf_at _ _ _ _ _ _ _ _ Hwf H) as Hwf1.
  pose proof (wf_at_unique _ _ _ _ Hwf' Hwf1) as Hk'.
  destruct (sim_mmu_same_cfg _ _ _ _ _ _ _ (ex_intro _ k Hwf) H) as (_ & _ & Hnf & _).
  split; [done|].
  assert (Hsz : to_unsigned (pagsz s) <> 0).
  { unfold sim_mmu in H. sim_inv_line. sim_inv_if; [done|]. by apply Z.eqb_neq. }
  assert (Hk : 0 <= k <= numframes s) by (by destruct Hwf).
  case_decide as Hpg.
  - destruct (sim_mmu_step_post _ _ _ _ _ _ _ _ Hwf Hpg H) as (_ & _ & Hpost).
    unfold step_post in Hpost.
    destruct (present (page_at s (page_of s va))).
    + left. by destruct Hpost as (_ & _ & _ & _ & ? & ? & _).
    + case_decide.
      * right; left. by destruct Hpost as (_ & ? & ? & _).
      * right; right. destruct Hpost as (v & s1 & _ & _ & ? & Hwb & _).
        destruct (modified (page_at s v)); repeat split; lia.
  - left. rewrite sim_mmu_illegal in H by done. by sim_inv_line.
Qed.

(** X5: along a run from init_tables, in the four variants, no page is
    written back while a free frame remains: until the free ring is empty
    every page fault has taken one free frame, so the faults counted so
    far are as many as the frames in use and numpgwriteback has not moved.
    In every state the write-backs counted are at most the faults counted
    minus the frames in use. *)
Theorem cold_faults_write_nothing_back pol tr s0 l s :
  sizes_ok s0 -> (init_tables pol ;; run pol tr) s0 = Ret l s ->
  exists fl,
    free_ring s = Some fl /\
    numpgwriteback s0 <= numpgwriteback s /\
    numpgwriteback s - numpgwriteback s0 + (numframes s - Z.of_nat (length fl))
      <= numpagefaults s - numpagefaults s0 /\
    (fl <> [] ->
     numpgwriteback s = numpgwriteback s0 /\
     numpagefaults s - numpagefaults s0 = numframes s - Z.of_nat (length fl)).
Proof.
  intros Hs H.
  destruct (init_run_split _ _ _ _ _ Hs H) as (sI & _ & Hrun & Hwf & Hpost).
  destruct Hpost as (_ & _ & _ & Hf & Hb & _).
  set (I := fun (x : ssystem) (k : Z) =>
       numpgwriteback s0 <= numpgwriteback x /\
       numpgwriteback x - numpgwriteback s0 + k <= numpagefaults x - numpagefaults s0 /\
       (k < numframes x ->
        numpgwriteback x = numpgwriteback s0 /\
        numpagefaults x - numpagefaults s0 = k)).
  assert (Hstep : forall raw va op x kx a x' kx',
            wf_at pol x kx -> I x kx -> sim_mmu pol raw va op x = Ret a x' ->
            wf_at pol x' kx' -> I x' kx').
  { intros raw va op x kx a x' kx' Hx (Hi1 & Hi2 & Hi3) Hst Hx'. unfold I.
    destruct (sim_mmu_fault_counts _ _ _ _ _ _ _ _ _ Hx Hst Hx')
      as (Hnf & [(-> & Hpf & Hwb)|[(Hlt & -> & Hpf & Hwb)|(Heq & -> & Hpf & Hwb)]]);
      rewrite Hnf; lia. }
  assert (HI0 : I sI 0) by (unfold I; lia).
  destruct (run_invariant_at pol I Hstep tr sI 0 l s Hwf HI0 Hrun)
    as (k & Hwfk & Hw0 & Hle & Hcold).
  exists (seqZ k (numframes s - k)). split; [by eapply wf_free_ring|].
  assert (Hk : 0 <= k <= numframes s) by (by destruct Hwfk).
  rewrite length_seqZ. split; [done|]. split; [lia|].
  intros Hne. assert (k < numframes s).
  { destruct (decide (k < numframes s)); [done|]. destruct Hne.
    replace (numframes s - k) with 0 by lia. done. }
  destruct (Hcold ltac:(done)). lia.
Qed.

Lemma cold_faults_write_nothing_back_witness :
  exists fl,
    free_ring fifo_written = Some fl /\
    numpgwriteback (blank 4096 3 2) <= numpgwriteback fifo_written /\
    numpgwriteback fifo_written - numpgwriteback (blank 4096 3 2)
      + (numframes fifo_written - Z.of_nat (length fl))
      <= numpagefaults fifo_written - numpagefaults (blank 4096 3 2) /\
    (fl <> [] ->
     numpgwriteback fifo_written = numpgwriteback (blank 4096 3 2) /\
     numpagefaults fifo_written - numpagefaults (blank 4096 3 2) =
       numframes fifo_written - Z.of_nat (length fl)).
Proof.
  apply (cold_faults_write_nothing_back FIFO [Wr 0] (blank 4096 3 2) [0]).
  - unfold sizes_ok. vm_compute. repeat split; reflexivity.
  - reflexivity.
Defined.

(** ** FIFO: the frames are used in turn *)

Lemma mod_succ_ring n m :
  0 < m -> 0 <= n - 1 ->
  (if decide ((n - 1) mod m = m - 1) then 0 else (n - 1) mod m + 1) = n mod m.
Proof.
  intros Hm Hn. pose proof (Z.mod_pos_bound (n - 1) m Hm) as Hr.
  pose proof (Z.div_mod (n - 1) m ltac:(lia)) as Hd.
  case_decide as He.
  - apply (Z.mod_unique_pos _ _ ((n - 1) / m + 1)); lia.
  - apply (Z.mod_unique_pos _ _ ((n - 1) / m)); lia.
Qed.

Lemma fifo_turn_step pf0 raw va op s k pa s' k' :
  wf_at FIFO s k -> fifo_turn pf0 s k ->
  sim_mmu FIFO raw va op s = Ret pa s' -> wf_at FIFO s' k' ->
  fifo_turn pf0 s' k' /\
  (0 <= page_of s va < numpags s ->
   present (page_at s (page_of s va)) = false ->
   numpagefaults s' = numpagefaults s + 1 /\
   frame (page_at s' (page_of s va)) = (numpagefaults s - pf0) mod numframes s /\
   forall q, 0 <= q < numpags s -> present (page_at s q) = true ->
     present (page_at s' q) =
     negb (frame (page_at s q) =? (numpagefaults s - pf0) mod numframes s)).
Proof.
  intros Hwf [Hcold Hfull] H Hwf'.
  pose proof (sim_mmu_wf_at _ _ _ _ _ _ _ _ Hwf H) as Hwf1.
  pose proof (wf_at_unique _ _ _ _ Hwf' Hwf1) as Hk'.
  destruct (sim_mmu_same_cfg _ _ _ _ _ _ _ (ex_intro _ k Hwf) H) as (_ & _ & Hnf & _).
  assert (Hsz : to_unsigned (pagsz s) <> 0).
  { unfold sim_mmu in H. sim_inv_line. sim_inv_if; [done|]. by apply Z.eqb_neq. }
  pose proof Hwf as [_ _ Hnf0 Hk Hocc _ Hpres _ _ _].
  unfold fifo_turn. rewrite Hnf.
  case_decide as Hpg.
  2:{ rewrite sim_mmu_illegal in H by done. sim_inv_line. subst k'.
      split; [split; [apply Hcold | apply Hfull]|]. intros ?. done. }
  destruct (sim_mmu_step_post _ _ _ _ _ _ _ _ Hwf Hpg H) as (_ & _ & Hpost).
  unfold step_post in Hpost.
  destruct (present (page_at s (page_of s va))) eqn:Hp.
  { destruct Hpost as (_ & _ & _ & Hlo & Hpf & _). subst k'. rewrite Hlo, Hpf.
    split; [split; [apply Hcold | apply Hfull]|]. intros _ ?. done. }
  case_decide as Hlt.
  - (* a free frame: frame [k] *)
    destruct Hpost as (_ & Hpf & _ & Hlo & Hq). specialize (Hlo eq_refl).
    specialize (Hcold Hlt). subst k'. rewrite Hpf, Hlo.
    assert (Hm : (numpagefaults s - pf0) mod numframes s = k)
      by (rewrite Hcold; apply Z.mod_small; lia).
    split.
    + split; [lia|]. intros Heq. split; [lia|].
      replace (numpagefaults s + 1 - pf0 - 1) with k by lia.
      symmetry. apply Z.mod_small. lia.
    + intros _ _. split; [done|]. rewrite Hm. split.
      * rewrite Hq, decide_True by done.
        destruct (referenced_page_fields FIFO op (clock s)
                    (occupied_page FIFO k (page_at s (page_of s va)))) as (_ & -> & _).
        done.
      * intros q Hq0 Hqp.
        assert (q <> page_of s va) by congruence.
        rewrite Hq, decide_False, Hqp by done.
        destruct (Hpres q Hq0 Hqp) as [? _].
        destruct (Z.eqb_spec (frame (page_at s q)) k); [lia|done].
  - (* no free frame: the frame after the anchor *)
    assert (k = numframes s) as -> by lia. subst k'.
    destruct (Hfull eq_refl) as [Hn Hlo0].
    destruct Hpost as (v & s1 & Hc & _ & Hpf & _ & _ & Hlo & Hv & Hne & Hvp & Hq).
    assert (Hwf0 : wf_at FIFO (set_numpagefaults (numpagefaults s + 1) s)
                     (numframes s)).
    { eapply wf_gen_ext; [exact Hwf|done..|by left|done|done]. }
    destruct (fifo_choose_spec _ _ _ Hwf0 Hc) as (_ & Hvic & Hlo1 & Hpgt).
    change (frame_at (set_numpagefaults (numpagefaults s + 1) s)) with (frame_at s)
      in Hvic, Hlo1.
    change (listoccupied (set_numpagefaults (numpagefaults s + 1) s))
      with (listoccupied s) in Hvic, Hlo1.
    change (pgt (set_numpagefaults (numpagefaults s + 1) s)) with (pgt s) in Hpgt.
    destruct (full_ring_next FIFO s (listoccupied s) Hwf eq_refl) as (Hnx & Hnxr & _).
    { rewrite Hlo0. apply Z.mod_pos_bound. lia. }
    assert (Hf : next (frame_at s (listoccupied s)) =
                 (numpagefaults s - pf0) mod numframes s).
    { rewrite Hnx, Hlo0.
      replace (numpagefaults s - pf0 - 1) with ((numpagefaults s - pf0) - 1) by lia.
      apply mod_succ_ring; lia. }
    destruct (Hocc _ Hnxr) as (_ & _ & Hfv). rewrite <- Hvic in Hfv.
    rewrite Hpf, Hlo, Hlo1.
    split.
    + split; [lia|]. intros _. split; [lia|].
      rewrite Hf. f_equal. lia.
    + intros _ _. split; [done|]. rewrite <- Hf, <- Hfv. split.
      * rewrite Hq, decide_True by done.
        destruct (referenced_page_fields FIFO op (clock s)
                    (replaced_page (frame (page_at s v)) (page_at s1 (page_of s va))))
          as (_ & -> & _).
        done.
      * intros q Hq0 Hqp.
        assert (q <> page_of s va) by congruence.
        assert (Hs1 : forall x, page_at s1 x = page_at s x)
          by (intros x; unfold page_at; by rewrite Hpgt).
        rewrite Hq, decide_False by done.
        destruct (decide (q = v)) as [->|Hqv].
        -- by rewrite Z.eqb_refl.
        -- rewrite Hs1, Hqp.
           destruct (Z.eqb_spec (frame (page_at s q)) (frame (page_at s v))) as [He|];
             [|done].
           destruct (Hpres q Hq0 Hqp) as [_ Hb1].
           destruct (Hpres v Hv Hvp) as [_ Hb2].
           rewrite He in Hb1. congruence.
Qed.

(** X6: the FIFO variant uses the frames in turn.  In a state a run from
    init_tables reached with [n] page faults counted, a reference to an
    absent page of the page table, when sim_mmu returns, has counted one
    more fault and loaded the page into frame [n mod numframes]; of the
    pages that were resident, the one that was in this frame, if any, is
    gone and all the others are still resident. *)
Theorem fifo_round_robin tr s0 l s raw va op pa s' :
  sizes_ok s0 -> (init_tables FIFO ;; run FIFO tr) s0 = Ret l s ->
  0 <= page_of s va < numpags s ->
  present (page_at s (page_of s va)) = false ->
  sim_mmu FIFO raw va op s = Ret pa s' ->
  numpagefaults s' = numpagefaults s + 1 /\
  frame (page_at s' (page_of s va)) =
    (numpagefaults s - numpagefaults s0) mod numframes s /\
  forall q, 0 <= q < numpags s -> present (page_at s q) = true ->
    present (page_at s' q) =
    negb (frame (page_at s q) =? (numpagefaults s - numpagefaults s0) mod numframes s).
Proof.
  intros Hs Hrun Hpg Hp H.
  destruct (init_run_split _ _ _ _ _ Hs Hrun) as (sI & _ & Hrun' & Hwf & Hpost).
  destruct Hpost as (_ & _ & _ & Hf & _).
  assert (Hstep : forall raw va op x kx a x' kx',
            wf_at FIFO x kx -> fifo_turn (numpagefaults s0) x kx ->
            sim_mmu FIFO raw va op x = Ret a x' ->
            wf_at FIFO x' kx' -> fifo_turn (numpagefaults s0) x' kx').
  { intros ? ? ? x kx a x' kx' Hx HI Hst Hx'.
    by destruct (fifo_turn_step _ _ _ _ _ _ _ _ _ Hx HI Hst Hx'). }
  assert (HI0 : fifo_turn (numpagefaults s0) sI 0).
  { pose proof Hwf as []. unfold fifo_turn. split; lia. }
  destruct (run_invariant_at FIFO _ Hstep tr sI 0 l s Hwf HI0 Hrun') as (k & Hwfk & HI).
  pose proof (sim_mmu_wf_at _ _ _ _ _ _ _ _ Hwfk H) as Hwf1.
  destruct (fifo_turn_step _ _ _ _ _ _ _ _ _ Hwfk HI H Hwf1) as [_ Hres].
  by apply Hres.
Qed.

Lemma fifo_round_robin_witness :
  let s' := final_state (sim_mmu FIFO 0 20480 "R" fifo_five_faults) fifo_five_faults in
  numpagefaults s' = numpagefaults fifo_five_faults + 1 /\
  frame (page_at s' (page_of fifo_five_faults 20480)) =
    (numpagefaults fifo_five_faults - numpagefaults (blank 4096 8 3))
    mod numframes fifo_five_faults /\
  forall q, 0 <= q < numpags fifo_five_faults ->
    present (page_at fifo_five_faults q) = true ->
    present (page_at s' q) =
    negb (frame (page_at fifo_five_faults q) =?
          (numpagefaults fifo_five_faults - numpagefaults (blank 4096 8 3))
          mod numframes fifo_five_faults).
Proof.
  intros s'.
  apply (fifo_round_robin [Rd 0; Rd 4096; Rd 8192; Rd 12288; Rd 16384]
           (blank 4096 8 3) [0; 4096; 8192; 0; 4096] fifo_five_faults 0 20480 "R"
           8192 s').
  - unfold sizes_ok. vm_compute. repeat split; reflexivity.
  - vm_compute. reflexivity.
  - vm_compute. split; [discriminate | reflexivity].
  - vm_compute. reflexivity.
  - vm_compute. reflexivity.
Defined.

(** ** LRU: the clock and the timestamps *)

(** init_tables resets the clock and the LRU stack in the variants that
    have these two lines; the second-chance variant has not. *)
Lemma init_tables_clock pol s u s' :
  init_tables pol s = Ret u s' ->
  clock s' = (if pol is FIFO2CH then clock s else 0) /\
  lru s' = (if pol is FIFO2CH then lru s else -1).
Proof.
  intros H.
  destruct pol; cbn [init_tables] in H;
    unfold Fifo.init_tables, Random.init_tables, Fifo2ch.init_tables,
      Lru.init_tables, memset_pgt in H;
    sim_inv_line; sim_inv_if; sim_inv_line.
  all: match goal with H : init_loop _ _ _ = Ret _ _ |- _ =>
         apply init_loop_spec in H
           as (_ & _ & _ & (_ & _ & _ & _ & _ & Hc) & _ & _ & _ & Hl & _)
       end.
  all: proj_simpl; by rewrite Hc, Hl.
Qed.

Lemma referenced_page_timestamp op c d :
  timestamp (referenced_page LRU op c d) = c.
Proof. unfold referenced_page. by destruct (Ascii.eqb op "R"), (Ascii.eqb op "W"). Qed.

(** The pages after a legal reference of the LRU variant: the page
    referenced is resident and stamped with the clock, which advances; a
    page other than this one is resident afterwards only if it was
    before, and keeps its timestamp. *)
Lemma lru_step_pages raw va op s k pa s' :
  wf_at LRU s k -> 0 <= page_of s va < numpags s ->
  sim_mmu LRU raw va op s = Ret pa s' ->
  clock s' = to_unsigned (clock s + 1) /\
  numpags s' = numpags s /\
  present (page_at s' (page_of s va)) = true /\
  timestamp (page_at s' (page_of s va)) = clock s /\
  forall q, q <> page_of s va ->
    timestamp (page_at s' q) = timestamp (page_at s q) /\
    (present (page_at s' q) = true -> present (page_at s q) = true).
Proof.
  intros Hwf Hpg H.
  destruct (sim_mmu_counts _ _ _ _ _ _ _ _ Hwf Hpg H) as (_ & _ & _ & Hc & Hp & _).
  destruct (sim_mmu_step_post _ _ _ _ _ _ _ _ Hwf Hpg H) as ((_ & Hnp & _) & _ & Hpost).
  split; [done|]. split; [done|]. split; [done|].
  unfold step_post in Hpost.
  destruct (present (page_at s (page_of s va))) eqn:Hpp; [|case_decide].
  - destruct Hpost as (_ & _ & _ & _ & _ & _ & Hq). split.
    + by rewrite Hq, decide_True, referenced_page_timestamp.
    + intros q Hne. by rewrite Hq, decide_False.
  - destruct Hpost as (_ & _ & _ & _ & Hq). split.
    + by rewrite Hq, decide_True, referenced_page_timestamp.
    + intros q Hne. by rewrite Hq, decide_False.
  - destruct Hpost as (v & s1 & Hc1 & _ & _ & _ & _ & _ & _ & _ & _ & Hq).
    assert (k = numframes s) as -> by (destruct Hwf; lia).
    assert (Hwf0 : wf_at LRU (set_numpagefaults (numpagefaults s + 1) s)
                     (numframes s)).
    { eapply wf_gen_ext; [exact Hwf|done..|by left|done|done]. }
    destruct (lru_choose_spec _ _ _ Hwf0 Hc1) as [_ ->].
    change (page_at (set_numpagefaults (numpagefaults s + 1) s)) with (page_at s) in Hq.
    split.
    + by rewrite Hq, decide_True, referenced_page_timestamp.
    + intros q Hne. rewrite Hq, decide_False by done.
      destruct (decide (q = v)) as [->|]; [|done]. cbn. split; [done|]. intros; done.
Qed.

Lemma lru_stamps_step raw va op s k pa s' :
  wf_at LRU s k -> lru_stamps s -> clock s + 1 < UINT_MOD ->
  sim_mmu LRU raw va op s = Ret pa s' ->
  lru_stamps s' /\
  clock s' =
    clock s + (if legal_ref (pagsz s) (numpags s) (raw, va, op) then 1 else 0).
Proof.
  intros Hwf (Hc0 & Hlt & Hne) Hroom H.
  assert (Hsz : to_unsigned (pagsz s) <> 0).
  { unfold sim_mmu in H. sim_inv_line. sim_inv_if; [done|]. by apply Z.eqb_neq. }
  destruct (legal_ref (pagsz s) (numpags s) (raw, va, op)) eqn:Hleg.
  - apply legal_ref_spec in Hleg. cbn [fst snd] in Hleg.
    destruct (lru_step_pages _ _ _ _ _ _ _ Hwf Hleg H) as (Hc & Hnp & Hp & Hts & Hq).
    rewrite to_unsigned_small in Hc by lia.
    split; [|done]. unfold lru_stamps. rewrite Hc, Hnp.
    assert (Hold : forall q, 0 <= q < numpags s -> q <> page_of s va ->
              present (page_at s' q) = true ->
              0 <= timestamp (page_at s' q) < clock s).
    { intros q Hq0 Hqne Hqp. destruct (Hq q Hqne) as [-> Hpr]. by apply Hlt, Hpr. }
    split; [lia|]. split.
    + intros p Hp0 Hpp. destruct (decide (p = page_of s va)) as [->|Hpne].
      * rewrite Hts. lia.
      * pose proof (Hold p Hp0 Hpne Hpp). lia.
    + intros p q Hp0 Hq0 Hpp Hqp Hpq.
      destruct (decide (p = page_of s va)) as [->|Hpne],
               (decide (q = page_of s va)) as [->|Hqne]; try done.
      * rewrite Hts. pose proof (Hold q Hq0 Hqne Hqp). lia.
      * rewrite Hts. pose proof (Hold p Hp0 Hpne Hpp). lia.
      * destruct (Hq p Hpne) as [-> Hpr1]. destruct (Hq q Hqne) as [-> Hpr2].
        apply Hne; auto.
  - assert (Hill : ~ (0 <= page_of s va < numpags s)).
    { intros Hc. apply (legal_ref_spec s (raw, va, op)) in Hc. congruence. }
    rewrite sim_mmu_illegal in H by done. sim_inv_line.
    split; [|proj_simpl; lia]. done.
Qed.

Lemma lru_stamps_run tr s l s' :
  wf LRU s -> lru_stamps s -> clock s + Z.of_nat (length tr) < UINT_MOD ->
  run LRU tr s = Ret l s' ->
  lru_stamps s' /\
  clock s' = clock s + count_refs (legal_ref (pagsz s) (numpags s)) tr.
Proof.
  revert s l s'. induction tr as [|[[raw va] op] tr IH]; intros s l s' Hwf HI Hroom H;
    cbn [run] in H.
  - sim_inv_line. cbn [count_refs]. split; [done|lia].
  - sim_inv_line.
    match goal with H : sim_mmu _ _ _ _ _ = Ret _ _ |- _ => rename H into Hst end.
    match goal with H : run _ _ _ = Ret _ _ |- _ => rename H into Hrun end.
    cbn [length] in Hroom.
    pose proof (sim_mmu_wf _ _ _ _ _ _ _ Hwf Hst) as Hwf1.
    destruct (sim_mmu_same_cfg _ _ _ _ _ _ _ Hwf Hst) as (Hsz & Hnp & _).
    destruct Hwf as [k Hwf].
    assert (Hroom1 : clock s + 1 < UINT_MOD) by lia.
    destruct (lru_stamps_step _ _ _ _ _ _ _ Hwf HI Hroom1 Hst) as [HI1 Hc1].
    assert (Hb : 0 <= (if legal_ref (pagsz s) (numpags s) (raw, va, op) then 1 else 0) <= 1)
      by (destruct (legal_ref _ _ _); lia).
    match type of Hst with _ = Ret _ ?x =>
      assert (Hroom2 : clock x + Z.of_nat (length tr) < UINT_MOD) by lia end.
    destruct (IH _ _ _ Hwf1 HI1 Hroom2 Hrun) as [HI2 Hc2].
    split; [done|]. rewrite Hc2, Hc1, Hsz, Hnp. cbn [count_refs]. lia.
Qed.

(** The stamps in a state a run from init_tables reaches. *)
Lemma lru_stamps_reach tr s0 l s :
  sizes_ok s0 -> (init_tables LRU ;; run LRU tr) s0 = Ret l s ->
  Z.of_nat (length tr) < UINT_MOD ->
  lru_stamps s /\
  clock s = count_refs (legal_ref (pagsz s0) (numpags s0)) tr.
Proof.
  intros Hs H Hlen.
  destruct (init_run_split _ _ _ _ _ Hs H) as (sI & Hinit & Hrun & Hwf & Hpost).
  destruct (init_tables_clock _ _ _ _ Hinit) as [Hc _].
  destruct Hpost as ((Hsz & Hnp & _) & _ & _ & _ & _ & _ & _ & _ & Hpg & _).
  assert (HI : lru_stamps sI).
  { unfold lru_stamps. rewrite Hc, Hnp. split; [done|].
    split; intros p; intros; rewrite Hpg in * by done; done. }
  assert (Hroom : clock sI + Z.of_nat (length tr) < UINT_MOD) by lia.
  destruct (lru_stamps_run _ _ _ _ (ex_intro _ 0 Hwf) HI Hroom Hrun) as [HI' Hc'].
  split; [done|]. rewrite Hc', Hc, Hsz, Hnp. lia.
Qed.

(** X7: in the LRU variant the clock counts the references.  After a run
    from init_tables of fewer than 2^32 references, the clock is the
    number of references whose page number was inside the page table,
    every resident page has a timestamp below the clock, and no two
    resident pages have the same timestamp. *)
Theorem lru_clock_stamps tr s0 l s :
  sizes_ok s0 -> (init_tables LRU ;; run LRU tr) s0 = Ret l s ->
  Z.of_nat (length tr) < UINT_MOD ->
  clock s = count_refs (legal_ref (pagsz s0) (numpags s0)) tr /\
  (forall p, 0 <= p < numpags s -> present (page_at s p) = true ->
     0 <= timestamp (page_at s p) < clock s) /\
  (forall p q, 0 <= p < numpags s -> 0 <= q < numpags s ->
     present (page_at s p) = true -> present (page_at s q) = true ->
     p <> q -> timestamp (page_at s p) <> timestamp (page_at s q)).
Proof.
  intros Hs H Hlen.
  destruct (lru_stamps_reach _ _ _ _ Hs H Hlen) as [(_ & Hlt & Hne) Hc]. done.
Qed.

Lemma lru_clock_stamps_witness :
  clock lru_full_state =
    count_refs (legal_ref (pagsz (blank 4096 3 2)) (numpags (blank 4096 3 2)))
      [Rd 0; Rd 4096; Rd 0] /\
  (forall p, 0 <= p < numpags lru_full_state ->
     present (page_at lru_full_state p) = true ->
     0 <= timestamp (page_at lru_full_state p) < clock lru_full_state) /\
  (forall p q, 0 <= p < numpags lru_full_state -> 0 <= q < numpags lru_full_state ->
     present (page_at lru_full_state p) = true ->
     present (page_at lru_full_state q) = true ->
     p <> q ->
     timestamp (page_at lru_full_state p) <> timestamp (page_at lru_full_state q)).
Proof.
  apply (lru_clock_stamps [Rd 0; Rd 4096; Rd 0] (blank 4096 3 2) [0; 4096; 0]).
  - unfold sizes_ok. vm_compute. repeat split; reflexivity.
  - vm_compute. reflexivity.
  - vm_compute. reflexivity.
Defined.

(** The LRU scan returns the page of the first frame of minimal
    timestamp. *)
Lemma lru_choose_first_min s :
  frames_hold_pages s -> 0 < numframes s ->
  exists fr,
    Lru.choose_page_to_be_replaced s = Ret (page (frame_at s fr)) s /\
    first_min s (numframes s) fr.
Proof.
  intros Hh Hn.
  destruct (lru_scan_first_min (Z.to_nat (numframes s)) 0 (-1) s Hh)
    as (fr & Hs & Hm); [lia | lia | by left | left; lia |].
  replace (0 + Z.of_nat (Z.to_nat (numframes s))) with (numframes s) in * by lia.
  exists fr. split; [|done].
  unfold Lru.choose_page_to_be_replaced, bind, rd. rewrite Hs.
  destruct Hh as [Hl _]. destruct Hm as [Hr _].
  rewrite (frt_at_ok _ _ (frame_at s fr)); [done|].
  apply (arr_get_in_range (mk_sframe (-1) (-1))). lia.
Qed.

(** A fault of the LRU variant when no frame is free. *)
Lemma lru_fault_victim raw va op s pa s' :
  wf_at LRU s (numframes s) -> lru_stamps s ->
  0 <= page_of s va < numpags s ->
  present (page_at s (page_of s va)) = false ->
  sim_mmu LRU raw va op s = Ret pa s' ->
  exists v,
    Lru.choose_page_to_be_replaced s = Ret v s /\
    0 <= v < numpags s /\ present (page_at s v) = true /\
    present (page_at s' v) = false /\
    forall q, 0 <= q < numpags s -> present (page_at s q) = true -> q <> v ->
      timestamp (page_at s v) < timestamp (page_at s q) /\
      present (page_at s' q) = true.
Proof.
  intros Hwf (_ & _ & Hne) Hpg Hp H.
  destruct (sim_mmu_step_post _ _ _ _ _ _ _ _ Hwf Hpg H) as (_ & _ & Hpost).
  unfold step_post in Hpost. rewrite Hp, decide_False in Hpost by lia.
  destruct Hpost as (v & s1 & Hc & _ & _ & _ & _ & _ & Hv & Hvne & Hvp & Hq).
  pose proof Hwf as [_ _ Hnf _ _ _ Hpres _ _ _].
  destruct (lru_choose_first_min s (wf_full_frames_hold_pages _ _ Hwf) Hnf)
    as (fr & Hch & Hfr & Hmin).
  assert (Hwf0 : wf_at LRU (set_numpagefaults (numpagefaults s + 1) s) (numframes s)).
  { eapply wf_gen_ext; [exact Hwf|done..|by left|done|done]. }
  destruct (lru_choose_first_min _ (wf_full_frames_hold_pages _ _ Hwf0) Hnf)
    as (fr' & Hch' & Hfr' & Hmin').
  change (numframes (set_numpagefaults (numpagefaults s + 1) s)) with (numframes s)
    in Hfr', Hmin'.
  assert (Hfeq : fr' = fr).
  { destruct (Hmin fr' Hfr') as [H1 H2]. destruct (Hmin' fr Hfr) as [H3 H4].
    unfold frame_ts in *.
    change (page_at (set_numpagefaults (numpagefaults s + 1) s)) with (page_at s) in *.
    change (frame_at (set_numpagefaults (numpagefaults s + 1) s)) with (frame_at s) in *.
    assert (fr <= fr') by (apply H2; lia). assert (fr' <= fr) by (apply H4; lia). lia. }
  subst fr'. cbn [choose_page_to_be_replaced] in Hc.
  rewrite Hch' in Hc. injection Hc as Hv1 Hs1.
  change (frame_at (set_numpagefaults (numpagefaults s + 1) s)) with (frame_at s) in Hv1.
  subst s1.
  change (page_at (set_numpagefaults (numpagefaults s + 1) s)) with (page_at s) in Hq.
  exists v. rewrite Hv1 in Hch. split; [done|]. split; [done|]. split; [done|].
  split.
  { rewrite Hq, decide_False, decide_True by done. done. }
  intros q Hq0 Hqp Hqv.
  assert (q <> page_of s va) by congruence.
  split; [|by rewrite Hq, !decide_False].
  destruct (Hpres q Hq0 Hqp) as [Hj Hback].
  destruct (Hmin (frame (page_at s q)) Hj) as [Hle _].
  unfold frame_ts in Hle. rewrite Hback, Hv1 in Hle.
  pose proof (Hne v q Hv Hq0 Hvp Hqp ltac:(congruence)). lia.
Qed.

(** X8: the LRU variant evicts the page referenced longest ago.  In a
    state a run from init_tables of fewer than 2^32 references reached
    with no frame left free, a reference to an absent page of the page
    table evicts the page choose_page_to_be_replaced returns, and this
    page is the resident page whose timestamp is strictly below the
    timestamp of every other resident page; all the others stay
    resident. *)
Theorem lru_evicts_least_recent tr s0 l s raw va op pa s' :
  sizes_ok s0 -> (init_tables LRU ;; run LRU tr) s0 = Ret l s ->
  Z.of_nat (length tr) < UINT_MOD ->
  listfree s = -1 ->
  0 <= page_of s va < numpags s ->
  present (page_at s (page_of s va)) = false ->
  sim_mmu LRU raw va op s = Ret pa s' ->
  exists v,
    Lru.choose_page_to_be_replaced s = Ret v s /\
    0 <= v < numpags s /\ present (page_at s v) = true /\
    present (page_at s' v) = false /\
    forall q, 0 <= q < numpags s -> present (page_at s q) = true -> q <> v ->
      timestamp (page_at s v) < timestamp (page_at s q) /\
      present (page_at s' q) = true.
Proof.
  intros Hs Hrun Hlen Hlf Hpg Hp H.
  destruct (init_run_wf _ _ _ _ _ Hs Hrun) as [k Hwf].
  destruct (lru_stamps_reach _ _ _ _ Hs Hrun Hlen) as [HI _].
  apply (wf_no_free _ _ _ Hwf) in Hlf. subst k.
  by eapply lru_fault_victim.
Qed.

Lemma lru_evicts_least_recent_witness :
  let s' := final_state (sim_mmu LRU 0 8192 "R" lru_full_state) lru_full_state in
  exists v,
    Lru.choose_page_to_be_replaced lru_full_state = Ret v lru_full_state /\
    0 <= v < numpags lru_full_state /\ present (page_at lru_full_state v) = true /\
    present (page_at s' v) = false /\
    forall q, 0 <= q < numpags lru_full_state ->
      present (page_at lru_full_state q) = true -> q <> v ->
      timestamp (page_at lru_full_state v) < timestamp (page_at lru_full_state q) /\
      present (page_at s' q) = true.
Proof.
  intros s'.
  apply (lru_evicts_least_recent [Rd 0; Rd 4096; Rd 0] (blank 4096 3 2) [0; 4096; 0]
           lru_full_state 0 8192 "R" 4096 s').
  - unfold sizes_ok. vm_compute. repeat split; reflexivity.
  - vm_compute. reflexivity.
  - vm_compute. reflexivity.
  - vm_compute. reflexivity.
  - vm_compute. split; [discriminate | reflexivity].
  - vm_compute. reflexivity.
  - vm_compute. reflexivity.
Defined.

(** X9: until its clock wraps, the LRU variant does not evict the page
    referenced last.  With at least two frames, in a state that a run of
    fewer than 2^32 - 1 references from init_tables reached, the page of
    a reference that sim_mmu translated is resident after that call and
    still resident after the reference that follows, whatever this one
    is. *)
Theorem lru_keeps_last_referenced tr s0 l s raw va op pa s1 raw' va' op' pa' s2 :
  sizes_ok s0 -> (init_tables LRU ;; run LRU tr) s0 = Ret l s ->
  Z.of_nat (length tr) + 1 < UINT_MOD ->
  2 <= numframes s ->
  0 <= page_of s va < numpags s ->
  sim_mmu LRU raw va op s = Ret pa s1 ->
  sim_mmu LRU raw' va' op' s1 = Ret pa' s2 ->
  present (page_at s1 (page_of s va)) = true /\
  present (page_at s2 (page_of s va)) = true.
Proof.
  intros Hs Hrun Hlen Hnf2 Hpg H1 H2.
  destruct (init_run_wf _ _ _ _ _ Hs Hrun) as [k Hwf].
  assert (Hlen0 : Z.of_nat (length tr) < UINT_MOD) by lia.
  destruct (lru_stamps_reach _ _ _ _ Hs Hrun Hlen0) as [HI Hclk].
  assert (Hcb : clock s <= Z.of_nat (length tr)).
  { rewrite Hclk. clear. induction tr as [|e tr IH]; cbn [count_refs length]; [done|].
    destruct (legal_ref _ _ e); lia. }
  assert (Hroom : clock s + 1 < UINT_MOD) by lia.
  destruct (lru_stamps_step _ _ _ _ _ _ _ Hwf HI Hroom H1) as [HI1 _].
  destruct (lru_step_pages _ _ _ _ _ _ _ Hwf Hpg H1) as (_ & Hnp1 & Hp1 & Hts1 & Hq1).
  pose proof (sim_mmu_wf_at _ _ _ _ _ _ _ _ Hwf H1) as Hwf1.
  destruct (sim_mmu_same_cfg _ _ _ _ _ _ _ (ex_intro _ k Hwf) H1) as (Hsz1 & _ & Hnf1 & _).
  set (k1 := if decide (0 <= page_of s va < numpags s)
             then if present (page_at s (page_of s va)) then k
                  else if decide (k < numframes s) then k + 1 else k
             else k) in Hwf1.
  clearbody k1. split; [done|].
  set (pg := page_of s va) in *.
  assert (Hsz : to_unsigned (pagsz s1) <> 0).
  { unfold sim_mmu in H2. sim_inv_line. sim_inv_if; [done|]. by apply Z.eqb_neq. }
  destruct (decide (0 <= page_of s1 va' < numpags s1)) as [Hpg'|Hpg'].
  2:{ rewrite sim_mmu_illegal in H2 by done. by sim_inv_line. }
  destruct (sim_mmu_step_post _ _ _ _ _ _ _ _ Hwf1 Hpg' H2) as (_ & _ & Hpost).
  unfold step_post in Hpost.
  destruct (present (page_at s1 (page_of s1 va'))) eqn:Hp'.
  { destruct Hpost as (_ & _ & _ & _ & _ & _ & Hq). rewrite Hq. case_decide as Hd.
    - destruct (referenced_page_fields LRU op' (clock s1) (page_at s1 (page_of s1 va')))
        as (-> & _). done.
    - done. }
  assert (Hne' : pg <> page_of s1 va') by congruence.
  case_decide as Hk1.
  { destruct Hpost as (_ & _ & _ & _ & Hq). by rewrite Hq, decide_False. }
  assert (k1 = numframes s1) as -> by (destruct Hwf1; lia).
  destruct (lru_fault_victim _ _ _ _ _ _ Hwf1 HI1 Hpg' Hp' H2)
    as (v & _ & Hv & Hvp & _ & Hrest).
  destruct (decide (pg = v)) as [Hpv|Hpv].
  2:{ apply Hrest; [lia|done|done]. }
  exfalso. subst v.
  pose proof Hwf1 as [_ _ _ _ Hocc _ Hpres _ _ _].
  destruct (Hpres pg Hv Hp1) as [Hf Hback].
  set (j := if decide (frame (page_at s1 pg) = 0) then 1 else 0).
  assert (Hj : 0 <= j < numframes s1 /\ j <> frame (page_at s1 pg))
    by (unfold j; case_decide; lia).
  destruct (Hocc j (proj1 Hj)) as (Hq0 & Hqp & Hqf).
  set (q := page (frame_at s1 j)) in *.
  assert (Hqne : q <> pg) by (intros ->; lia).
  destruct (Hrest q Hq0 Hqp Hqne) as [Hlt _].
  destruct (Hq1 q Hqne) as [Hqts Hqpr].
  destruct HI as (_ & Hbelow & _).
  pose proof (Hbelow q ltac:(lia) (Hqpr Hqp)). lia.
Qed.

Lemma lru_keeps_last_referenced_witness :
  let s1 := final_state (sim_mmu LRU 0 4096 "R" lru_full_state) lru_full_state in
  let s2 := final_state (sim_mmu LRU 0 8192 "R" s1) s1 in
  present (page_at s1 (page_of lru_full_state 4096)) = true /\
  present (page_at s2 (page_of lru_full_state 4096)) = true.
Proof.
  intros s1 s2.
  apply (lru_keeps_last_referenced [Rd 0; Rd 4096; Rd 0] (blank 4096 3 2) [0; 4096; 0]
           lru_full_state 0 4096 "R" 4096 s1 0 8192 "R" 0 s2).
  - unfold sizes_ok. vm_compute. repeat split; reflexivity.
  - vm_compute. reflexivity.
  - vm_compute. reflexivity.
  - vm_compute. discriminate.
  - vm_compute. split; [discriminate | reflexivity].
  - vm_compute. reflexivity.
  - vm_compute. reflexivity.
Defined.

(** ** The functions that show results *)

Lemma frames_rows_wf pol s k0 k f :
  wf_at pol s k0 -> 0 <= f -> f + Z.of_nat k <= numframes s ->
  frames_rows k f s = Ret (map (frames_row s) (seqZ f (Z.of_nat k))) s.
Proof.
  intros Hwf. revert f. induction k as [|k IH]; intros f Hf Hle; [done|].
  pose proof Hwf as [Hpl Hfl _ Hk0 Hocc Hun _ _ _ _].
  rewrite seqZ_cons by lia. cbn [map frames_rows].
  assert (Hfr : frt_at f s = Ret (frame_at s f) s).
  { apply frt_at_ok, (arr_get_in_range (mk_sframe (-1) (-1))). lia. }
  rewrite (bind_intro _ _ _ _ _ Hfr).
  replace (Z.pred (Z.of_nat (S k))) with (Z.of_nat k) by lia.
  assert (Hrest : frames_rows k (f + 1) s =
                  Ret (map (frames_row s) (seqZ (Z.succ f) (Z.of_nat k))) s)
    by (apply IH; lia).
  unfold frames_row at 1. cbv zeta.
  destruct (Z.eqb_spec (page (frame_at s f)) (-1)) as [He|Hne].
  - unfold bind, ret. by rewrite Hrest.
  - destruct (decide (f < k0)) as [Hlt|Hge]; [|destruct Hne; apply Hun; lia].
    assert (Hf0 : 0 <= f < k0) by lia.
    destruct (Hocc f Hf0) as (Hp & Hpr & _).
    assert (Hpg : pgt_at (page (frame_at s f)) s =
                  Ret (page_at s (page (frame_at s f))) s).
    { apply pgt_at_ok, (arr_get_in_range zero_page). lia. }
    unfold bind, ret. by rewrite Hpg, Hpr, Hrest.
Qed.

(** X10: in the FIFO, random and LRU variants, print_frames_table never
    prints a row marked ERROR! in a state a run from init_tables reached.
    It returns, changes nothing, and prints, after the header, one row
    per frame in order: dashes for a frame that holds no page, and for the
    others the page, 1 for "present", and the modified bit of the page. *)
Theorem frames_table_shows_no_error pol tr s0 l s :
  pol <> FIFO2CH ->
  sizes_ok s0 -> (init_tables pol ;; run pol tr) s0 = Ret l s ->
  exists out,
    print_frames_table s = Ret out s /\
    out = ("%10s %10s %10s   %s\n"%string,
           [PStr "FRAME"; PStr "Page"; PStr "Present"; PStr "Modified"])
          :: map (frames_row s) (seqZ 0 (numframes s)) /\
    Forall (fun c => c.1 <> "%8d   %8d   %6d     %6s   ERROR!\n"%string) out.
Proof.
  intros _ Hs H. destruct (init_run_wf _ _ _ _ _ Hs H) as [k Hwf].
  assert (Hnf : 0 < numframes s) by (by destruct Hwf).
  eexists. split; [|split; [reflexivity|]].
  - unfold print_frames_table, bind, rd.
    rewrite (frames_rows_wf _ _ _ (Z.to_nat (numframes s)) 0 Hwf) by lia.
    rewrite Z2Nat.id by lia. reflexivity.
  - apply Forall_cons. split; [discriminate|].
    apply Forall_map, Forall_forall. intros f _. unfold frames_row. cbv zeta.
    destruct (page (frame_at s f) =? -1); discriminate.
Qed.

Lemma frames_table_shows_no_error_witness :
  exists out,
    print_frames_table lru_full_state = Ret out lru_full_state /\
    out = ("%10s %10s %10s   %s\n"%string,
           [PStr "FRAME"; PStr "Page"; PStr "Present"; PStr "Modified"])
          :: map (frames_row lru_full_state) (seqZ 0 (numframes lru_full_state)) /\
    Forall (fun c => c.1 <> "%8d   %8d   %6d     %6s   ERROR!\n"%string) out.
Proof.
  apply (frames_table_shows_no_error LRU [Rd 0; Rd 4096; Rd 0] (blank 4096 3 2)
           [0; 4096; 0]).
  - discriminate.
  - unfold sizes_ok. vm_compute. repeat split; reflexivity.
  - vm_compute. reflexivity.
Defined.

Lemma report_rows_full s k i :
  wf_at FIFO2CH s (numframes s) -> 0 <= i -> i + Z.of_nat k <= numframes s ->
  Fifo2ch.report_rows k i s = Ret (map (report_row s) (seqZ i (Z.of_nat k))) s.
Proof.
  intros Hwf. revert i. induction k as [|k IH]; intros i Hi Hle; [done|].
  pose proof Hwf as [Hpl Hfl _ _ Hocc _ _ _ _ _].
  rewrite seqZ_cons by lia. cbn [map Fifo2ch.report_rows].
  replace (Z.pred (Z.of_nat (S k))) with (Z.of_nat k) by lia.
  assert (Hfr : frt_at i s = Ret (frame_at s i) s).
  { apply frt_at_ok, (arr_get_in_range (mk_sframe (-1) (-1))). lia. }
  assert (Hi0 : 0 <= i < numframes s) by lia.
  destruct (Hocc i Hi0) as (Hp & _).
  assert (Hpg : pgt_at (page (frame_at s i)) s =
                Ret (page_at s (page (frame_at s i))) s).
  { apply pgt_at_ok, (arr_get_in_range zero_page). lia. }
  assert (Hrest : Fifo2ch.report_rows k (i + 1) s =
                  Ret (map (report_row s) (seqZ (Z.succ i) (Z.of_nat k))) s)
    by (apply IH; lia).
  unfold bind, ret. by rewrite Hfr, Hpg, Hrest.
Qed.

Lemma report_rows_free s k0 k i :
  wf_at FIFO2CH s k0 -> 0 <= i <= k0 -> k0 < i + Z.of_nat k -> k0 < numframes s ->
  Fifo2ch.report_rows k i s = Undef.
Proof.
  intros Hwf. revert i. induction k as [|k IH]; intros i Hi Hk Hlt; [lia|].
  pose proof Hwf as [Hpl Hfl _ _ Hocc Hun _ _ _ _].
  cbn [Fifo2ch.report_rows].
  assert (Hfr : frt_at i s = Ret (frame_at s i) s).
  { apply frt_at_ok, (arr_get_in_range (mk_sframe (-1) (-1))). lia. }
  unfold bind at 1. rewrite Hfr.
  destruct (decide (i = k0)) as [->|Hne].
  - rewrite Hun by lia. done.
  - assert (Hi0 : 0 <= i < k0) by lia.
    destruct (Hocc i Hi0) as (Hp & _).
    assert (Hpg : pgt_at (page (frame_at s i)) s =
                  Ret (page_at s (page (frame_at s i))) s).
    { apply pgt_at_ok, (arr_get_in_range zero_page). lia. }
    unfold bind. rewrite Hpg. rewrite IH by lia. done.
Qed.

(** X11: the report of the second-chance variant reads the page table at
    the page of every frame, free or not.  In a state a run from
    init_tables reached, print_replacement_report is undefined while a
    frame is free (it reads [pgt[-1]]); once no frame is free it returns,
    changes nothing, and prints, after its header, the page and the
    referenced bit of every frame in order. *)
Theorem second_chance_report_reads_free_frames tr s0 l s :
  sizes_ok s0 -> (init_tables FIFO2CH ;; run FIFO2CH tr) s0 = Ret l s ->
  (listfree s <> -1 -> Fifo2ch.print_replacement_report s = Undef) /\
  (listfree s = -1 ->
   Fifo2ch.print_replacement_report s =
   Ret (("FIFO second chance\n Frames:\n"%string, [])
        :: map (report_row s) (seqZ 0 (numframes s))) s).
Proof.
  intros Hs H. destruct (init_run_wf _ _ _ _ _ Hs H) as [k Hwf].
  assert (Hk : 0 <= k <= numframes s) by (by destruct Hwf).
  pose proof (wf_no_free _ _ _ Hwf) as Hfree.
  unfold Fifo2ch.print_replacement_report, bind, rd. split.
  - intros Hne. assert (k < numframes s) by (destruct (decide (k = numframes s)); [tauto|lia]).
    by rewrite (report_rows_free _ k _ 0 Hwf) by lia.
  - intros He. apply Hfree in He. subst k.
    rewrite (report_rows_full _ (Z.to_nat (numframes s)) 0 Hwf) by lia.
    rewrite Z2Nat.id by lia. reflexivity.
Qed.

Lemma second_chance_report_reads_free_frames_witness :
  let s1 := final_state ((init_tables FIFO2CH ;; run FIFO2CH [Rd 0]) (blank 4096 3 2))
              (blank 4096 3 2) in
  ((listfree s1 <> -1 -> Fifo2ch.print_replacement_report s1 = Undef) /\
   (listfree s1 = -1 ->
    Fifo2ch.print_replacement_report s1 =
    Ret (("FIFO second chance\n Frames:\n"%string, [])
         :: map (report_row s1) (seqZ 0 (numframes s1))) s1)) /\
  Fifo2ch.print_replacement_report s1 = Undef /\
  Fifo2ch.print_replacement_report fifo2ch_full_state =
    Ret (("FIFO second chance\n Frames:\n"%string, [])
         :: map (report_row fifo2ch_full_state)
              (seqZ 0 (numframes fifo2ch_full_state))) fifo2ch_full_state.
Proof.
  intros s1.
  assert (Hs : sizes_ok (blank 4096 3 2)).
  { unfold sizes_ok. vm_compute. repeat split; reflexivity. }
  assert (H1 : (init_tables FIFO2CH ;; run FIFO2CH [Rd 0]) (blank 4096 3 2)
               = Ret [0] s1) by (vm_compute; reflexivity).
  assert (H2 : (init_tables FIFO2CH ;; run FIFO2CH [Rd 0; Rd 4096; Rd 0])
                 (blank 4096 3 2) = Ret [0; 4096; 0] fifo2ch_full_state)
    by (vm_compute; reflexivity).
  pose proof (second_chance_report_reads_free_frames [Rd 0] (blank 4096 3 2) [0] s1
                Hs H1) as Ha.
  pose proof (second_chance_report_reads_free_frames [Rd 0; Rd 4096; Rd 0]
                (blank 4096 3 2) [0; 4096; 0] fifo2ch_full_state Hs H2) as Hb.
  split; [exact Ha|]. split.
  - apply (proj1 Ha). vm_compute. discriminate.
  - apply (proj2 Hb). vm_compute. reflexivity.
Defined.

(** The loop of the LRU report, once the first iteration has given
    [mintimestamp] and [maxtimestamp] a value. *)
Lemma minmax_loop_spec s k i a b :
  Z.of_nat (length (pgt s)) = numpags s ->
  (forall p, 0 <= p < numpags s -> 0 <= timestamp (page_at s p) <= INT_MAX) ->
  0 < i -> i + Z.of_nat k <= numpags s ->
  0 <= a <= INT_MAX -> 0 <= b <= INT_MAX ->
  exists a' b',
    Lru.minmax_loop k i (Some a) (Some b) s = Ret (Some a', Some b') s /\
    0 <= a' <= a /\ b <= b' <= INT_MAX /\
    (forall p, i <= p < i + Z.of_nat k ->
       a' <= timestamp (page_at s p) <= b') /\
    (a' = a \/ exists p, i <= p < i + Z.of_nat k /\ timestamp (page_at s p) = a') /\
    (b' = b \/ exists p, i <= p < i + Z.of_nat k /\ timestamp (page_at s p) = b').
Proof.
  intros Hl Hts. revert i a b. induction k as [|k IH]; intros i a b Hi Hle Ha Hb.
  - exists a, b. split; [done|]. repeat split; try lia. all: by left.
  - cbn [Lru.minmax_loop].
    assert (Hpg : pgt_at i s = Ret (page_at s i) s).
    { apply pgt_at_ok, (arr_get_in_range zero_page). lia. }
    unfold bind at 1. rewrite Hpg.
    destruct (Z.eqb_spec i 0) as [|_]; [lia|].
    pose proof (Hts i ltac:(lia)) as Hti.
    set (t := timestamp (page_at s i)) in *.
    rewrite (to_unsigned_small a), (to_unsigned_small b), (to_int_small t)
      by (unfold UINT_MOD, INT_MAX in *; lia).
    destruct (IH (i + 1) (if t <? a then t else a) (if b <? t then t else b))
      as (a' & b' & Hr & Ha' & Hb' & Hall & Hmin & Hmax);
      [lia | lia | destruct (t <? a); lia | destruct (b <? t); lia |].
    exists a', b'. split; [done|].
    destruct (Z.ltb_spec t a), (Z.ltb_spec b t).
    all: split; [lia|]; split; [lia|]; split;
      [intros p Hp; destruct (decide (p = i)) as [->|];
         [fold t; lia | apply Hall; lia]|].
    all: split.
    all: try (destruct Hmin as [->|(p & ? & ?)];
              [first [by left | right; exists i; split; [lia|done]]
              | right; exists p; split; [lia|done]]).
    all: destruct Hmax as [->|(p & ? & ?)];
           [first [by left | right; exists i; split; [lia|done]]
           | right; exists p; split; [lia|done]].
Qed.

(** X12: the report of the LRU variant prints the clock, the least and
    the greatest timestamp of the page table.  With a page table of at
    least one page whose timestamps are non-negative [int]s,
    print_replacement_report returns, changes nothing, and prints one
    line whose second and third values are timestamps of the page table,
    below and above all the others.  With an empty page table it is
    undefined: the two locals are printed without ever being assigned. *)
Theorem lru_report_min_max s :
  (numpags s <= 0 -> Lru.print_replacement_report s = Undef) /\
  (Z.of_nat (length (pgt s)) = numpags s -> 0 < numpags s ->
   (forall p, 0 <= p < numpags s -> 0 <= timestamp (page_at s p) <= INT_MAX) ->
   exists mn mx,
     Lru.print_replacement_report s =
       Ret [("LRU replacement (Clock value: %10d, Min timestamp: %10d, Max timestamp: %10d)\n"%string,
             [PInt (to_int (clock s)); PInt mn; PInt mx])] s /\
     (forall p, 0 <= p < numpags s -> mn <= timestamp (page_at s p) <= mx) /\
     (exists p, 0 <= p < numpags s /\ timestamp (page_at s p) = mn) /\
     (exists p, 0 <= p < numpags s /\ timestamp (page_at s p) = mx)).
Proof.
  split.
  - intros Hn. unfold Lru.print_replacement_report, bind, rd.
    replace (Z.to_nat (numpags s)) with O by lia. done.
  - intros Hl Hn Hts. unfold Lru.print_replacement_report, bind at 1, rd at 1.
    destruct (Z.to_nat (numpags s)) as [|k] eqn:Hk; [lia|].
    unfold bind at 1. cbn [Lru.minmax_loop].
    assert (Hpg : pgt_at 0 s = Ret (page_at s 0) s).
    { apply pgt_at_ok, (arr_get_in_range zero_page). lia. }
    unfold bind at 1. rewrite Hpg. cbn [Z.eqb].
    pose proof (Hts 0 ltac:(lia)) as Ht0.
    set (t := timestamp (page_at s 0)) in *.
    rewrite (to_int_small t), (to_unsigned_small t)
      by (unfold UINT_MOD, INT_MAX in *; lia).
    rewrite Z.ltb_irrefl.
    destruct (minmax_loop_spec s k (0 + 1) t t Hl Hts)
      as (a' & b' & Hr & Ha' & Hb' & Hall & Hmin & Hmax); [lia..|].
    rewrite Hr. exists a', b'. split; [done|]. split; [|split].
    + intros p Hp. destruct (decide (p = 0)) as [->|]; [fold t; lia | apply Hall; lia].
    + destruct Hmin as [->|(p & ? & ?)]; [exists 0 | exists p]; split; (done || lia).
    + destruct Hmax as [->|(p & ? & ?)]; [exists 0 | exists p]; split; (done || lia).
Qed.

Lemma lru_report_min_max_witness :
  Lru.print_replacement_report (blank 4096 0 2) = Undef /\
  exists mn mx,
    Lru.print_replacement_report lru_full_state =
      Ret [("LRU replacement (Clock value: %10d, Min timestamp: %10d, Max timestamp: %10d)\n"%string,
            [PInt (to_int (clock lru_full_state)); PInt mn; PInt mx])] lru_full_state /\
    (forall p, 0 <= p < numpags lru_full_state ->
       mn <= timestamp (page_at lru_full_state p) <= mx) /\
    (exists p, 0 <= p < numpags lru_full_state /\
       timestamp (page_at lru_full_state p) = mn) /\
    (exists p, 0 <= p < numpags lru_full_state /\
       timestamp (page_at lru_full_state p) = mx).
Proof.
  split.
  { apply (proj1 (lru_report_min_max (blank 4096 0 2))). vm_compute. discriminate. }
  apply (proj2 (lru_report_min_max lru_full_state)).
  - vm_compute. reflexivity.
  - vm_compute. reflexivity.
  - intros p Hp. change (numpags lru_full_state) with 3 in Hp.
    assert (Hc : p = 0 \/ p = 1 \/ p = 2) by lia.
    destruct Hc as [-> | [-> | ->]]; vm_compute; split; discriminate.
Defined.

(** ** The random draw *)

(** X13: myrandom returns a value of the range it is asked for,
    [from .. from + size - 1], whatever the floating-point expression
    evaluated to, provided the range is not empty and does not wrap
    around; a draw below [size] is returned as [from] plus the draw, the
    two checks then being idle. *)
Theorem myrandom_stays_in_range raw from size :
  0 <= from -> 0 < size -> from + size <= UINT_MOD ->
  from <= Random.myrandom raw from size <= from + size - 1 /\
  (0 <= raw < size -> Random.myrandom raw from size = from + raw).
Proof.
  intros Hf Hs Hle. unfold Random.myrandom. cbv zeta.
  rewrite (to_unsigned_small (from + size - 1)) by lia.
  pose proof (Z.mod_pos_bound (from + raw) UINT_MOD ltac:(done)) as Hn.
  fold (to_unsigned (from + raw)) in Hn.
  split.
  - destruct (Z.ltb_spec (from + size - 1) (to_unsigned (from + raw))); [lia|].
    destruct (Z.ltb_spec (to_unsigned (from + raw)) from); lia.
  - intros Hr. rewrite (to_unsigned_small (from + raw)) by lia.
    destruct (Z.ltb_spec (from + size - 1) (from + raw)); [lia|].
    destruct (Z.ltb_spec (from + raw) from); lia.
Qed.

Lemma myrandom_stays_in_range_witness :
  (0 <= Random.myrandom 7 0 3 <= 0 + 3 - 1) /\
  (0 <= 2 < 3 -> Random.myrandom 2 0 3 = 0 + 2).
Proof.
  split.
  - apply (myrandom_stays_in_range 7 0 3); [lia | lia | vm_compute; discriminate].
  - apply (myrandom_stays_in_range 2 0 3); [lia | lia | vm_compute; discriminate].
Defined.

(** X14: in the random variant, when no frame is free in a state a run
    from init_tables reached, choose_page_to_be_replaced returns for
    every draw, changes nothing, and its victim is the resident page of
    the frame drawn, the last frame standing for any draw beyond it. *)
Theorem random_victim_is_resident tr s0 l s raw :
  sizes_ok s0 -> (init_tables RANDOM ;; run RANDOM tr) s0 = Ret l s ->
  listfree s = -1 -> numframes s <= INT_MAX ->
  exists v,
    Random.choose_page_to_be_replaced raw s = Ret v s /\
    0 <= v < numpags s /\ present (page_at s v) = true /\
    frame (page_at s v) = Z.min (to_unsigned raw) (numframes s - 1).
Proof.
  intros Hs H Hlf Hmax. destruct (init_run_wf _ _ _ _ _ Hs H) as [k Hwf].
  apply (wf_no_free _ _ _ Hwf) in Hlf. subst k.
  pose proof Hwf as [_ Hfl Hnf _ Hocc _ _ _ _ _].
  assert (Hm : to_int (Random.myrandom raw 0 (to_unsigned (numframes s))) =
               Z.min (to_unsigned raw) (numframes s - 1)).
  { unfold Random.myrandom. cbv zeta.
    pose proof (Z.mod_pos_bound raw UINT_MOD ltac:(done)) as Hn.
    fold (to_unsigned raw) in Hn. change (0 + raw) with raw.
    rewrite (to_unsigned_small (numframes s)) by (unfold UINT_MOD, INT_MAX in *; lia).
    replace (0 + numframes s - 1) with (numframes s - 1) by lia.
    rewrite (to_unsigned_small (numframes s - 1))
      by (unfold UINT_MOD, INT_MAX in *; lia).
    destruct (Z.ltb_spec (numframes s - 1) (to_unsigned raw)).
    - rewrite to_int_small by lia. lia.
    - destruct (Z.ltb_spec (to_unsigned raw) 0); [lia|].
      rewrite to_int_small by lia. lia. }
  set (f := Z.min (to_unsigned raw) (numframes s - 1)) in *.
  assert (Hf : 0 <= f < numframes s).
  { pose proof (Z.mod_pos_bound raw UINT_MOD ltac:(done)) as Hn.
    fold (to_unsigned raw) in Hn. unfold f. lia. }
  destruct (Hocc f Hf) as (Hp & Hpr & Hfr).
  exists (page (frame_at s f)). split; [|done].
  unfold Random.choose_page_to_be_replaced, bind, rd. rewrite Hm.
  rewrite (frt_at_ok _ _ (frame_at s f)); [done|].
  apply (arr_get_in_range (mk_sframe (-1) (-1))). lia.
Qed.

Lemma random_victim_is_resident_witness :
  exists v,
    Random.choose_page_to_be_replaced 5 random_full_state = Ret v random_full_state /\
    0 <= v < numpags random_full_state /\
    present (page_at random_full_state v) = true /\
    frame (page_at random_full_state v) =
      Z.min (to_unsigned 5) (numframes random_full_state - 1).
Proof.
  apply (random_victim_is_resident [Rd 0; Wr 4096] (blank 4096 3 2) [0; 4096]).
  - unfold sizes_ok. vm_compute. repeat split; reflexivity.
  - vm_compute. reflexivity.
  - vm_compute. reflexivity.
  - vm_compute. discriminate.
Defined.

(** ** Initialisation *)

Lemma arr_nth_ext {A : Type} (d : A) (l1 l2 : list A) :
  length l1 = length l2 ->
  (forall i, 0 <= i < Z.of_nat (length l1) -> arr_nth d l1 i = arr_nth d l2 i) ->
  l1 = l2.
Proof.
  intros Hlen H. apply list_eq. intros n.
  destruct (decide (n < length l1)%nat) as [Hlt|Hge].
  - specialize (H (Z.of_nat n) ltac:(lia)). unfold arr_nth, arr_get in H.
    destruct (Z.leb_spec 0 (Z.of_nat n)); [|lia]. rewrite Nat2Z.id in H.
    destruct (lookup_lt_is_Some_2 l1 n Hlt) as [x Hx].
    destruct (lookup_lt_is_Some_2 l2 n ltac:(lia)) as [y Hy].
    rewrite Hx, Hy in *. cbn in H. by subst.
  - rewrite !lookup_ge_None_2 by lia. done.
Qed.

(** X15: init_tables, called again after a run, gives back the page
    table, the frame table and the two anchors it built the first time,
    and leaves the five counters where the run left them: it does not
    reset the statistics. *)
Theorem init_tables_again pol tr s0 l s :
  sizes_ok s0 -> numframes s0 <= INT_MAX ->
  (init_tables pol ;; run pol tr) s0 = Ret l s ->
  exists sI s',
    init_tables pol s0 = Ret tt sI /\ init_tables pol s = Ret tt s' /\
    pgt s' = pgt sI /\ frt s' = frt sI /\
    listfree s' = listfree sI /\ listoccupied s' = listoccupied sI /\
    numrefsread s' = numrefsread s /\ numrefswrite s' = numrefswrite s /\
    numpagefaults s' = numpagefaults s /\ numpgwriteback s' = numpgwriteback s /\
    numillegalrefs s' = numillegalrefs s.
Proof.
  intros Hs Hmax H.
  destruct (init_run_split _ _ _ _ _ Hs H) as (sI & Hinit & Hrun & Hwf & Hpost).
  destruct (run_same_cfg _ _ _ _ _ (ex_intro _ 0 Hwf) Hrun)
    as (_ & Hnp & Hnf & Hlp & Hlf).
  destruct (init_run_wf _ _ _ _ _ Hs H) as [k [Hpl Hfl Hn _ _ _ _ _ _ _]].
  destruct Hpost as ((_ & HnpI & HnfI & HlpI & HlfI) & _ & _ & _ & _ & _ & HlfrI & HloI
                     & HpgI & HfrI).
  destruct (init_tables_total pol s Hpl Hfl) as [s' Hinit']; [lia|].
  pose proof (init_tables_spec _ _ _ _ Hpl Hfl Hn Hinit')
    as ((_ & Hnp' & Hnf' & Hlp' & Hlf') & Hr & Hw & Hf & Hb & Hi & Hlfr & Hlo & Hpg & Hfr).
  destruct Hs as (Hs1 & Hs2 & Hs3).
  exists sI, s'. split; [done|]. split; [done|].
  split; [|split; [|repeat split; congruence]].
  - apply (arr_nth_ext zero_page); [congruence|]. intros i Hi0.
    fold (page_at s' i). fold (page_at sI i).
    rewrite Hpg, HpgI by lia. done.
  - apply (arr_nth_ext (mk_sframe (-1) (-1))); [congruence|]. intros i Hi0.
    fold (frame_at s' i). fold (frame_at sI i).
    rewrite Hfr, HfrI by lia. by rewrite Hnf, HnfI.
Qed.

Lemma init_tables_again_witness :
  exists sI s',
    init_tables FIFO (blank 4096 3 2) = Ret tt sI /\
    init_tables FIFO fifo_written_evicted = Ret tt s' /\
    pgt s' = pgt sI /\ frt s' = frt sI /\
    listfree s' = listfree sI /\ listoccupied s' = listoccupied sI /\
    numrefsread s' = numrefsread fifo_written_evicted /\
    numrefswrite s' = numrefswrite fifo_written_evicted /\
    numpagefaults s' = numpagefaults fifo_written_evicted /\
    numpgwriteback s' = numpgwriteback fifo_written_evicted /\
    numillegalrefs s' = numillegalrefs fifo_written_evicted.
Proof.
  apply (init_tables_again FIFO [Wr 0; Rd 4096; Rd 8192] (blank 4096 3 2) [0; 4096; 0]).
  - unfold sizes_ok. vm_compute. repeat split; reflexivity.
  - vm_compute. discriminate.
  - vm_compute. reflexivity.
Defined.

Lemma frt_upd_empty i f s : frt s = [] -> frt_upd i f s = Undef.
Proof.
  intros H. unfold frt_upd, bind, frt_at, arr_get. rewrite H.
  by destruct (0 <=? i).
Qed.

Lemma init_loop_empty k i s :
  frt s = [] -> init_loop k i s = match k with O => Ret i s | S _ => Undef end.
Proof.
  intros H. destruct k; [done|]. cbn [init_loop]. unfold bind at 1.
  by rewrite frt_upd_empty.
Qed.

(** X16: init_tables needs a frame.  With an empty frame table, as a
    system of zero frames has, it is undefined in the four variants: the
    lines after the loop write [frt[0]]. *)
Theorem init_tables_needs_a_frame pol s :
  frt s = [] -> init_tables pol s = Undef.
Proof.
  intros H.
  destruct pol; cbn [init_tables];
    unfold Fifo.init_tables, Random.init_tables, Fifo2ch.init_tables,
      Lru.init_tables, memset_pgt, bind, rd, wr, int_val, ret, undef;
    proj_simpl;
    (destruct ((0 <=? numpags s) && (numpags s <=? Z.of_nat (length (pgt s))));
       [|done]);
    proj_simpl;
    (destruct (in_int_range (numframes s - 1)); [|done]);
    rewrite init_loop_empty by (proj_simpl; exact H);
    (destruct (Z.to_nat (numframes s - 1)); [|done]);
    by rewrite frt_upd_empty by (proj_simpl; exact H).
Qed.

Lemma init_tables_needs_a_frame_witness :
  init_tables LRU (blank 4096 3 0) = Undef.
Proof. apply (init_tables_needs_a_frame LRU (blank 4096 3 0)). reflexivity. Defined.

(** ** Second chance: the first page found unreferenced is the victim *)

Lemma first_false (P : nat -> bool) n :
  P n = false ->
  exists d, (d <= n)%nat /\ P d = false /\ forall j, (j < d)%nat -> P j = true.
Proof.
  revert P. induction n as [|n IH]; intros P Hn.
  - exists O. split; [done|]. split; [done|]. intros j Hj. lia.
  - destruct (P O) eqn:H0.
    + destruct (IH (fun j => P (S j)) Hn) as (d & Hd & Hf & Hall).
      exists (S d). split; [lia|]. split; [done|].
      intros [|j] Hj; [done|]. apply Hall. lia.
    + exists O. split; [lia|]. split; [done|]. intros j Hj. lia.
Qed.

Lemma mod_shift_ne h m n :
  0 <= h < n -> 0 < m < n -> (h + m) mod n <> h.
Proof.
  intros Hh Hm. destruct (decide (h + m < n)) as [Hlt|Hge].
  - rewrite Z.mod_small by lia. lia.
  - replace (h + m) with ((h + m - n) + 1 * n) by lia.
    rewrite Z_mod_plus_full, Z.mod_small by lia. lia.
Qed.

Lemma ring_succ_mod h n :
  0 <= h < n -> (if decide (h = n - 1) then 0 else h + 1) = (h + 1) mod n.
Proof.
  intros Hh. case_decide as He.
  - subst h. replace (n - 1 + 1) with (0 + 1 * n) by lia.
    rewrite Z_mod_plus_full, Z.mod_small by lia. done.
  - rewrite Z.mod_small by lia. done.
Qed.

(** The frame the walk looks at first, and the frame it looks at after
    pardoning the page of that one, when every frame is occupied. *)
Lemma full_walk_facts s :
  wf_at FIFO2CH s (numframes s) ->
  walk_ok s /\ 0 <= head_frame s < numframes s /\
  wf_at FIFO2CH (pardon s) (numframes s) /\
  head_frame (pardon s) = (head_frame s + 1) mod numframes s.
Proof.
  intros Hwf. pose proof Hwf as [Hpl Hfl Hnf _ Hocc _ _ _ _ _].
  destruct (full_ring_next FIFO2CH s 0 Hwf eq_refl) as (_ & _ & Hlo); [lia|].
  destruct (full_ring_next FIFO2CH s (listoccupied s) Hwf eq_refl Hlo) as (_ & Hh & _).
  fold (head_frame s) in Hh.
  destruct (Hocc _ Hh) as (Hc & _). fold (candidate s) in Hc.
  assert (Hok : walk_ok s) by (unfold walk_ok; lia).
  split; [done|]. split; [done|].
  destruct (pardon_post s Hwf Hok) as (Hwf' & _).
  split; [exact Hwf'|].
  destruct (full_ring_next FIFO2CH s (head_frame s) Hwf eq_refl Hh) as (Hnx & _).
  unfold head_frame at 1. unfold pardon at 1 2. proj_simpl.
  change (frame_at _ (head_frame s)) with (frame_at s (head_frame s)).
  rewrite Hnx. by apply ring_succ_mod.
Qed.

(** The walk stops at the first frame, in ring order from the head, whose
    page has its referenced bit clear. *)
Lemma second_chance_first_clear (d : nat) s :
  wf_at FIFO2CH s (numframes s) -> Z.of_nat d < numframes s ->
  (forall j, 0 <= j < Z.of_nat d ->
     referenced (page_at s (page (frame_at s ((head_frame s + j) mod numframes s))))
     = true) ->
  referenced
    (page_at s (page (frame_at s ((head_frame s + Z.of_nat d) mod numframes s))))
    = false ->
  exists s',
    Fifo2ch.choose_loop (S d) s =
    Ret (page (frame_at s ((head_frame s + Z.of_nat d) mod numframes s))) s'.
Proof.
  revert s. induction d as [|d IH]; intros s Hwf Hd Hset Hclr.
  - destruct (full_walk_facts s Hwf) as (Hok & Hh & _).
    rewrite Z.add_0_r, Z.mod_small in * by lia.
    rewrite (choose_loop_step _ _ Hok). fold (candidate s) in Hclr.
    rewrite Hclr. by exists s.
  - destruct (full_walk_facts s Hwf) as (Hok & Hh & Hwf' & Hh').
    pose proof Hwf as [_ _ _ _ Hocc _ _ _ _ _].
    assert (H0 : referenced (page_at s (candidate s)) = true).
    { specialize (Hset 0 ltac:(lia)). by rewrite Z.add_0_r, Z.mod_small in Hset by lia. }
    rewrite (choose_loop_step _ _ Hok), H0.
    assert (Hshift : forall j, 0 <= j ->
              (head_frame (pardon s) + j) mod numframes s =
              (head_frame s + (j + 1)) mod numframes s).
    { intros j Hj. rewrite Hh', Z.add_mod_idemp_l by lia. f_equal. lia. }
    assert (Hbit : forall j, 0 <= j < Z.of_nat (S d) - 1 \/ j = Z.of_nat (S d) - 1 ->
              referenced (page_at (pardon s)
                (page (frame_at (pardon s)
                   ((head_frame (pardon s) + j) mod numframes (pardon s))))) =
              referenced (page_at s
                (page (frame_at s ((head_frame s + (j + 1)) mod numframes s))))).
    { intros j Hj.
      change (numframes (pardon s)) with (numframes s).
      change (frame_at (pardon s)) with (frame_at s).
      rewrite Hshift by lia.
      set (f := (head_frame s + (j + 1)) mod numframes s).
      assert (Hf : 0 <= f < numframes s) by (apply Z.mod_pos_bound; lia).
      assert (Hfne : f <> head_frame s) by (apply mod_shift_ne; lia).
      rewrite pardon_page_at by done. case_decide as He; [|done].
      destruct (Hocc f Hf) as (_ & _ & Hb1).
      destruct (Hocc _ Hh) as (_ & _ & Hb2). fold (candidate s) in Hb2.
      rewrite He in Hb1. congruence. }
    destruct (IH (pardon s)) as (s' & Hr).
    + exact Hwf'.
    + change (numframes (pardon s)) with (numframes s). lia.
    + intros j Hj. rewrite Hbit by lia. apply Hset. lia.
    + rewrite Hbit by lia.
      replace (Z.of_nat d + 1) with (Z.of_nat (S d)) by lia. done.
    + exists s'. rewrite Hr.
      change (numframes (pardon s)) with (numframes s).
      change (frame_at (pardon s)) with (frame_at s).
      rewrite Hshift by lia.
      replace (Z.of_nat d + 1) with (Z.of_nat (S d)) by lia. done.
Qed.

(** X17: the second chance.  In the second-chance variant, in a state a
    run from init_tables reached with no frame left free, when some
    resident page has its referenced bit clear, a reference to an absent
    page of the page table evicts a page whose referenced bit was clear:
    every resident page whose bit was set is still resident afterwards. *)
Theorem second_chance_spares_referenced tr s0 l s raw va op pa s' q0 :
  sizes_ok s0 -> (init_tables FIFO2CH ;; run FIFO2CH tr) s0 = Ret l s ->
  listfree s = -1 ->
  0 <= page_of s va < numpags s ->
  present (page_at s (page_of s va)) = false ->
  0 <= q0 < numpags s -> present (page_at s q0) = true ->
  referenced (page_at s q0) = false ->
  sim_mmu FIFO2CH raw va op s = Ret pa s' ->
  exists v,
    0 <= v < numpags s /\ present (page_at s v) = true /\
    referenced (page_at s v) = false /\
    present (page_at s' v) = false /\
    forall p, 0 <= p < numpags s -> present (page_at s p) = true -> p <> v ->
      present (page_at s' p) = true.
Proof.
  intros Hs Hrun Hlf Hpg Hp Hq0 Hq0p Hq0r H.
  destruct (init_run_wf _ _ _ _ _ Hs Hrun) as [k Hwf].
  apply (wf_no_free _ _ _ Hwf) in Hlf. subst k.
  destruct (sim_mmu_step_post _ _ _ _ _ _ _ _ Hwf Hpg H) as (_ & _ & Hpost).
  unfold step_post in Hpost. rewrite Hp, decide_False in Hpost by lia.
  destruct Hpost as (v & s1 & Hc & _ & _ & _ & _ & _ & Hv & Hvne & Hvp & Hq).
  set (sp := set_numpagefaults (numpagefaults s + 1) s) in *.
  assert (Hwf0 : wf_at FIFO2CH sp (numframes sp)).
  { eapply wf_gen_ext; [exact Hwf|done..|by left|done|done]. }
  pose proof (choose_spec _ _ _ _ _ Hwf0 Hc) as (_ & _ & _ & _ & _ & _ & _ & Hq2).
  pose proof Hwf as [_ _ Hnf _ _ _ Hpres _ _ _].
  destruct (full_walk_facts sp Hwf0) as (_ & Hh & _).
  change (numframes sp) with (numframes s) in *.
  destruct (Hpres q0 Hq0 Hq0p) as [Hfq Hback].
  set (h := head_frame sp) in *.
  set (jq := (frame (page_at s q0) - h) mod numframes s).
  assert (Hjq : 0 <= jq < numframes s) by (apply Z.mod_pos_bound; lia).
  assert (Hjq' : (h + jq) mod numframes s = frame (page_at s q0)).
  { unfold jq. rewrite Z.add_mod_idemp_r by lia.
    replace (h + (frame (page_at s q0) - h)) with (frame (page_at s q0)) by lia.
    apply Z.mod_small. lia. }
  set (P := fun j : nat =>
         referenced (page_at sp
           (page (frame_at sp ((h + Z.of_nat j) mod numframes s))))).
  destruct (first_false P (Z.to_nat jq)) as (d & Hd & Hclr & Hset).
  { unfold P. rewrite Z2Nat.id by lia. rewrite Hjq'.
    change (frame_at sp) with (frame_at s). rewrite Hback. exact Hq0r. }
  destruct (second_chance_first_clear d sp Hwf0) as (s2 & Hloop).
  - change (numframes sp) with (numframes s). lia.
  - intros j Hj. specialize (Hset (Z.to_nat j) ltac:(lia)).
    unfold P in Hset. by rewrite Z2Nat.id in Hset by lia.
  - exact Hclr.
  - apply choose_loop_enough_fuel in Hloop.
    cbn [choose_page_to_be_replaced] in Hc. rewrite Hloop in Hc.
    injection Hc as Hv1 Hs1.
    change (numframes sp) with (numframes s) in Hv1. fold h in Hv1.
    assert (Hvr : referenced (page_at s v) = false).
    { unfold P in Hclr. by rewrite Hv1 in Hclr. }
    exists v. split; [done|]. split; [done|]. split; [done|]. split.
    + rewrite Hq, decide_False, decide_True by done. done.
    + intros p Hp0 Hpp Hpv.
      assert (p <> page_of s va) by congruence.
      rewrite Hq, !decide_False by done.
      destruct (Hq2 p) as (-> & _). exact Hpp.
Qed.

Lemma second_chance_spares_referenced_witness :
  let s' := final_state (sim_mmu FIFO2CH 0 0 "R" fifo2ch_mixed_state)
              fifo2ch_mixed_state in
  exists v,
    0 <= v < numpags fifo2ch_mixed_state /\
    present (page_at fifo2ch_mixed_state v) = true /\
    referenced (page_at fifo2ch_mixed_state v) = false /\
    present (page_at s' v) = false /\
    forall p, 0 <= p < numpags fifo2ch_mixed_state ->
      present (page_at fifo2ch_mixed_state p) = true -> p <> v ->
      present (page_at s' p) = true.
Proof.
  intros s'.
  apply (second_chance_spares_referenced [Rd 0; Rd 4096; Rd 0; Rd 8192]
           (blank 4096 3 2) [0; 4096; 0; 0] fifo2ch_mixed_state 0 0 "R" 4096 s' 1).
  - unfold sizes_ok. vm_compute. repeat split; reflexivity.
  - vm_compute. reflexivity.
  - vm_compute. reflexivity.
  - vm_compute. split; [discriminate | reflexivity].
  - vm_compute. reflexivity.
  - vm_compute. split; [discriminate | reflexivity].
  - vm_compute. reflexivity.
  - vm_compute. reflexivity.
  - vm_compute. reflexivity.
Defined.

(** ** Second chance: with every bit set it is FIFO *)

Lemma full_walk_anchor s :
  wf_at FIFO2CH s (numframes s) ->
  0 <= listoccupied s < numframes s /\
  head_frame s = (listoccupied s + 1) mod numframes s.
Proof.
  intros Hwf. pose proof Hwf as [_ _ Hnf _ _ _ _ _ _ _].
  destruct (full_ring_next FIFO2CH s 0 Hwf eq_refl) as (_ & _ & Hlo); [lia|].
  destruct (full_ring_next FIFO2CH s (listoccupied s) Hwf eq_refl Hlo) as (Hnx & _).
  split; [done|]. unfold head_frame. rewrite Hnx. by apply ring_succ_mod.
Qed.

(** Two frames of a full table hold different pages. *)
Lemma full_frames_inj pol s f1 f2 :
  wf_at pol s (numframes s) ->
  0 <= f1 < numframes s -> 0 <= f2 < numframes s ->
  page (frame_at s f1) = page (frame_at s f2) -> f1 = f2.
Proof.
  intros [_ _ _ _ Hocc _ _ _ _ _] H1 H2 He.
  destruct (Hocc f1 H1) as (_ & _ & Hb1). destruct (Hocc f2 H2) as (_ & _ & Hb2).
  rewrite He in Hb1. congruence.
Qed.

(** The walk over [n] frames whose pages all have their bit set: it
    pardons them, in ring order, and goes on from the state [sn]. *)
Lemma pardon_sweep (n : nat) s :
  wf_at FIFO2CH s (numframes s) -> Z.of_nat n <= numframes s ->
  (forall j, 0 <= j < Z.of_nat n ->
     referenced (page_at s (page (frame_at s ((head_frame s + j) mod numframes s))))
     = true) ->
  exists sn,
    (forall fuel,
       Fifo2ch.choose_loop (n + fuel) s = Fifo2ch.choose_loop fuel sn) /\
    wf_at FIFO2CH sn (numframes s) /\ frt sn = frt s /\ numframes sn = numframes s /\
    head_frame sn = (head_frame s + Z.of_nat n) mod numframes s /\
    listoccupied sn = (listoccupied s + Z.of_nat n) mod numframes s /\
    (forall q j, 0 <= j < Z.of_nat n ->
       q = page (frame_at s ((head_frame s + j) mod numframes s)) ->
       page_at sn q = set_referenced false (page_at s q)) /\
    (forall q,
       (forall j, 0 <= j < Z.of_nat n ->
          q <> page (frame_at s ((head_frame s + j) mod numframes s))) ->
       page_at sn q = page_at s q).
Proof.
  revert s. induction n as [|n IH]; intros s Hwf Hn Hset.
  - destruct (full_walk_facts s Hwf) as (_ & Hh & _).
    destruct (full_walk_anchor s Hwf) as (Hlo & _).
    exists s. split; [done|]. split; [done|]. split; [done|]. split; [done|].
    rewrite !Z.add_0_r, !Z.mod_small by lia.
    split; [done|]. split; [done|]. split; [intros; lia | done].
  - destruct (full_walk_facts s Hwf) as (Hok & Hh & Hwf' & Hh').
    destruct (full_walk_anchor s Hwf) as (Hlo & Hhl).
    assert (H0 : referenced (page_at s (candidate s)) = true).
    { specialize (Hset 0 ltac:(lia)). by rewrite Z.add_0_r, Z.mod_small in Hset by lia. }
    assert (Hshift : forall j, 0 <= j ->
              (head_frame (pardon s) + j) mod numframes s =
              (head_frame s + (j + 1)) mod numframes s).
    { intros j Hj. rewrite Hh', Z.add_mod_idemp_l by lia. f_equal. lia. }
    assert (Hfar : forall j, 0 <= j < Z.of_nat n ->
              page (frame_at s ((head_frame s + (j + 1)) mod numframes s))
              <> candidate s).
    { intros j Hj He. unfold candidate in He.
      apply (full_frames_inj FIFO2CH s) in He; [|done|apply Z.mod_pos_bound; lia|done].
      revert He. apply mod_shift_ne; lia. }
    destruct (IH (pardon s)) as (sn & Hloop & Hwfn & Hfrt & Hnfn & Hhn & Hlon & Hin & Hout).
    + exact Hwf'.
    + change (numframes (pardon s)) with (numframes s). lia.
    + intros j Hj.
      change (numframes (pardon s)) with (numframes s).
      change (frame_at (pardon s)) with (frame_at s).
      rewrite Hshift by lia. rewrite pardon_page_at by done.
      rewrite decide_False by (apply Hfar; lia). apply Hset. lia.
    + change (numframes (pardon s)) with (numframes s) in *.
      change (frame_at (pardon s)) with (frame_at s) in *.
      change (frt (pardon s)) with (frt s) in *.
      change (listoccupied (pardon s)) with (head_frame s) in Hlon.
      exists sn. split; [|split; [done|split; [done|split; [done|split; [|split; [|split]]]]]].
      * intros fuel. cbn [Nat.add]. rewrite (choose_loop_step _ _ Hok), H0. apply Hloop.
      * rewrite Hhn, Hshift by lia. f_equal. lia.
      * rewrite Hlon, Hhl, Z.add_mod_idemp_l by lia. f_equal. lia.
      * intros q j Hj Hq. destruct (decide (j = 0)) as [->|Hj0].
        -- rewrite Z.add_0_r, Z.mod_small in Hq by lia. fold (candidate s) in Hq.
           subst q. rewrite Hout.
           ++ rewrite pardon_page_at by done. by rewrite decide_True.
           ++ intros j' Hj'. rewrite Hshift by lia.
              intros He. symmetry in He. revert He. apply Hfar. lia.
        -- rewrite (Hin q (j - 1)).
           ++ rewrite pardon_page_at by done. rewrite decide_False; [done|].
              subst q. replace j with ((j - 1) + 1) by lia. apply Hfar. lia.
           ++ lia.
           ++ rewrite Hshift by lia. by replace (j - 1 + 1) with j by lia.
      * intros q Hq. rewrite Hout.
        -- rewrite pardon_page_at by done. rewrite decide_False; [done|].
           specialize (Hq 0 ltac:(lia)).
           by rewrite Z.add_0_r, Z.mod_small in Hq by lia.
        -- intros j Hj. rewrite Hshift by lia. apply Hq. lia.
Qed.

(** X18: with every referenced bit set, second chance is FIFO.  In the
    second-chance variant, in a state a run from init_tables reached with
    no frame left free and the referenced bit of every resident page set
    (as it is the first time the memory is full), a reference to an
    absent page of the page table evicts the page the FIFO
    choose_page_to_be_replaced would return, the one of the frame after
    the anchor; the new page takes this frame, the anchor is where it
    was, and every other resident page stays, its referenced bit
    cleared. *)
Theorem second_chance_all_referenced tr s0 l s raw va op pa s' :
  sizes_ok s0 -> (init_tables FIFO2CH ;; run FIFO2CH tr) s0 = Ret l s ->
  listfree s = -1 ->
  0 <= page_of s va < numpags s ->
  present (page_at s (page_of s va)) = false ->
  (forall p, 0 <= p < numpags s -> present (page_at s p) = true ->
     referenced (page_at s p) = true) ->
  sim_mmu FIFO2CH raw va op s = Ret pa s' ->
  let v := page (frame_at s (head_frame s)) in
  Fifo.choose_page_to_be_replaced s = Ret v (set_listoccupied (head_frame s) s) /\
  present (page_at s v) = true /\ present (page_at s' v) = false /\
  frame (page_at s' (page_of s va)) = head_frame s /\
  listoccupied s' = listoccupied s /\
  forall p, 0 <= p < numpags s -> present (page_at s p) = true -> p <> v ->
    present (page_at s' p) = true /\ referenced (page_at s' p) = false.
Proof.
  intros Hs Hrun Hlf Hpg Hp Hall H v.
  destruct (init_run_wf _ _ _ _ _ Hs Hrun) as [k Hwf].
  apply (wf_no_free _ _ _ Hwf) in Hlf. subst k.
  destruct (sim_mmu_step_post _ _ _ _ _ _ _ _ Hwf Hpg H) as (_ & _ & Hpost).
  unfold step_post in Hpost. rewrite Hp, decide_False in Hpost by lia.
  destruct Hpost as (v' & s1 & Hc & _ & _ & _ & _ & Hlo' & Hv & Hvne & Hvp & Hq).
  set (sp := set_numpagefaults (numpagefaults s + 1) s) in *.
  assert (Hwf0 : wf_at FIFO2CH sp (numframes sp)).
  { eapply wf_gen_ext; [exact Hwf|done..|by left|done|done]. }
  pose proof Hwf as [_ Hfl Hnf _ Hocc _ Hpres _ _ _].
  destruct (full_walk_facts s Hwf) as (_ & Hh & _).
  destruct (full_walk_anchor s Hwf) as (Hlo & Hhl).
  destruct (pardon_sweep (Z.to_nat (numframes s)) sp Hwf0)
    as (sn & Hloop & Hwfn & Hfrt & Hnfn & Hhn & Hlon & Hin & _).
  { change (numframes sp) with (numframes s). lia. }
  { intros j Hj. change (numframes sp) with (numframes s) in *.
    change (page_at sp) with (page_at s). change (frame_at sp) with (frame_at s).
    assert (Hf : 0 <= (head_frame sp + j) mod numframes s < numframes s)
      by (apply Z.mod_pos_bound; lia).
    destruct (Hocc _ Hf) as (? & ? & _). by apply Hall. }
  change (numframes sp) with (numframes s) in *.
  change (head_frame sp) with (head_frame s) in *.
  change (listoccupied sp) with (listoccupied s) in *.
  change (frame_at sp) with (frame_at s) in *.
  change (page_at sp) with (page_at s) in *.
  change (frt sp) with (frt s) in *.
  rewrite Z2Nat.id in * by lia.
  assert (Hhn' : head_frame sn = head_frame s).
  { rewrite Hhn. replace (head_frame s + numframes s)
      with (head_frame s + 1 * numframes s) by lia.
    rewrite Z_mod_plus_full. apply Z.mod_small. lia. }
  assert (Hlon' : listoccupied sn = listoccupied s).
  { rewrite Hlon. replace (listoccupied s + numframes s)
      with (listoccupied s + 1 * numframes s) by lia.
    rewrite Z_mod_plus_full. apply Z.mod_small. lia. }
  assert (Hfa : frame_at sn = frame_at s) by (unfold frame_at; by rewrite Hfrt).
  assert (Hcand : candidate sn = v) by (unfold candidate; by rewrite Hhn', Hfa).
  assert (Hat : forall p, 0 <= p < numpags s -> present (page_at s p) = true ->
            page_at sn p = set_referenced false (page_at s p)).
  { intros p Hp0 Hpp. destruct (Hpres p Hp0 Hpp) as [Hfp Hback].
    apply (Hin p ((frame (page_at s p) - head_frame s) mod numframes s)).
    - apply Z.mod_pos_bound. lia.
    - rewrite Z.add_mod_idemp_r by lia.
      replace (head_frame s + (frame (page_at s p) - head_frame s))
        with (frame (page_at s p)) by lia.
      rewrite Z.mod_small by lia. done. }
  destruct (Hocc _ Hh) as (Hv0 & Hvp0 & Hvf). fold v in Hv0, Hvp0, Hvf.
  assert (Hchoose : Fifo2ch.choose_page_to_be_replaced sp = Ret v sn).
  { apply (choose_loop_enough_fuel (Z.to_nat (numframes s) + 1)).
    rewrite Hloop.
    rewrite <- Hnfn in Hwfn.
    destruct (full_walk_facts sn Hwfn) as (Hokn & _).
    rewrite (choose_loop_step _ _ Hokn), Hcand, (Hat v Hv0 Hvp0). done. }
  cbn [choose_page_to_be_replaced] in Hc. rewrite Hchoose in Hc.
  injection Hc as <- <-.
  split.
  { unfold Fifo.choose_page_to_be_replaced, bind, rd.
    rewrite (frt_at_ok _ _ (frame_at s (listoccupied s)))
      by (apply (arr_get_in_range (mk_sframe (-1) (-1))); lia).
    fold (head_frame s).
    rewrite (frt_at_ok _ _ (frame_at s (head_frame s)))
      by (apply (arr_get_in_range (mk_sframe (-1) (-1))); lia).
    done. }
  split; [done|]. split.
  { rewrite Hq, decide_False, decide_True by done. done. }
  split.
  { rewrite Hq, decide_True by done.
    destruct (referenced_page_fields FIFO2CH op (clock s)
                (replaced_page (frame (page_at s v)) (page_at sn (page_of s va))))
      as (_ & -> & _). cbn. exact Hvf. }
  split; [congruence|].
  intros p Hp0 Hpp Hpv.
  assert (p <> page_of s va) by congruence.
  rewrite Hq, !decide_False by done. rewrite (Hat p Hp0 Hpp). cbn. done.
Qed.

Lemma second_chance_all_referenced_witness :
  let s' := final_state (sim_mmu FIFO2CH 0 8192 "R" fifo2ch_full_state)
              fifo2ch_full_state in
  let v := page (frame_at fifo2ch_full_state (head_frame fifo2ch_full_state)) in
  Fifo.choose_page_to_be_replaced fifo2ch_full_state =
    Ret v (set_listoccupied (head_frame fifo2ch_full_state) fifo2ch_full_state) /\
  present (page_at fifo2ch_full_state v) = true /\ present (page_at s' v) = false /\
  frame (page_at s' (page_of fifo2ch_full_state 8192)) =
    head_frame fifo2ch_full_state /\
  listoccupied s' = listoccupied fifo2ch_full_state /\
  forall p, 0 <= p < numpags fifo2ch_full_state ->
    present (page_at fifo2ch_full_state p) = true -> p <> v ->
    present (page_at s' p) = true /\ referenced (page_at s' p) = false.
Proof.
  intros s'.
  apply (second_chance_all_referenced [Rd 0; Rd 4096; Rd 0] (blank 4096 3 2)
           [0; 4096; 0] fifo2ch_full_state 0 8192 "R" 0 s').
  - unfold sizes_ok. vm_compute. repeat split; reflexivity.
  - vm_compute. reflexivity.
  - vm_compute. reflexivity.
  - vm_compute. split; [discriminate | reflexivity].
  - vm_compute. reflexivity.
  - intros p Hp Hpp. change (numpags fifo2ch_full_state) with 3 in Hp.
    assert (Hc : p = 0 \/ p = 1 \/ p = 2) by lia.
    destruct Hc as [-> | [-> | ->]]; [reflexivity | reflexivity | discriminate Hpp].
  - vm_compute. reflexivity.
Defined.

(** ** Write-backs are paid by writes *)

Lemma count_if_nonneg {A : Type} (f : A -> bool) l : 0 <= count_if f l.
Proof. induction l as [|x l IH]; cbn [count_if]; [done|]. destruct (f x); lia. Qed.

Lemma count_if_insert {A : Type} (f : A -> bool) l (n : nat) x y :
  l !! n = Some y ->
  count_if f (<[n := x]> l) =
  count_if f l - (if f y then 1 else 0) + (if f x then 1 else 0).
Proof.
  revert n. induction l as [|z l IH]; intros n Hn; [done|].
  destruct n as [|n].
  - change (<[0%nat := x]> (z :: l)) with (x :: l).
    change ((z :: l) !! 0%nat) with (Some z) in Hn. injection Hn as ->.
    cbn [count_if]. lia.
  - change (<[S n := x]> (z :: l)) with (z :: <[n := x]> l).
    change ((z :: l) !! S n) with (l !! n) in Hn.
    cbn [count_if]. rewrite (IH n Hn). lia.
Qed.

Lemma count_if_ext {A : Type} (f : A -> bool) l1 l2 :
  length l1 = length l2 ->
  (forall n y1 y2, l1 !! n = Some y1 -> l2 !! n = Some y2 -> f y1 = f y2) ->
  count_if f l1 = count_if f l2.
Proof.
  revert l2. induction l1 as [|x l1 IH]; intros [|y l2] Hlen H; try done.
  cbn [count_if]. rewrite (H O x y eq_refl eq_refl). f_equal.
  apply IH; [by injection Hlen|]. intros n y1 y2 H1 H2. by apply (H (S n)).
Qed.

Lemma arr_nth_lookup {A : Type} (d : A) l (n : nat) y :
  l !! n = Some y -> arr_nth d l (Z.of_nat n) = y.
Proof.
  intros H. unfold arr_nth, arr_get. destruct (Z.leb_spec 0 (Z.of_nat n)); [|lia].
  by rewrite Nat2Z.id, H.
Qed.

(** Two tables of the same size that agree, as far as [f] sees, outside
    one index. *)
Lemma count_if_change1 {A : Type} (f : A -> bool) (d : A) l l' i :
  length l' = length l -> 0 <= i < Z.of_nat (length l) ->
  (forall q, q <> i -> 0 <= q < Z.of_nat (length l) ->
     f (arr_nth d l' q) = f (arr_nth d l q)) ->
  count_if f l' =
  count_if f l - (if f (arr_nth d l i) then 1 else 0)
    + (if f (arr_nth d l' i) then 1 else 0).
Proof.
  intros Hlen Hi H.
  assert (Hin : (Z.to_nat i < length l)%nat) by lia.
  destruct (lookup_lt_is_Some_2 l (Z.to_nat i) Hin) as [y Hy].
  replace (arr_nth d l i) with y
    by (symmetry; rewrite <- (Z2Nat.id i) by lia; by apply arr_nth_lookup).
  rewrite <- (count_if_insert f l (Z.to_nat i) (arr_nth d l' i) y Hy).
  apply count_if_ext; [by rewrite length_insert|].
  intros n y1 y2 H1 H2.
  rewrite <- (arr_nth_lookup d _ _ _ H1).
  destruct (decide (n = Z.to_nat i)) as [->|Hne].
  - rewrite list_lookup_insert_eq in H2 by lia. injection H2 as <-.
    by rewrite Z2Nat.id by lia.
  - rewrite list_lookup_insert_ne in H2 by done.
    rewrite <- (arr_nth_lookup d _ _ _ H2). apply H; [lia|].
    apply lookup_lt_Some in H2. lia.
Qed.

Lemma count_if_change2 {A : Type} (f : A -> bool) (d : A) l l' i1 i2 :
  length l' = length l ->
  0 <= i1 < Z.of_nat (length l) -> 0 <= i2 < Z.of_nat (length l) -> i1 <> i2 ->
  (forall q, q <> i1 -> q <> i2 -> 0 <= q < Z.of_nat (length l) ->
     f (arr_nth d l' q) = f (arr_nth d l q)) ->
  count_if f l' =
  count_if f l - (if f (arr_nth d l i1) then 1 else 0)
    + (if f (arr_nth d l' i1) then 1 else 0)
    - (if f (arr_nth d l i2) then 1 else 0)
    + (if f (arr_nth d l' i2) then 1 else 0).
Proof.
  intros Hlen H1 H2 Hne H.
  rewrite (count_if_change1 f d (arr_set l i1 (arr_nth d l' i1)) l' i2).
  - rewrite (count_if_change1 f d l (arr_set l i1 (arr_nth d l' i1)) i1).
    + rewrite arr_nth_set_eq by done. rewrite arr_nth_set_ne by done. lia.
    + by rewrite arr_set_length.
    + done.
    + intros q Hq _. by rewrite arr_nth_set_ne.
  - by rewrite arr_set_length.
  - by rewrite arr_set_length.
  - rewrite arr_set_length. intros q Hq Hr.
    destruct (decide (q = i1)) as [->|Hq1].
    + by rewrite arr_nth_set_eq.
    + rewrite arr_nth_set_ne by done. by apply H.
Qed.

(** One reference: the write-backs counted and the resident modified
    pages together grow by no more than the writes counted. *)
Lemma dirty_step pol raw va op s k pa s' :
  wf_at pol s k -> sim_mmu pol raw va op s = Ret pa s' ->
  numrefswrite s <= numrefswrite s' /\
  numpgwriteback s' + count_if dirty (pgt s') <=
  numpgwriteback s + count_if dirty (pgt s) + (numrefswrite s' - numrefswrite s).
Proof.
  intros Hwf H.
  assert (Hsz : to_unsigned (pagsz s) <> 0).
  { unfold sim_mmu in H. sim_inv_line. sim_inv_if; [done|]. by apply Z.eqb_neq. }
  destruct (decide (0 <= page_of s va < numpags s)) as [Hpg|Hpg].
  2:{ rewrite sim_mmu_illegal in H by done. sim_inv_line. lia. }
  destruct (sim_mmu_counts _ _ _ _ _ _ _ _ Hwf Hpg H) as (_ & Hw & _).
  destruct (sim_mmu_step_post _ _ _ _ _ _ _ _ Hwf Hpg H)
    as ((_ & _ & _ & Hlen & _) & _ & Hpost).
  pose proof Hwf as [Hpl _ _ _ _ _ _ Hclean _ _].
  assert (HW : numrefswrite s' - numrefswrite s =
               (if Ascii.eqb op "R" then 0 else if Ascii.eqb op "W" then 1 else 0))
    by lia.
  assert (HWW : Ascii.eqb op "W" = true -> numrefswrite s' - numrefswrite s = 1).
  { intros He. apply Ascii.eqb_eq in He. subst op. by rewrite HW. }
  assert (HW0 : 0 <= numrefswrite s' - numrefswrite s)
    by (rewrite HW; destruct (Ascii.eqb op "R"), (Ascii.eqb op "W"); lia).
  split; [lia|].
  set (pg := page_of s va) in *.
  unfold step_post in Hpost.
  destruct (present (page_at s pg)) eqn:Hp; [|case_decide as Hk].
  - destruct Hpost as (_ & _ & _ & _ & _ & Hwb & Hq).
    rewrite (count_if_change1 dirty zero_page (pgt s) (pgt s') pg) by
      (done || lia || (intros q Hne _; fold (page_at s' q); fold (page_at s q);
                       by rewrite Hq, decide_False)).
    fold (page_at s' pg). fold (page_at s pg). rewrite Hq, decide_True by done.
    unfold dirty.
    destruct (referenced_page_fields pol op (clock s) (page_at s pg)) as (-> & _).
    rewrite referenced_page_modified, Hp. cbn [andb].
    destruct (modified (page_at s pg)); cbn [orb]; [lia|].
    destruct (Ascii.eqb op "W") eqn:EW; [rewrite (HWW eq_refl)|]; lia.
  - destruct Hpost as (_ & _ & Hwb & _ & Hq).
    rewrite (count_if_change1 dirty zero_page (pgt s) (pgt s') pg) by
      (done || lia || (intros q Hne _; fold (page_at s' q); fold (page_at s q);
                       by rewrite Hq, decide_False)).
    fold (page_at s' pg). fold (page_at s pg). rewrite Hq, decide_True by done.
    unfold dirty at 2 3.
    destruct (referenced_page_fields pol op (clock s)
                (occupied_page pol k (page_at s pg))) as (-> & _).
    rewrite referenced_page_modified, Hp.
    destruct (occupied_page_fields pol k (page_at s pg)) as (-> & _ & ->);
      [|by apply Hclean].
    cbn [andb orb].
    destruct (Ascii.eqb op "W") eqn:EW; [rewrite (HWW eq_refl)|]; lia.
  - destruct Hpost as (v & s1 & Hc & _ & _ & Hwb & _ & _ & Hv & Hne & Hvp & Hq).
    assert (k = numframes s) as -> by (destruct Hwf; lia).
    assert (Hwf0 : wf_at pol (set_numpagefaults (numpagefaults s + 1) s)
                     (numframes s)).
    { eapply wf_gen_ext; [exact Hwf|done..|by left|done|done]. }
    pose proof (choose_spec _ _ _ _ _ Hwf0 Hc) as (_ & _ & _ & _ & _ & _ & _ & Hq2).
    change (page_at (set_numpagefaults (numpagefaults s + 1) s)) with (page_at s) in Hq2.
    rewrite (count_if_change2 dirty zero_page (pgt s) (pgt s') pg v); try (done || lia).
    + fold (page_at s' pg). fold (page_at s pg).
      fold (page_at s' v). fold (page_at s v).
      rewrite !Hq, decide_True, decide_False, decide_True by done.
      unfold dirty.
      destruct (referenced_page_fields pol op (clock s)
                  (replaced_page (frame (page_at s v)) (page_at s1 pg))) as (-> & _).
      rewrite referenced_page_modified, Hp, Hvp. cbn [andb orb present modified
        set_present replaced_page].
      destruct (modified (page_at s v));
        (destruct (Ascii.eqb op "W") eqn:EW; [rewrite (HWW eq_refl)|]; lia).
    + intros q Hq1 Hq3 _. fold (page_at s' q). fold (page_at s q).
      rewrite Hq, !decide_False by done. unfold dirty.
      destruct (Hq2 q) as (-> & _ & -> & _). done.
Qed.

(** X19: every write-back is paid by a write.  Along a run from
    init_tables, in the four variants, the write-backs counted, together
    with the pages that are resident and modified, never exceed the write
    references counted: numpgwriteback cannot grow faster than
    numrefswrite. *)
Theorem write_backs_need_writes pol tr s0 l s :
  sizes_ok s0 -> (init_tables pol ;; run pol tr) s0 = Ret l s ->
  0 <= count_if dirty (pgt s) /\
  numpgwriteback s - numpgwriteback s0 + count_if dirty (pgt s)
    <= numrefswrite s - numrefswrite s0.
Proof.
  intros Hs H. split; [apply count_if_nonneg|].
  destruct (init_run_split _ _ _ _ _ Hs H) as (sI & _ & Hrun & Hwf & Hpost).
  destruct Hpost as ((_ & Hnp & _) & _ & Hw & _ & Hb & _ & _ & _ & Hpg & _).
  set (I := fun (x : ssystem) (k : Z) =>
       numpgwriteback x - numpgwriteback s0 + count_if dirty (pgt x)
       <= numrefswrite x - numrefswrite s0).
  assert (Hstep : forall raw va op x kx a x' kx',
            wf_at pol x kx -> I x kx -> sim_mmu pol raw va op x = Ret a x' ->
            wf_at pol x' kx' -> I x' kx').
  { intros raw va op x kx a x' kx' Hx HI Hst _. unfold I in *.
    destruct (dirty_step _ _ _ _ _ _ _ _ Hx Hst). lia. }
  assert (HI0 : I sI 0).
  { unfold I. rewrite Hw, Hb.
    assert (Hz : count_if dirty (pgt sI) = 0); [|lia].
    pose proof Hwf as [Hpl _ _ _ _ _ _ _ _ _].
    assert (Hall : forall n y, pgt sI !! n = Some y -> dirty y = false).
    { intros n y Hn. rewrite <- (arr_nth_lookup zero_page _ _ _ Hn).
      fold (page_at sI (Z.of_nat n)). rewrite Hpg; [done|].
      apply lookup_lt_Some in Hn. lia. }
    clear -Hall. induction (pgt sI) as [|x t IH]; [done|]. cbn [count_if].
    rewrite (Hall O x eq_refl), IH; [done|]. intros n y Hn. by apply (Hall (S n)). }
  destruct (run_invariant_at pol I Hstep tr sI 0 l s Hwf HI0 Hrun) as (k & _ & HI).
  exact HI.
Qed.

Lemma write_backs_need_writes_witness :
  0 <= count_if dirty (pgt fifo_written_evicted) /\
  numpgwriteback fifo_written_evicted - numpgwriteback (blank 4096 3 2)
    + count_if dirty (pgt fifo_written_evicted)
    <= numrefswrite fifo_written_evicted - numrefswrite (blank 4096 3 2).
Proof.
  apply (write_backs_need_writes FIFO [Wr 0; Rd 4096; Rd 8192] (blank 4096 3 2)
           [0; 4096; 0]).
  - unfold sizes_ok. vm_compute. repeat split; reflexivity.
  - vm_compute. reflexivity.
Defined.

(** ** Every trace runs to its end *)




